(** * ADP paystub extractor: a shallow embedding of [adp_extractor.py]

    The development follows the source file: the text primitives of
    Python that the parser relies on ([str.strip], [str.split],
    [str.find], [re.match] on the handful of patterns the source uses,
    [fnmatch]), then [clean_amount], the two amount extractors, the three
    section parsers, the dates, the taxable wages and the record of a
    paystub, the year-to-date validator and the rows of the CSV output.

    Text is a list of 8-bit characters read as the code points 0..255
    (Latin-1); the character classes below are Python's on that range. *)

From Stdlib Require Import ZArith NArith List Ascii String Lia Bool.
From stdpp Require Import base option list gmap strings.

Local Open Scope Z_scope.
Local Open Scope nat_scope.
Local Open Scope list_scope.

Abbreviation str := (list ascii).
Abbreviation dict := (gmap (list ascii) (list ascii)).

(** String literals of the source, as character lists. *)
Definition L (s : string) : str := list_ascii_of_string s.

(** ** Characters *)

Module Char.

Definition code (c : ascii) : N := N_of_ascii c.

Definition between (lo hi : N) (c : ascii) : bool :=
  ((lo <=? code c) && (code c <=? hi))%N.

(** [str.isspace] on one character; it is also what [str.split()],
    [str.strip()] and the regular expression class [\s] use. *)
Definition isspace (c : ascii) : bool :=
  between 9 13 c || between 28 32 c || (code c =? 133)%N || (code c =? 160)%N.

(** The regular expression class [\d]: decimal digits. *)
Definition isdecimal (c : ascii) : bool := between 48 57 c.

(** [str.isdigit] on one character: the decimal digits and the
    superscripts one, two and three. *)
Definition isdigit (c : ascii) : bool :=
  isdecimal c || (code c =? 178)%N || (code c =? 179)%N || (code c =? 185)%N.

(** The class [[A-Za-z\s]] of the earnings label pattern. *)
Definition isletter (c : ascii) : bool := between 65 90 c || between 97 122 c.
Definition islabel (c : ascii) : bool := isletter c || isspace c.

Definition is_char (d : ascii) (c : ascii) : bool := bool_decide (c = d).

(** [str.lower] on one character. *)
Definition lower (c : ascii) : ascii :=
  if between 65 90 c || between 192 214 c || between 216 222 c
  then ascii_of_N (code c + 32) else c.

End Char.

(** ** Strings *)

Definition lower (s : str) : str := map Char.lower s.

Fixpoint lstrip (s : str) : str :=
  match s with
  | c :: s' => if Char.isspace c then lstrip s' else s
  | [] => []
  end.

Definition rstrip (s : str) : str := rev (lstrip (rev s)).

(** [s.strip()] *)
Definition strip (s : str) : str := rstrip (lstrip s).

(** [s.lstrip(c)] and [s.rstrip(c)] for a one-character argument. *)
Fixpoint lstrip_char (d : ascii) (s : str) : str :=
  match s with
  | c :: s' => if Char.is_char d c then lstrip_char d s' else s
  | [] => []
  end.

Definition rstrip_char (d : ascii) (s : str) : str :=
  rev (lstrip_char d (rev s)).

(** [s.replace(c, '')] for a one-character [c]. *)
Fixpoint remove_char (d : ascii) (s : str) : str :=
  match s with
  | c :: s' => if Char.is_char d c then remove_char d s' else c :: remove_char d s'
  | [] => []
  end.

(** [s.isdigit()]: every character is a digit and there is at least one. *)
Definition str_isdigit (s : str) : bool :=
  negb (bool_decide (s = [])) && forallb Char.isdigit s.

(** [s.startswith(p)] *)
Fixpoint startswith (p s : str) : bool :=
  match p, s with
  | [], _ => true
  | a :: p', b :: s' => bool_decide (a = b) && startswith p' s'
  | _ :: _, [] => false
  end.

(** [s.endswith(p)] *)
Definition endswith (p s : str) : bool := startswith (rev p) (rev s).

(** [s.find(sub)]: the lowest index at which [sub] occurs. *)
Fixpoint find_from (sub s : str) (i : nat) : option nat :=
  if startswith sub s then Some i
  else match s with
       | [] => None
       | _ :: s' => find_from sub s' (S i)
       end.

Definition find (sub s : str) : option nat := find_from sub s 0.

(** [sub in s] *)
Definition contains (sub s : str) : bool := bool_decide (is_Some (find sub s)).

(** [s.split(sep, 1)[1]]: the text after the first occurrence of [sep].
    Python raises [ValueError] on an empty separator and [IndexError] when
    [sep] does not occur; both are the [None] here. *)
Definition after_first (sep s : str) : option str :=
  match sep with
  | [] => None
  | _ => match find sep s with
         | Some pos => Some (drop (pos + length sep) s)
         | None => None
         end
  end.

(** [s.split()]: the maximal runs of non-whitespace characters. *)
Fixpoint split_ws (s : str) : list str :=
  match s with
  | [] => []
  | c :: s' =>
      if Char.isspace c then split_ws s'
      else match s' with
           | [] => [[c]]
           | c' :: _ =>
               if Char.isspace c' then [c] :: split_ws s'
               else match split_ws s' with
                    | t :: ts => (c :: t) :: ts
                    | [] => [[c]]
                    end
           end
  end.

(** [s.split(d)] for a one-character separator: never an empty list. *)
Fixpoint split_on (d : ascii) (s : str) : list str :=
  match s with
  | [] => [[]]
  | c :: s' =>
      if Char.is_char d c then [] :: split_on d s'
      else match split_on d s' with
           | l :: ls => (c :: l) :: ls
           | [] => [[c]]
           end
  end.

(** [sep.join(l)] *)
Fixpoint join (sep : str) (l : list str) : str :=
  match l with
  | [] => []
  | [x] => x
  | x :: rest => x ++ sep ++ join sep rest
  end.

(** [l[i:j]] on a list, as Python clamps it. *)
Definition slice {A} (i j : nat) (l : list A) : list A := take (j - i) (drop i l).

(** Truth value of an [Optional[str]]: [None] and [''] are false. *)
Definition truthy (o : option str) : bool :=
  match o with
  | Some (_ :: _) => true
  | _ => false
  end.

(** ** Regular expressions

    Every pattern of the source is a sequence of character classes, each
    with a repetition count, possibly closed by [$].  [re_run] lists the
    remainders of the subject after each way of matching a prefix, in the
    order Python's backtracking matcher tries them (greedy: longest
    repetition first); [re.match] takes the first. *)

Module Re.

Inductive atom :=
| Rep (cls : ascii -> bool) (lo : nat) (hi : option nat)
| Dollar.

Abbreviation regex := (list atom).

Definition can_repeat (hi : option nat) : bool :=
  match hi with Some 0 => false | _ => true end.

Definition dec (hi : option nat) : option nat := Nat.pred <$> hi.

Fixpoint reps (cls : ascii -> bool) (lo : nat) (hi : option nat) (s : str) : list str :=
  (match s with
   | c :: s' => if cls c && can_repeat hi then reps cls (Nat.pred lo) (dec hi) s' else []
   | [] => []
   end) ++ (if Nat.eqb lo 0 then [s] else []).

(** [$] holds at the end of the subject and before a final newline. *)
Definition at_end (s : str) : bool :=
  bool_decide (s = []) || bool_decide (s = ["010"%char]).

Fixpoint re_run (r : regex) (s : str) : list str :=
  match r with
  | [] => [s]
  | Rep cls lo hi :: r' => flat_map (re_run r') (reps cls lo hi s)
  | Dollar :: r' => if at_end s then re_run r' s else []
  end.

(** [re.match(r, s)]: the matched text (group 0) of the first match. *)
Definition re_match (r : regex) (s : str) : option str :=
  match re_run r s with
  | rest :: _ => Some (take (length s - length rest) s)
  | [] => None
  end.

Definition matches (r : regex) (s : str) : bool :=
  bool_decide (is_Some (re_match r s)).

Definition one (cls : ascii -> bool) : atom := Rep cls 1 (Some 1).
Definition opt (cls : ascii -> bool) : atom := Rep cls 0 (Some 1).
Definition times (n : nat) (cls : ascii -> bool) : atom := Rep cls n (Some n).
Definition range (lo hi : nat) (cls : ascii -> bool) : atom := Rep cls lo (Some hi).
Definition plus (cls : ascii -> bool) : atom := Rep cls 1 None.
Definition star (cls : ascii -> bool) : atom := Rep cls 0 None.

End Re.

Import Re.

(** The four amount shapes, longest first.
    [-?\d{1,4}\s\d{3}\s\d{3}\s\d{2}\*?$] *)
Definition shape4 : regex :=
  [opt (Char.is_char "-"); range 1 4 Char.isdecimal; one Char.isspace;
   times 3 Char.isdecimal; one Char.isspace; times 3 Char.isdecimal;
   one Char.isspace; times 2 Char.isdecimal; opt (Char.is_char "*"); Dollar].

(** [-?\d{1,4}\s\d{3}\s\d{2}\*?$] *)
Definition shape3 : regex :=
  [opt (Char.is_char "-"); range 1 4 Char.isdecimal; one Char.isspace;
   times 3 Char.isdecimal; one Char.isspace; times 2 Char.isdecimal;
   opt (Char.is_char "*"); Dollar].

(** [-?\d{1,4}\s\d{2}\*?$] *)
Definition shape2 : regex :=
  [opt (Char.is_char "-"); range 1 4 Char.isdecimal; one Char.isspace;
   times 2 Char.isdecimal; opt (Char.is_char "*"); Dollar].

(** [-?\d{2}\*?$] *)
Definition shape1 : regex :=
  [opt (Char.is_char "-"); times 2 Char.isdecimal; opt (Char.is_char "*"); Dollar].

(** ** [clean_amount] *)

Definition clean_amount (amount_str : str) : str :=
  let cleaned :=
    strip (remove_char "*" (remove_char "," (remove_char " " amount_str))) in
  let cleaned := rstrip_char "010" cleaned in
  match cleaned with
  | [] => []
  | _ =>
      let is_negative := startswith (L "-") cleaned in
      let cleaned := if is_negative then drop 1 cleaned else cleaned in
      let cleaned :=
        if negb (bool_decide (cleaned = [])) && (2 <=? length cleaned)
           && str_isdigit cleaned
        then take (length cleaned - 2) cleaned ++ L "." ++ drop (length cleaned - 2) cleaned
        else cleaned in
      if is_negative then L "-" ++ cleaned else cleaned
  end.

(** The text after the description (the first lines of both extractors). *)
Definition remainder_after (line description : str) : str :=
  if negb (bool_decide (description = [])) && contains description line
  then strip (default [] (after_first description line))
  else strip line.

(** ** [extract_first_amount_from_line] *)

Definition extract_first_amount_from_line (line description : str) : option str :=
  let tokens := split_ws (remainder_after line description) in
  match tokens with
  | [] => None
  | _ =>
      if (3 <=? length tokens) && matches shape3 (join (L " ") (take 3 tokens))
      then Some (clean_amount (join (L " ") (take 3 tokens)))
      else if (2 <=? length tokens) && matches shape2 (join (L " ") (take 2 tokens))
      then Some (clean_amount (join (L " ") (take 2 tokens)))
      else if (1 <=? length tokens) && matches shape1 (default [] (tokens !! 0))
      then Some (clean_amount (default [] (tokens !! 0)))
      else None
  end.

(** ** [extract_amounts_from_line]

    The cascade of four shapes at a token index.  The source writes it out
    three times with the same guards and patterns: in [try_extract_at], in
    the loop that looks for the first amount, and in the earnings loop.  It
    yields the amount and the number of tokens it spans. *)
Definition amount_at (tokens : list str) (idx : nat) : option (str * nat) :=
  if negb (idx <? length tokens) then None
  else if (idx + 3 <? length tokens)
          && matches shape4 (join (L " ") (slice idx (idx + 4) tokens))
  then Some (clean_amount (join (L " ") (slice idx (idx + 4) tokens)), 4)
  else if (idx + 2 <? length tokens)
          && matches shape3 (join (L " ") (slice idx (idx + 3) tokens))
  then Some (clean_amount (join (L " ") (slice idx (idx + 3) tokens)), 3)
  else if (idx + 1 <? length tokens)
          && matches shape2 (join (L " ") (slice idx (idx + 2) tokens))
  then Some (clean_amount (join (L " ") (slice idx (idx + 2) tokens)), 2)
  else if matches shape1 (default [] (tokens !! idx))
  then Some (clean_amount (default [] (tokens !! idx)), 1)
  else None.

Definition try_extract_at (tokens : list str) (start_idx : nat) : option str :=
  fst <$> amount_at tokens start_idx.

(** The [while idx < len(tokens)] loop: [(this_period, this_period_end_idx)]
    at the [break], [None] when the loop runs off the end.  Every iteration
    that does not break advances [idx] by one, so [length tokens - idx]
    iterations suffice. *)
Fixpoint first_amount_loop (fuel : nat) (tokens : list str) (idx : nat)
  : option (str * nat) :=
  match fuel with
  | 0 => None
  | S fuel' =>
      if negb (idx <? length tokens) then None
      else match amount_at tokens idx with
           | Some (a, k) => Some (a, idx + k)
           | None => first_amount_loop fuel' tokens (S idx)
           end
  end.

Definition first_amount (tokens : list str) : option (str * nat) :=
  first_amount_loop (length tokens) tokens 0.

Definition extract_amounts_from_tokens (tokens : list str) : option str * option str :=
  match tokens with
  | [] => (None, None)
  | _ =>
      match first_amount tokens with
      | Some (this_period, this_period_end_idx) =>
          (Some this_period, try_extract_at tokens this_period_end_idx)
      | None => (None, None)
      end
  end.

Definition extract_amounts_from_line (line description : str)
  : option str * option str :=
  extract_amounts_from_tokens (split_ws (remainder_after line description)).

(** ** [parse_earnings_section] *)

(** [^([A-Za-z\s]+)] *)
Definition label_re : regex := [plus Char.islabel].

(** The inner [while] loop over the tokens of an earnings line.  An
    iteration either stops the loop or advances [idx], so
    [length tokens - idx] iterations suffice. *)
Fixpoint collect_amounts (fuel : nat) (tokens : list str) (idx : nat)
    (consecutive_non_numbers : nat) (amounts : list str) : list str :=
  match fuel with
  | 0 => amounts
  | S fuel' =>
      if negb (idx <? length tokens) then amounts
      else match amount_at tokens idx with
           | Some (a, k) => collect_amounts fuel' tokens (idx + k) 0 (amounts ++ [a])
           | None =>
               if 2 <=? S consecutive_non_numbers then amounts
               else collect_amounts fuel' tokens (S idx) (S consecutive_non_numbers) amounts
           end
  end.

Definition line_amounts (tokens : list str) : list str :=
  collect_amounts (length tokens) tokens 0 0 [].

Definition earnings_key (description : str) : str := L "Earnings " ++ description.
Definition earnings_ytd_key (description : str) : str :=
  L "Earnings " ++ description ++ L " YTD".

(** The [if len(amounts) >= 4 ... elif ...] chain. *)
Definition assign_earnings (description : str) (amounts : list str) (earnings : dict)
  : dict :=
  let at_ i := default [] (amounts !! i) in
  if 4 <=? length amounts then
    <[earnings_ytd_key description := at_ 3]> (<[earnings_key description := at_ 2]> earnings)
  else if length amounts =? 2 then
    <[earnings_ytd_key description := at_ 1]> (<[earnings_key description := at_ 0]> earnings)
  else if length amounts =? 1 then
    <[earnings_ytd_key description := at_ 0]> earnings
  else if length amounts =? 3 then
    <[earnings_ytd_key description := at_ 2]> (<[earnings_key description := at_ 1]> earnings)
  else earnings.

Definition earnings_header (line : str) : bool :=
  contains (L "rate") (lower line) && contains (L "hours") (lower line)
  && contains (L "this period") (lower line).

Definition earnings_end (line : str) : bool :=
  existsb (fun keyword => contains keyword line)
    (map L ["Gross Pay"; "Federal Income Tax"; "Deductions"; "Net Check"]%string).

(** The body of the [for] loop for a line inside the earnings section;
    [None] is the [ValueError] of [line.split('', 1)]. *)
Definition earnings_line (line : str) (earnings : dict) : option dict :=
  match re_match label_re line with
  | Some group1 =>
      let description := strip group1 in
      if bool_decide (description ∈ map L ["Net Pay"; "Net Check"]%string) then Some earnings
      else
        remainder ← (if contains description line
                     then strip <$> after_first description line
                     else Some (strip line));
        Some (assign_earnings description (line_amounts (split_ws remainder)) earnings)
  | None => Some earnings
  end.

Fixpoint earnings_loop (lines : list str) (in_earnings : bool) (earnings : dict)
  : option dict :=
  match lines with
  | [] => Some earnings
  | line :: rest =>
      if earnings_header line then earnings_loop rest true earnings
      else if in_earnings && earnings_end line then Some earnings
      else if in_earnings && negb (bool_decide (strip line = [])) then
        earnings' ← earnings_line line earnings;
        earnings_loop rest in_earnings earnings'
      else earnings_loop rest in_earnings earnings
  end.

Definition parse_earnings_section (text : str) : option dict :=
  earnings_loop (split_on "010" text) false ∅.

(** ** [parse_deductions_section] *)

Definition deduction_names : list str :=
  map L ["Federal Income Tax"; "Social Security Tax"; "Medicare Tax";
         "Medicare Surtax"; "GA State Income Tax"; "Rsu Net Value";
         "Basic Life Inc"; "Accident"; "Ad&D Spouse"; "Ad&D"; "After-Tax Ded";
         "Crit Ill Spouse"; "Critical Illnes"; "Dental Pretax"; "Ee Life";
         "Espp"; "Hsa"; "Legal"; "Medical Pretax"; "Non Ca Std"; "Roth 401K";
         "Spouse Life"; "Vision Pretax"]%string.

Definition benefit_deductions_that_may_be_ytd_only : list str :=
  map L ["Basic Life Inc"; "Accident"; "Ad&D"; "Ad&D Spouse"; "After-Tax Ded";
         "Crit Ill Spouse"; "Critical Illnes"; "Dental Pretax"; "Ee Life";
         "Hsa"; "Legal"; "Medical Pretax"; "Non Ca Std"; "Roth 401K";
         "Spouse Life"; "Vision Pretax"]%string.

Definition always_ytd_when_single : list str := map L ["Rsu Net Value"]%string.

(** [\s+\d+/] and [\s+\d+\s+\d+] *)
Definition date_fragment_re : regex :=
  [plus Char.isspace; plus Char.isdecimal; one (Char.is_char "/")].
Definition positive_amount_re : regex :=
  [plus Char.isspace; plus Char.isdecimal; plus Char.isspace; plus Char.isdecimal].

(** The three tests that make the loop [continue] past an [Espp] at [pos]. *)
Definition espp_skipped (line : str) (pos : nat) : bool :=
  bool_decide (slice pos (pos + 11) line = L "Espp Refund")
  || matches date_fragment_re (slice (pos + 4) (pos + 20) line)
  || matches positive_amount_re (slice (pos + 4) (pos + 20) line).

(** The list [matches] of a line, before it is sorted. *)
Definition line_matches (line : str) : list (nat * str) :=
  flat_map (fun deduction_name =>
    if contains deduction_name line then
      let pos := default 0 (find deduction_name line) in
      if bool_decide (deduction_name = L "Espp") && espp_skipped line pos then []
      else [(pos, deduction_name)]
    else []) deduction_names.

(** Python's order on strings (by code point) and on the pairs. *)
Fixpoint str_ltb (a b : str) : bool :=
  match a, b with
  | _, [] => false
  | [], _ :: _ => true
  | x :: a', y :: b' =>
      (Char.code x <? Char.code y)%N || ((Char.code x =? Char.code y)%N && str_ltb a' b')
  end.

Definition match_leb (m1 m2 : nat * str) : bool :=
  (m1.1 <? m2.1) || ((m1.1 =? m2.1) && negb (str_ltb m2.2 m1.2)).

Fixpoint sort_insert (m : nat * str) (l : list (nat * str)) : list (nat * str) :=
  match l with
  | [] => [m]
  | m' :: l' => if match_leb m m' then m :: l else m' :: sort_insert m l'
  end.

(** [matches.sort()] *)
Definition sort_matches (l : list (nat * str)) : list (nat * str) :=
  foldr sort_insert [] l.

Definition deductions_key (deduction_name : str) : str := L "Deductions " ++ deduction_name.
Definition deductions_ytd_key (deduction_name : str) : str :=
  L "Deductions " ++ deduction_name ++ L " YTD".

(** The state of the scan: the dictionary under construction and the flag
    [in_other_benefits_or_ytd_only_section]. *)
Record dstate := DState { deductions : dict; ytd_only_section : bool }.

(** The routing of the two extracted amounts (source lines 499 to 526). *)
Definition route_amounts (deduction_name : str) (st : dstate)
    (amounts : option str * option str) : option str * option str :=
  let '(this_period, ytd) := amounts in
  let '(this_period, ytd) :=
    if bool_decide (deduction_name = L "Social Security Tax")
       && truthy this_period && negb (truthy ytd)
       && negb (startswith (L "-") (default [] this_period))
    then (None, this_period) else (this_period, ytd) in
  if truthy this_period && negb (truthy ytd)
     && bool_decide (deduction_name ∈ always_ytd_when_single)
  then (None, this_period)
  else if truthy this_period && negb (truthy ytd)
          && bool_decide (deduction_name ∈ benefit_deductions_that_may_be_ytd_only)
  then
    if ytd_only_section st then (None, this_period)
    else if negb (bool_decide (is_Some (deductions st !! deductions_ytd_key deduction_name)))
    then (None, this_period)
    else (this_period, ytd)
  else (this_period, ytd).

(** The body of the loop over the sorted matches of a line. *)
Definition process_match (line : str) (deduction_name : str) (st : dstate) : dstate :=
  if bool_decide (is_Some (deductions st !! deductions_key deduction_name))
     || bool_decide (is_Some (deductions st !! deductions_ytd_key deduction_name))
  then st
  else
    let '(this_period, ytd) :=
      route_amounts deduction_name st (extract_amounts_from_line line deduction_name) in
    let d1 := if truthy this_period
              then <[deductions_key deduction_name := default [] this_period]> (deductions st)
              else deductions st in
    let d2 := if truthy ytd
              then <[deductions_ytd_key deduction_name := default [] ytd]> d1
              else d1 in
    DState d2
      (if bool_decide (deduction_name ∈ benefit_deductions_that_may_be_ytd_only)
          && truthy ytd && negb (truthy (d2 !! deductions_key deduction_name))
       then true else ytd_only_section st).

Definition deductions_line (line : str) (st : dstate) : dstate :=
  let st :=
    if contains (L "Other Benefits and") line
       || contains (L "this period total to date") (lower line)
    then DState (deductions st) true else st in
  foldl (fun st m => process_match line m.2 st) st (sort_matches (line_matches line)).

Definition parse_deductions_section (text : str) : dict :=
  deductions (foldl (fun st line => deductions_line line st)
                (DState ∅ false) (split_on "010" text)).

(** ** [parse_other_benefits_section] *)

Definition benefit_names : list str :=
  map L ["Current Match"; "Espp *"; "Ytd 401K Match"; "Sick Earned Bal"]%string.

(** [fnmatch.fnmatch(name, pat)] on a POSIX system (no case folding) for
    patterns made of literal characters, [*] and [?]; the patterns of the
    source contain no character set. *)
Fixpoint fnmatch (pat : str) : str -> bool :=
  match pat with
  | [] => fun name => bool_decide (name = [])
  | p :: pat' =>
      if Char.is_char "*" p then
        fix star (name : str) : bool :=
          fnmatch pat' name
          || match name with
             | [] => false
             | _ :: name' => star name'
             end
      else if Char.is_char "?" p then
        fun name => match name with
                    | [] => false
                    | _ :: name' => fnmatch pat' name'
                    end
      else
        fun name => match name with
                    | [] => false
                    | c :: name' => bool_decide (c = p) && fnmatch pat' name'
                    end
  end.

Definition is_glob (benefit_pattern : str) : bool :=
  contains (L "*") benefit_pattern || contains (L "?") benefit_pattern
  || contains (L "[") benefit_pattern.

(** [has_negative]: some word of the candidate is a minus sign and digits. *)
Definition has_negative (ws : list str) : bool :=
  existsb (fun word =>
    startswith (L "-") word
    && str_isdigit (remove_char " " (lstrip_char "-" word))) ws.

(** One iteration of the loop over [j]: the candidate [words[i:j]] when it
    matches the pattern and neither [continue] is taken. *)
Definition candidate_at (benefit_pattern : str) (words : list str) (i j : nat)
  : option str :=
  let candidate := join (L " ") (slice i j words) in
  if negb (fnmatch benefit_pattern candidate) then None
  else if has_negative (slice i j words) then None
  else if bool_decide (benefit_pattern = L "Espp *")
          && startswith (L "Espp ") candidate
          && negb (existsb (fun c => contains c (drop 5 candidate)) (map L ["/"; "-"]%string))
          && str_isdigit (remove_char " " (drop 5 candidate))
  then None
  else Some candidate.

(** First result of [f] over a range that is a non-empty string: the two
    nested [for] loops leave through [break] at the first candidate. *)
Fixpoint first_match {A} (f : A -> option str) (l : list A) : option str :=
  match l with
  | [] => None
  | x :: l' => if truthy (f x) then f x else first_match f l'
  end.

Definition glob_matched_name (benefit_pattern line : str) : option str :=
  let words := split_ws line in
  first_match (fun i =>
    first_match (candidate_at benefit_pattern words i)
      (seq (i + 1) (Nat.min (i + 5) (length words + 1) - (i + 1))))
    (seq 0 (length words)).

Definition matched_name (benefit_pattern line : str) : option str :=
  if is_glob benefit_pattern then glob_matched_name benefit_pattern line
  else if contains benefit_pattern line then Some benefit_pattern
  else None.

Definition benefits_key (name : str) : str := L "Other Benefits " ++ name.

(** The loop over [benefit_names] for one line, left at the first pattern
    that yields a name. *)
Fixpoint benefits_line (patterns : list str) (line : str) (benefits : dict) : dict :=
  match patterns with
  | [] => benefits
  | benefit_pattern :: rest =>
      if truthy (matched_name benefit_pattern line) then
        let name := default [] (matched_name benefit_pattern line) in
        let amount := extract_first_amount_from_line line name in
        if truthy amount then <[benefits_key name := default [] amount]> benefits
        else benefits
      else benefits_line rest line benefits
  end.

Definition parse_other_benefits_section (text : str) : dict :=
  foldl (fun benefits line => benefits_line benefit_names line benefits)
    ∅ (split_on "010" text).
(** ** [extract_pay_period_dates] *)

(** A record of a paystub: the values are [Optional[str]], the dates that
    are not found being [None]. *)
Abbreviation record := (gmap (list ascii) (option (list ascii))).

(** A literal text as a pattern. *)
Definition lit (s : str) : regex := map (fun c => one (Char.is_char c)) s.

(** [\d{1,2}/\d{1,2}/\d{4}] *)
Definition date_re : regex :=
  [range 1 2 Char.isdecimal; one (Char.is_char "/"); range 1 2 Char.isdecimal;
   one (Char.is_char "/"); times 4 Char.isdecimal].

(** The text of the group in the first match of [r1(r2)] at the start of
    [s], in the order of the backtracking matcher. *)
Definition match_group (r1 r2 : regex) (s : str) : option str :=
  head (flat_map (fun mid =>
                    map (fun rest => take (length mid - length rest) mid) (re_run r2 mid))
          (re_run r1 s)).

(** [re.search(r1(r2), s).group(1)]: the match at the lowest position. *)
Fixpoint search_group (r1 r2 : regex) (s : str) : option str :=
  match match_group r1 r2 s with
  | Some g => Some g
  | None => match s with
            | [] => None
            | _ :: s' => search_group r1 r2 s'
            end
  end.

(** [re.search(label + r'\s*(\d{1,2}/\d{1,2}/\d{4})', text)] *)
Definition labelled_date (label text : str) : option str :=
  search_group (lit label ++ [star Char.isspace]) date_re text.

Definition extract_pay_period_dates (text : str) : record :=
  let dates : record :=
    {[ L "Pay Period Beginning" := None; L "Pay Period Ending" := None;
       L "Pay Date" := None ]} in
  let dates := match labelled_date (L "Period Beginning:") text with
               | Some group1 => <[L "Pay Period Beginning" := Some group1]> dates
               | None => dates
               end in
  let dates := match labelled_date (L "Period Ending:") text with
               | Some group1 => <[L "Pay Period Ending" := Some group1]> dates
               | None => dates
               end in
  match labelled_date (L "Pay Date:") text with
  | Some group1 => <[L "Pay Date" := Some group1]> dates
  | None => dates
  end.

(** ** [extract_taxable_wages] *)

(** [s.split(sep)] for a separator of one character or more: the pieces
    between the occurrences of [sep], found from the left without overlap.
    [skip] counts the characters of an occurrence that are still to be
    passed, [piece] is the current piece, reversed. *)
Fixpoint split_str_from (sep s : str) (skip : nat) (piece : str) : list str :=
  match s with
  | [] => [rev piece]
  | c :: s' =>
      match skip with
      | S k => split_str_from sep s' k piece
      | 0 => if startswith sep s
             then rev piece :: split_str_from sep s' (length sep - 1) []
             else split_str_from sep s' 0 (c :: piece)
      end
  end.

Definition split_str (sep s : str) : list str := split_str_from sep s 0 [].

Definition wages_marker : str := L "federal taxable wages this period".
Definition wages_key : str := L "Taxable Wages This Period".

(** [extract_first_amount_from_line(s.split('$')[-1].strip(), '')] *)
Definition amount_after_dollar (s : str) : option str :=
  extract_first_amount_from_line (strip (default [] (last (split_on "$" s)))) [].

(** The amount after [ are ] on the line itself (source lines 264 to 274). *)
Definition amount_after_are (line : str) : option str :=
  if contains (L " are ") (lower line) then
    let parts := split_str (L " are ") (lower line) in
    if 1 <? length parts then
      let amount_part := strip (default [] (parts !! 1)) in
      let amount_part := strip (remove_char "$" amount_part) in
      if truthy (Some amount_part) then
        let amount := extract_first_amount_from_line amount_part [] in
        if truthy amount then amount else None
      else None
    else None
  else None.

(** The amount after a [$] of the line itself (source lines 277 to 282). *)
Definition amount_on_line (line : str) : option str :=
  if contains (L "$") line then
    let amount := amount_after_dollar line in
    if truthy amount then amount else None
  else None.

(** The loop over the lines that follow, three at most (source lines 285
    to 293). *)
Definition amount_on_next_lines (next : list str) : option str :=
  first_match (fun l => let next_line := strip l in
                        if contains (L "$") next_line
                        then amount_after_dollar next_line else None) next.

(** The loop over the lines; it ends at the first amount. *)
Fixpoint taxable_wages_loop (lines : list str) : option str :=
  match lines with
  | [] => None
  | line :: rest =>
      if contains wages_marker (lower line) then
        match amount_after_are line with
        | Some amount => Some amount
        | None =>
            match amount_on_line line with
            | Some amount => Some amount
            | None =>
                match amount_on_next_lines (take 3 rest) with
                | Some amount => Some amount
                | None => taxable_wages_loop rest
                end
            end
        end
      else taxable_wages_loop rest
  end.

Definition extract_taxable_wages (text : str) : dict :=
  match taxable_wages_loop (split_on "010" text) with
  | Some amount => {[ wages_key := amount ]}
  | None => ∅
  end.

(** ** [parse_other_section] *)

Definition parse_other_section (text : str) : dict := ∅.

(** ** [extract_paystub_data]

    The function is given the path and the text of each page as
    [pdfplumber] returns it ([None] or a string); opening and reading the
    file are outside the model.  The result [None] is the [return None] of
    an empty text and of the [except] clause, which the [ValueError] of
    [parse_earnings_section] reaches. *)

(** [os.path.basename] on a POSIX system. *)
Definition basename (path : str) : str := default [] (last (split_on "/" path)).

(** The loop that builds [full_text]. *)
Definition page_texts (pages : list (option str)) : str :=
  foldl (fun full_text page_text =>
           if truthy page_text
           then full_text ++ default [] page_text ++ ["010"%char]
           else full_text) [] pages.

(** [data.update(new)] *)
Definition update (data new : record) : record := new ∪ data.

(** A dictionary of strings among the records. *)
Definition as_record (d : dict) : record := Some <$> d.

Definition extract_paystub_data (pdf_path : str) (pages : list (option str))
  : option record :=
  let full_text := page_texts pages in
  if negb (truthy (Some (strip full_text))) then None
  else
    let data : record := {[ L "Source File" := Some (basename pdf_path) ]} in
    let data := update data (extract_pay_period_dates full_text) in
    earnings ← parse_earnings_section full_text;
    let data := update data (as_record earnings) in
    let data := update data (as_record (parse_deductions_section full_text)) in
    let data := update data (as_record (parse_other_section full_text)) in
    let data := update data (as_record (extract_taxable_wages full_text)) in
    let data := update data (as_record (parse_other_benefits_section full_text)) in
    Some data.

(** ** Decimal numerals *)

Definition digit_char (d : N) : ascii := ascii_of_N (48 + d).

Definition digit_val (c : ascii) : N := (Char.code c - 48)%N.

(** The decimal digits of [n], least significant first; a number below
    [10 ^ fuel] needs no more than [fuel] of them. *)
Fixpoint digits_le (fuel : nat) (n : N) : list N :=
  match fuel with
  | 0 => []
  | S fuel' => if (n =? 0)%N then [] else (n mod 10)%N :: digits_le fuel' (n / 10)%N
  end.

(** [str(n)] for a natural number. *)
Definition decimal (n : N) : str :=
  if (n =? 0)%N then L "0"
  else rev (map digit_char (digits_le (S (N.to_nat (N.log2 n))) n)).

(** The value of a digit string, [int(s)]. *)
Definition digits_val (s : str) : N :=
  fold_left (fun acc c => (10 * acc + digit_val c)%N) s 0%N.

(** ** Floating point: Python's [float], on binary64

    A finite value is [(-1)^neg * m * 2^e] in canonical form: [m = 0] and
    [e = 0], or [2^52 <= m < 2^53] and [-1074 <= e <= 971], or
    [0 < m < 2^52] and [e = -1074]. *)

Module Float.
Local Open Scope Z_scope.

Inductive t :=
| NaN
| Inf (neg : bool)
| Fin (neg : bool) (m e : Z).

#[global] Instance t_eq_dec : EqDecision t.
Proof. solve_decision. Defined.

Definition zero (neg : bool) : t := Fin neg 0 0.

(** Quotient, remainder and divisor of [p / (q * 2^e)]. *)
Definition scaled (p q e : Z) : Z * Z * Z :=
  let num := if 0 <=? e then p else p * 2 ^ (- e) in
  let den := if 0 <=? e then q * 2 ^ e else q in
  (num / den, num mod den, den).

Definition round_half_even (quo rem den : Z) : Z :=
  if (den <? 2 * rem) || ((den =? 2 * rem) && Z.odd quo) then quo + 1 else quo.

(** The binary64 value nearest to [p / q] (ties to even), for [0 <= p] and
    [0 < q]; it overflows to infinity. *)
Definition round (neg : bool) (p q : Z) : t :=
  if p <=? 0 then zero neg
  else
    let e1 := Z.log2 p - Z.log2 q - 52 in
    let e2 := if 2 ^ 52 <=? (scaled p q e1).1.1 then e1 else e1 - 1 in
    let e := Z.max e2 (-1074) in
    let '(quo, rem, den) := scaled p q e in
    let m := round_half_even quo rem den in
    let '(m, e) := if m =? 2 ^ 53 then (2 ^ 52, e + 1) else (m, e) in
    if 971 <? e then Inf neg
    else if m =? 0 then zero neg
    else Fin neg m e.

(** The value [m * 10^e10] as a fraction. *)
Definition dec_frac (m e10 : Z) : Z * Z :=
  if 0 <=? e10 then (m * 10 ^ e10, 1) else (m, 10 ^ (- e10)).

Definition of_decimal (neg : bool) (m e10 : Z) : t :=
  round neg (dec_frac m e10).1 (dec_frac m e10).2.

(** *** [float(s)] *)

(** The leading run of decimal digits and what follows it. *)
Fixpoint span_digits (s : str) : str * str :=
  match s with
  | c :: s' =>
      if Char.isdecimal c then (c :: (span_digits s').1, (span_digits s').2)
      else ([], s)
  | [] => ([], [])
  end.

Definition take_sign (s : str) : bool * str :=
  match s with
  | c :: s' => if Char.is_char "-" c then (true, s')
               else if Char.is_char "+" c then (false, s')
               else (false, s)
  | [] => (false, s)
  end.

(** An underscore is accepted between two digits only. *)
Fixpoint underscores_ok (prev : option ascii) (s : str) : bool :=
  match s with
  | [] => true
  | c :: s' =>
      (if Char.is_char "_" c
       then match prev, s' with
            | Some p, n :: _ => Char.isdecimal p && Char.isdecimal n
            | _, _ => false
            end
       else true)
      && underscores_ok (Some c) s'
  end.

(** [digits [. digits] [e [sign] digits]] with a digit in the mantissa:
    the integer mantissa and the power of ten. *)
Definition parse_number (s : str) : option (Z * Z) :=
  let '(ip, r1) := span_digits s in
  let '(fp, r2) :=
    match r1 with
    | c :: r => if Char.is_char "." c then span_digits r else ([], r1)
    | [] => ([], r1)
    end in
  if bool_decide (ip = []) && bool_decide (fp = []) then None
  else
    let mant := Z.of_N (digits_val (ip ++ fp)) in
    let frac := Z.of_nat (length fp) in
    match r2 with
    | [] => Some (mant, - frac)
    | c :: r3 =>
        if Char.is_char "e" c || Char.is_char "E" c then
          let '(eneg, r4) := take_sign r3 in
          let '(ed, r5) := span_digits r4 in
          if bool_decide (ed = []) || negb (bool_decide (r5 = [])) then None
          else
            let ex := Z.of_N (digits_val ed) in
            Some (mant, (if eneg then - ex else ex) - frac)
        else None
    end.

(** [float(s)]; [None] is [ValueError]. *)
Definition of_str (s : str) : option t :=
  let s := strip s in
  if negb (underscores_ok None s) then None
  else
    let '(neg, body) := take_sign (remove_char "_" s) in
    let word := lower body in
    if bool_decide (word = L "inf") || bool_decide (word = L "infinity") then Some (Inf neg)
    else if bool_decide (word = L "nan") then Some NaN
    else '(m, e10) ← parse_number body; Some (of_decimal neg m e10).

(** *** Arithmetic and comparison *)

Definition signed (neg : bool) (m : Z) : Z := if neg then - m else m.

Definition sub (a b : t) : t :=
  match a, b with
  | NaN, _ | _, NaN => NaN
  | Inf na, Inf nb => if eqb na nb then NaN else Inf na
  | Inf na, Fin _ _ _ => Inf na
  | Fin _ _ _, Inf nb => Inf (negb nb)
  | Fin na ma ea, Fin nb mb eb =>
      let e := Z.min ea eb in
      let d := signed na ma * 2 ^ (ea - e) - signed nb mb * 2 ^ (eb - e) in
      if d =? 0 then zero (na && negb nb)
      else if 0 <=? e then round (d <? 0) (Z.abs d * 2 ^ e) 1
      else round (d <? 0) (Z.abs d) (2 ^ (- e))
  end.

Definition ltb (a b : t) : bool :=
  match a, b with
  | NaN, _ | _, NaN => false
  | Inf na, Inf nb => na && negb nb
  | Inf na, Fin _ _ _ => na
  | Fin _ _ _, Inf nb => negb nb
  | Fin na ma ea, Fin nb mb eb =>
      let e := Z.min ea eb in
      signed na ma * 2 ^ (ea - e) <? signed nb mb * 2 ^ (eb - e)
  end.

(** *** [str(x)]: the shortest digit string that reads back as [x] *)

(** The fraction [m * 2^e]. *)
Definition bin_frac (m e : Z) : Z * Z :=
  if 0 <=? e then (m * 2 ^ e, 1) else (m, 2 ^ (- e)).

Definition ndigits (n : Z) : Z := Z.of_nat (length (decimal (Z.to_N n))).

(** For [0 < p / q < 1], the [j >= 1] with [1 <= p / q * 10^j < 10]. *)
Fixpoint small_decpt (fuel : nat) (p q : Z) (j : Z) : Z :=
  match fuel with
  | O => j
  | S fuel' => if q <=? p * 10 ^ j then j else small_decpt fuel' p q (j + 1)
  end.

(** The [decpt] with [10^(decpt-1) <= p / q < 10^decpt]. *)
Definition decpt_of (p q : Z) : Z :=
  if q <=? p then ndigits (p / q) else 1 - small_decpt 400 p q 1.

(** The digits of a [k]-digit decimal that reads back as [x], nearest to
    [x] when both neighbours do (the even one on a tie). *)
Definition digits_at (x : t) (p q decpt : Z) (k : Z) : option Z :=
  let t10 := decpt - k in
  let num := if 0 <=? t10 then p else p * 10 ^ (- t10) in
  let den := if 0 <=? t10 then q * 10 ^ t10 else q in
  let quo := num / den in
  let rem := num mod den in
  let reads_back d := bool_decide (of_decimal false d t10 = x) in
  let lo := reads_back quo in
  let hi := negb (rem =? 0) && reads_back (quo + 1) in
  if lo && hi then Some (round_half_even quo rem den)
  else if lo then Some quo
  else if hi then Some (quo + 1)
  else None.

Fixpoint shortest (fuel : nat) (x : t) (p q decpt : Z) (k : Z) : Z * Z :=
  match fuel with
  | O => (0, k)
  | S fuel' =>
      match digits_at x p q decpt k with
      | Some d => (d, k)
      | None => shortest fuel' x p q decpt (k + 1)
      end
  end.

Definition zeros (n : Z) : str := repeat "0"%char (Z.to_nat n).

(** The layout of [repr]: digits without trailing zeros and the position
    of the decimal point. *)
Definition layout (ds : str) (decpt : Z) : str :=
  let nd := Z.of_nat (length ds) in
  if (decpt <=? -4) || (16 <? decpt) then
    take 1 ds ++ (if 1 <? nd then L "." ++ drop 1 ds else [])
    ++ L "e" ++ (if decpt - 1 <? 0 then L "-" else L "+")
    ++ (if Z.abs (decpt - 1) <? 10 then L "0" else [])
    ++ decimal (Z.to_N (Z.abs (decpt - 1)))
  else if decpt <=? 0 then L "0." ++ zeros (- decpt) ++ ds
  else if nd <=? decpt then ds ++ zeros (decpt - nd) ++ L ".0"
  else take (Z.to_nat decpt) ds ++ L "." ++ drop (Z.to_nat decpt) ds.

Definition to_str (x : t) : str :=
  match x with
  | NaN => L "nan"
  | Inf neg => if neg then L "-inf" else L "inf"
  | Fin neg m e =>
      (if neg then L "-" else []) ++
      (if m =? 0 then L "0.0"
       else
         let '(p, q) := bin_frac m e in
         let decpt := decpt_of p q in
         let '(d, k) := shortest 17 (Fin false m e) p q decpt 1 in
         let full := decimal (Z.to_N d) in
         layout (rstrip_char "0" full) (decpt - k + Z.of_nat (length full)))
  end.

End Float.

(** ** [validate_and_fix_ytd_values]

    A batch is the list of records in the caller's order; [process_pdfs]
    builds every record as a fresh dictionary, so the in-place update of a
    record is the replacement of one element of the list.  What the source
    prints on [stderr] is kept as the list of the values it formats. *)

Record diagnostic := Diagnostic {
  diag_field : str;
  diag_last : Float.t;
  diag_current : Float.t;
  diag_source : str
}.

(** The set [ytd_fields]. *)
Definition ytd_fields (data : list dict) : gset str :=
  ⋃ map (fun record : dict =>
           filter (fun key => Is_true (endswith (L " YTD") key)) (dom record)) data.

(** The literal [0.01]. *)
Definition tolerance : Float.t := Float.of_decimal false 1 (-2).

(** The body of the inner loop: the record after the iteration, the new
    [last_valid_value] and what is printed. *)
Definition validate_record (ytd_field : str) (last_valid_value : option Float.t)
    (record : dict) : dict * option Float.t * list diagnostic :=
  let current_value_str := default [] (record !! ytd_field) in
  if truthy (Some current_value_str) && truthy (Some (strip current_value_str)) then
    match Float.of_str (remove_char "," current_value_str) with
    | Some current_value =>
        (record, Some current_value,
         match last_valid_value with
         | Some last =>
             if Float.ltb current_value (Float.sub last tolerance)
             then [Diagnostic ytd_field last current_value
                     (default (L "unknown file") (record !! L "Source File"))]
             else []
         | None => []
         end)
    | None => (record, last_valid_value, [])
    end
  else
    match last_valid_value with
    | Some last => (<[ytd_field := Float.to_str last]> record, last_valid_value, [])
    | None => (record, last_valid_value, [])
    end.

(** The loop over the records for one field. *)
Fixpoint validate_field (ytd_field : str) (last_valid_value : option Float.t)
    (data : list dict) : list dict * list diagnostic :=
  match data with
  | [] => ([], [])
  | record :: rest =>
      let '(record', last', printed) := validate_record ytd_field last_valid_value record in
      let '(rest', printed') := validate_field ytd_field last' rest in
      (record' :: rest', printed ++ printed')
  end.

(** The loop over the fields, in the order the set is iterated. *)
Definition validate_fields (fields : list str) (data : list dict)
  : list dict * list diagnostic :=
  foldl (fun acc ytd_field =>
           let '(data', printed) := validate_field ytd_field None acc.1 in
           (data', acc.2 ++ printed))
    (data, []) fields.

Definition validate_and_fix_ytd_values (data : list dict) : list dict * list diagnostic :=
  match data with
  | [] => (data, [])
  | _ => validate_fields (elements (ytd_fields data)) data
  end.
(** ** [output_csv]: the rows handed to [csv.writer] *)

Definition FIELD_ORDER : list str :=
  map L ["Pay Date"; "Earnings Regular"; "Earnings Rsu"; "Taxable Wages This Period";
         "Deductions Federal Income Tax"; "Deductions Social Security Tax";
         "Deductions Medicare Tax"; "Deductions Medicare Surtax";
         "Deductions GA State Income Tax"; "Deductions Rsu Net Value";
         "Deductions Accident"; "Deductions Ad&D"; "Deductions Ad&D Spouse";
         "Deductions After-Tax Ded"; "Deductions Crit Ill Spouse";
         "Deductions Critical Illnes"; "Deductions Dental Pretax"; "Deductions Ee Life";
         "Deductions Espp"; "Deductions Hsa"; "Deductions Legal";
         "Deductions Medical Pretax"; "Deductions Non Ca Std"; "Deductions Roth 401K";
         "Deductions Spouse Life"; "Deductions Vision Pretax"; "Deductions Basic Life Inc";
         "Other Benefits Current Match"; "Other Benefits Espp .*";
         "Other Benefits Ytd 401K Match"; "Pay Period Beginning";
         "Pay Period Ending"]%string.

(** [sorted] on strings. *)
Fixpoint insert_sorted (x : str) (l : list str) : list str :=
  match l with
  | [] => [x]
  | y :: l' => if str_ltb y x then y :: insert_sorted x l' else x :: l
  end.

Definition sorted (l : list str) : list str := foldr insert_sorted [] l.

(** The body of the two loops over [FIELD_ORDER]: the fields that a
    pattern moves from [all_fields] to the end of the list. *)
Definition place_pattern (field_pattern : str) (st : list str * gset str)
  : list str * gset str :=
  if is_glob field_pattern then
    let matching_fields :=
      filter (fun f => Is_true (fnmatch field_pattern f)) (elements st.2) in
    foldl (fun st matched_field =>
             if bool_decide (matched_field ∈ st.2)
             then (st.1 ++ [matched_field], st.2 ∖ {[ matched_field ]})
             else st)
      st (sorted matching_fields)
  else if bool_decide (field_pattern ∈ st.2)
       then (st.1 ++ [field_pattern], st.2 ∖ {[ field_pattern ]})
       else st.

Definition all_fields (data : list record) : gset str :=
  ⋃ map (fun record : record => dom record) data ∖ {[ L "Source File" ]}.

Definition ordered_fields (data : list record) : list str :=
  let '(ordered_fields, all_fields) :=
    foldl (fun st field_pattern => place_pattern field_pattern st)
      ([], all_fields data) FIELD_ORDER in
  let '(ytd_fields, all_fields) :=
    foldl (fun st field_pattern => place_pattern (field_pattern ++ L " YTD") st)
      ([], all_fields) FIELD_ORDER in
  ordered_fields ++ ytd_fields ++ sorted (elements all_fields).

(** The first row and the row of a field; a cell is the [Optional[str]]
    that the record holds. *)
Definition pay_date_row (data : list record) : list (option str) :=
  Some (L "Pay Date")
  :: map (fun record : record =>
            default (Some (L "Unknown")) (record !! L "Pay Date")) data.

Definition field_row (data : list record) (field : str) : list (option str) :=
  Some field :: map (fun record : record => default (Some []) (record !! field)) data.

(** The list [rows]; [None] is the early [return] on an empty batch. *)
Definition csv_rows (data : list record) : option (list (list (option str))) :=
  match data with
  | [] => None
  | _ =>
      Some (pay_date_row data
            :: map (field_row data)
                 (filter (fun field => field <> L "Pay Date") (ordered_fields data)))
  end.

(** ** The notions the specification uses *)

(** The canonical amount [-?\d+\.\d{2}], and the form the lexer produces,
    [-?\d*\.\d{2}]. *)
Definition amount_re : regex :=
  [opt (Char.is_char "-"); plus Char.isdecimal; one (Char.is_char ".");
   times 2 Char.isdecimal].

Definition lexed_amount_re : regex :=
  [opt (Char.is_char "-"); star Char.isdecimal; one (Char.is_char ".");
   times 2 Char.isdecimal].

(** [re.fullmatch(r, s)] *)
Definition fullmatch (r : regex) (s : str) : bool :=
  bool_decide ([] ∈ re_run r s).

(** The groups of three characters counted from the right. *)
Fixpoint chunks3 (s : str) : list str :=
  match s with
  | a :: b :: c :: rest =>
      match rest with
      | [] => [[a; b; c]]
      | _ :: _ => [a; b; c] :: chunks3 rest
      end
  | [] => []
  | _ => [s]
  end.

Definition groups_of_three (s : str) : list str := rev (map (@rev ascii) (chunks3 (rev s))).

(** The rendering of an amount of [n] cents on a statement: the decimal
    digits of [n], a space before the last two, and a space every three
    digits from the right of what precedes them. *)
Definition render (n : N) : str :=
  let ds := decimal n in
  join (L " ") (groups_of_three (take (length ds - 2) ds) ++ [drop (length ds - 2) ds]).

(** [n / 100] with two decimal places. *)
Definition format_2dp (n : N) : str :=
  decimal (n / 100) ++ L "." ++ [digit_char (n mod 100 / 10); digit_char (n mod 10)].

(** The Amount Lexer of the specification on a rendered token run. *)
Definition lex (s : str) : option str := (extract_amounts_from_line s []).1.

(** * Predicates and examples of the statements *)

(** Text without whitespace, and text of decimal digits. *)
Definition no_space (s : str) : Prop := Forall (fun c => Char.isspace c = false) s.
Definition digits_only (s : str) : Prop := Forall (fun c => Char.isdecimal c = true) s.

(** An element of [s.split()]: a non-empty run without whitespace. *)
Definition token (t : str) : Prop := t <> [] /\ no_space t.

(** In a run of tokens joined by spaces the only whitespace is the space. *)
Definition only_plain_spaces (s : str) : Prop :=
  Forall (fun c => Char.isspace c = true -> c = " "%char) s.

(** A declarative reading of the patterns: [parses r s rest] when [r]
    matches a prefix of [s] and leaves [rest]. *)
Fixpoint parses (r : regex) (s rest : str) : Prop :=
  match r with
  | [] => rest = s
  | Rep cls lo hi :: r' =>
      exists pre mid, s = pre ++ mid /\ forallb cls pre = true /\ lo <= length pre
                      /\ (forall h, hi = Some h -> length pre <= h)
                      /\ parses r' mid rest
  | Dollar :: r' => at_end s = true /\ parses r' s rest
  end.

(** [lexed s sign int frac]: the text [s] is an optional minus sign, digits
    separated by plain spaces that end with the two digits [frac] and are
    [int ++ frac] in all, and an optional asterisk. *)
Definition lexed (s sign int frac : str) : Prop :=
  exists body tail,
    s = sign ++ body ++ tail
    /\ (sign = [] \/ sign = L "-") /\ (tail = [] \/ tail = L "*")
    /\ Forall (fun c => Char.isdecimal c = true \/ c = " "%char) body
    /\ remove_char " " body = int ++ frac
    /\ length frac = 2.

(** The shapes of two, three and four tokens are one pattern with zero, one
    or two middle groups of three digits. *)
Definition grouped (mid : regex) : regex :=
  [opt (Char.is_char "-"); range 1 4 Char.isdecimal] ++ mid ++
  [one Char.isspace; times 2 Char.isdecimal; opt (Char.is_char "*"); Dollar].

Definition group3 : regex := [one Char.isspace; times 3 Char.isdecimal].

Definition body_atom (a : atom) : Prop :=
  (exists lo hi, a = Rep Char.isdecimal lo hi) \/ a = one Char.isspace.

Definition body_text (b : str) : Prop :=
  Forall (fun c => Char.isdecimal c = true \/ c = " "%char) b.

(** An amount as the lexer builds it: [clean_amount] of a text that one of
    the shapes accepts.  [wide] records that the text has a group before
    the two last digits, which every shape of two tokens or more has. *)
Definition lexed_amount (wide : bool) (a : str) : Prop :=
  exists s sign int frac,
    lexed s sign int frac /\ a = clean_amount s /\ (wide = true -> int <> []).

Definition opt_amount (o : option str) : Prop :=
  forall a, o = Some a -> lexed_amount false a.

Definition amounts_dict (d : dict) : Prop :=
  map_Forall (fun _ v => lexed_amount false v) d.

(** A group of [k] digits, and the optional minus sign. *)
Definition group_of (k : nat) (g : str) : Prop := digits_only g /\ length g = k.

Definition sign_text (sign : str) : Prop := sign = [] \/ sign = L "-".

(** The groups of a rendered amount. *)
Definition three_digits (b : N) : str :=
  [digit_char (b / 100)%N; digit_char (b mod 100 / 10)%N; digit_char (b mod 10)%N].

Definition two_digits (c : N) : str := [digit_char (c / 10)%N; digit_char (c mod 10)%N].

(** [record'] agrees with [record] on every key that is not a
    year-to-date key. *)
Definition same_off_ytd (record record' : dict) : Prop :=
  forall key : str, endswith (L " YTD") key = false -> record' !! key = record !! key.

Definition newline : str := ["010"%char].

(** A header line that opens the earnings section, then the line of the
    specification's first scenario. *)
Definition earnings_example : str :=
  L "rate hours this period year to date" ++ newline
  ++ L "Regular 5000 00 80 00 5 000 00 5 000 00".

(** The batch of the specification's sixth scenario. *)
Definition medicare_batch : list dict :=
  [ {[ L "Deductions Medicare Tax YTD" := L "100.00" ]}; ∅ ].

(** An earnings line whose only amount is the two-digit token [50]. *)
Definition bonus_example : str :=
  L "rate hours this period year to date" ++ newline ++ L "Bonus 50".

(** The two stages of [clean_amount]: the text once the separators are
    removed and the ends are stripped, and the insertion of the decimal
    point before the last two digits. *)
Definition cleaned_text (s : str) : str :=
  rstrip_char "010"
    (strip (remove_char "*" (remove_char "," (remove_char " " s)))).

Definition dotted (b : str) : str :=
  if negb (bool_decide (b = [])) && (2 <=? length b) && str_isdigit b
  then take (length b - 2) b ++ L "." ++ drop (length b - 2) b
  else b.

Definition signed_dotted (t : str) : str :=
  match t with
  | [] => []
  | _ => if startswith (L "-") t then L "-" ++ dotted (drop 1 t) else dotted t
  end.

(** A character that [clean_amount] removes wherever it stands. *)
Definition separator (c : ascii) : Prop :=
  c = " "%char \/ c = ","%char \/ c = "*"%char.

(** A label of the earnings table: letters and white space, not empty,
    with no white space at either end, and not one of the two skipped
    names. *)
Definition earnings_label (label : str) : Prop :=
  label <> [] /\ Forall (fun c => Char.islabel c = true) label /\ strip label = label
  /\ label <> L "Net Pay" /\ label <> L "Net Check".

Definition earnings_field (key : str) : Prop :=
  exists label, earnings_label label
                /\ (key = earnings_key label \/ key = earnings_ytd_key label).

(** The scan of the deduction lines from a given state. *)
Definition deductions_scan (lines : list str) (st : dstate) : dstate :=
  foldl (fun st line => deductions_line line st) st lines.

(** Whether a single amount of a label goes to the year-to-date field. *)
Definition single_amount_is_ytd (deduction_name a : str) : bool :=
  bool_decide (deduction_name ∈ always_ytd_when_single)
  || bool_decide (deduction_name ∈ benefit_deductions_that_may_be_ytd_only)
  || (bool_decide (deduction_name = L "Social Security Tax")
      && negb (startswith (L "-") a)).

(** A key of the deductions dictionary that a label occurring in a line of
    [lines] accounts for. *)
Definition deductions_field (lines : list str) (key : str) : Prop :=
  exists name line,
    name ∈ deduction_names /\ line ∈ lines /\ contains name line = true
    /\ (key = deductions_key name \/ key = deductions_ytd_key name).

(** The names under which a benefit is stored: one of the three fixed
    labels, or the words of the line that the glob [Espp *] accepted. *)
Definition benefit_name (name : str) : Prop :=
  name ∈ map L ["Current Match"; "Ytd 401K Match"; "Sick Earned Bal"]%string
  \/ startswith (L "Espp ") name = true.

(** A token of decimal digits. *)
Definition digit_token (t : str) : Prop := t <> [] /\ digits_only t.

(** [record'] keeps every key of [record], and the value of every key
    whose value is not blank. *)
Definition keeps_values (record record' : dict) : Prop :=
  forall key v, record !! key = Some v ->
    exists v', record' !! key = Some v' /\ (strip v <> [] -> v' = v).

(** A value that is present and not blank. *)
Definition filled (o : option str) : Prop :=
  exists w, o = Some w /\ strip w <> [].

(** A batch of two records with two year-to-date fields. *)
Definition two_field_batch : list dict :=
  [ {[ L "Earnings Regular YTD" := L "5000.00";
       L "Deductions Medicare Tax YTD" := L "72.50" ]};
    {[ L "Pay Date" := L "01/31/2024" ]} ].
(** A pattern without [$]. *)
Definition dollar_free (r : regex) : Prop := Forall (fun a => a <> Dollar) r.

(** The keys of [extract_pay_period_dates] and the label each is read
    after. *)
Definition date_labels : list (str * str) :=
  [ (L "Pay Period Beginning", L "Period Beginning:");
    (L "Pay Period Ending", L "Period Ending:");
    (L "Pay Date", L "Pay Date:") ].

Definition date_keys : gset str :=
  {[ L "Pay Period Beginning"; L "Pay Period Ending"; L "Pay Date" ]}.

(** Every key of a dictionary begins with the character [c]. *)
Definition keys_begin {V} (c : ascii) (d : gmap str V) : Prop :=
  forall key, is_Some (d !! key) -> head key = Some c.

(** A page without text: [None], the empty string or white space. *)
Definition blank_page (page_text : option str) : Prop :=
  forall s, page_text = Some s -> Forall (fun c => Char.isspace c = true) s.

(** Pages for the examples: a date, then a page without text, then the
    earnings table. *)
Definition example_pages : list (option str) :=
  [ Some (L "Pay Date: 01/15/2024"); None; Some earnings_example ].

(** A cell of the header row: an empty cell or a date. *)
Definition date_cell (cell : option str) : Prop :=
  cell = None \/ exists d, cell = Some d /\ fullmatch date_re d = true.

(** The record of the example pages. *)
Definition example_record : record :=
  default ∅ (extract_paystub_data (L "/home/jane/stubs/2024-01-15.pdf") example_pages).

Definition example_batch : list record := [example_record; example_record].

(** * Properties *)

(** ** Characters *)

Ltac by_cases_on_char c :=
  destruct c as [[] [] [] [] [] [] [] []]; vm_compute; try tauto; try discriminate;
  try (intuition discriminate); try (intuition congruence).

Lemma is_char_true d c : Char.is_char d c = true <-> c = d.
Proof. unfold Char.is_char. by rewrite bool_decide_eq_true. Qed.

Lemma is_char_false d c : Char.is_char d c = false <-> c <> d.
Proof. unfold Char.is_char. by rewrite bool_decide_eq_false. Qed.

Lemma decimal_not_space c : Char.isdecimal c = true -> Char.isspace c = false.
Proof. by_cases_on_char c. Qed.

Lemma decimal_isdigit c : Char.isdecimal c = true -> Char.isdigit c = true.
Proof. by_cases_on_char c. Qed.

(** A decimal digit is none of the punctuation the lexer looks for. *)
Lemma decimal_not_punct c :
  Char.isdecimal c = true ->
  c <> " "%char /\ c <> ","%char /\ c <> "*"%char /\ c <> "-"%char
  /\ c <> "."%char /\ c <> "010"%char.
Proof. by_cases_on_char c. Qed.

Lemma space_not_punct c :
  Char.isspace c = true ->
  c <> ","%char /\ c <> "*"%char /\ c <> "-"%char /\ c <> "."%char
  /\ Char.isdecimal c = false.
Proof. by_cases_on_char c. Qed.

Lemma digit_char_decimal d : (d < 10)%N -> Char.isdecimal (digit_char d) = true.
Proof.
  intros H. rewrite <- (N2Nat.id d).
  assert (Hn : N.to_nat d < 10) by lia. revert Hn. generalize (N.to_nat d).
  intros n Hn. do 10 (destruct n as [|n]; [reflexivity|]). lia.
Qed.

(** ** Strings *)

Lemma digits_only_no_space s : digits_only s -> no_space s.
Proof. intros H. eapply Forall_impl; [exact H|]. intros c. apply decimal_not_space. Qed.

Lemma digits_only_forallb s : digits_only s <-> forallb Char.isdecimal s = true.
Proof.
  unfold digits_only. rewrite forallb_forall, Forall_forall.
  split; intros H c Hc; apply H; by apply list_elem_of_In.
Qed.

Lemma remove_char_app d s t : remove_char d (s ++ t) = remove_char d s ++ remove_char d t.
Proof.
  induction s as [|c s IH]; [done|]. simpl.
  destruct (Char.is_char d c); simpl; by rewrite IH.
Qed.

Lemma remove_char_id d s : Forall (fun c => c <> d) s -> remove_char d s = s.
Proof.
  induction 1 as [|c s Hc _ IH]; [done|]. simpl.
  apply is_char_false in Hc. by rewrite Hc, IH.
Qed.

Lemma remove_char_single d : remove_char d [d] = [].
Proof. simpl. by rewrite (proj2 (is_char_true d d)). Qed.

Lemma lstrip_id s : no_space s -> lstrip s = s.
Proof. destruct 1 as [|c s Hc _]; [done|]. simpl. by rewrite Hc. Qed.

Lemma strip_id s : no_space s -> strip s = s.
Proof.
  intros H. unfold strip, rstrip. rewrite (lstrip_id s H).
  rewrite lstrip_id; [apply rev_involutive|].
  by apply Forall_rev.
Qed.

Lemma lstrip_char_id d s : Forall (fun c => c <> d) s -> lstrip_char d s = s.
Proof.
  destruct 1 as [|c s Hc _]; [done|]. simpl.
  apply is_char_false in Hc. by rewrite Hc.
Qed.

Lemma rstrip_char_id d s : Forall (fun c => c <> d) s -> rstrip_char d s = s.
Proof.
  intros H. unfold rstrip_char. rewrite lstrip_char_id; [apply rev_involutive|].
  by apply Forall_rev.
Qed.

(** *** [str.split()] and [' '.join] *)

Lemma split_ws_space c s : Char.isspace c = true -> split_ws (c :: s) = split_ws s.
Proof. intros H. simpl. by rewrite H. Qed.

Lemma split_ws_cons2 c c' s :
  Char.isspace c = false -> Char.isspace c' = false ->
  split_ws (c :: c' :: s) =
  match split_ws (c' :: s) with
  | t :: ts => (c :: t) :: ts
  | [] => [[c]]
  end.
Proof.
  intros Hc Hc'.
  change (split_ws (c :: c' :: s)) with
    (if Char.isspace c then split_ws (c' :: s)
     else if Char.isspace c' then [c] :: split_ws (c' :: s)
     else match split_ws (c' :: s) with
          | t :: ts => (c :: t) :: ts
          | [] => [[c]]
          end).
  by rewrite Hc, Hc'.
Qed.

(** A token followed by nothing or by a space is split off whole. *)
Lemma split_ws_token t rest :
  token t ->
  match rest with [] => True | c :: _ => Char.isspace c = true end ->
  split_ws (t ++ rest) = t :: split_ws rest.
Proof.
  intros [Hne Hns] Hrest. induction Hns as [|c t Hc Hns IH]; [done|].
  destruct t as [|c' t].
  - simpl. rewrite Hc. destruct rest as [|r rest]; [done|]. by rewrite Hrest.
  - assert (Hc' : Char.isspace c' = false) by (by inversion Hns).
    change ((c :: c' :: t) ++ rest) with (c :: c' :: (t ++ rest)).
    rewrite split_ws_cons2 by done.
    change (c' :: t ++ rest) with ((c' :: t) ++ rest).
    by rewrite IH.
Qed.

Lemma split_ws_join ts : Forall token ts -> split_ws (join (L " ") ts) = ts.
Proof.
  induction 1 as [|t ts Ht Hts IH]; [done|].
  destruct ts as [|t' ts].
  - simpl. rewrite <- (app_nil_r t) at 1. by rewrite split_ws_token.
  - change (join (L " ") (t :: t' :: ts)) with (t ++ " "%char :: join (L " ") (t' :: ts)).
    rewrite split_ws_token; [|done|done].
    rewrite split_ws_space by done. by rewrite IH.
Qed.

(** Every element of [s.split()] is a token. *)
Lemma split_ws_tokens s : Forall token (split_ws s).
Proof.
  induction s as [|c s IH]; [constructor|].
  simpl. destruct (Char.isspace c) eqn:Hc; [done|].
  destruct s as [|c' s']; [repeat constructor; [done|by rewrite Hc]|].
  destruct (Char.isspace c') eqn:Hc'.
  - constructor; [|done]. split; [done|]. by repeat constructor.
  - destruct (split_ws (c' :: s')) as [|t ts]; [repeat constructor; [done|by rewrite Hc]|].
    inversion IH as [|? ? [Hne Hns] Hts]; subst.
    constructor; [|done]. split; [done|]. by constructor.
Qed.

Lemma join_only_plain_spaces ts : Forall token ts -> only_plain_spaces (join (L " ") ts).
Proof.
  induction 1 as [|t ts [_ Ht] Hts IH]; [constructor|].
  assert (Hplain : only_plain_spaces t).
  { eapply Forall_impl; [exact Ht|]. simpl. intros c -> ?. done. }
  destruct ts as [|t' ts]; [done|].
  change (join (L " ") (t :: t' :: ts)) with (t ++ " "%char :: join (L " ") (t' :: ts)).
  apply Forall_app. split; [done|]. by constructor.
Qed.

Lemma slice_tokens (ts : list str) i j : Forall token ts -> Forall token (slice i j ts).
Proof.
  intros H. unfold slice. apply Forall_take, Forall_drop, H.
Qed.

(** ** Regular expressions: the matcher against a declarative reading *)

Lemma reps_intro cls pre rest lo hi :
  forallb cls pre = true -> lo <= length pre ->
  (forall h, hi = Some h -> length pre <= h) ->
  In rest (reps cls lo hi (pre ++ rest)).
Proof.
  revert lo hi. induction pre as [|c pre IH]; intros lo hi Hcls Hlo Hhi.
  - simpl in Hlo. assert (lo = 0) as -> by lia.
    destruct rest; simpl; [by left|apply in_or_app; right; by left].
  - simpl in Hcls. apply andb_prop in Hcls as [Hc Hpre].
    simpl in Hlo. simpl. rewrite Hc.
    assert (can_repeat hi = true) as ->.
    { destruct hi as [[|h]|]; try done. specialize (Hhi 0 eq_refl). simpl in Hhi. lia. }
    simpl. apply in_or_app. left. apply IH; [done|lia|].
    intros h Hh. destruct hi as [h'|]; [|done].
    simpl in Hh. injection Hh as <-. specialize (Hhi h' eq_refl). simpl in Hhi. lia.
Qed.

Lemma reps_elim cls s rest lo hi :
  In rest (reps cls lo hi s) ->
  exists pre, s = pre ++ rest /\ forallb cls pre = true /\ lo <= length pre
              /\ (forall h, hi = Some h -> length pre <= h).
Proof.
  revert lo hi. induction s as [|c s IH]; intros lo hi Hin.
  - simpl in Hin. destruct (Nat.eqb_spec lo 0) as [->|]; [|done].
    destruct Hin as [<- | []]. exists []. repeat split; [lia|]. intros; simpl; lia.
  - simpl in Hin. apply in_app_or in Hin as [Hin|Hin].
    + destruct (cls c) eqn:Hc; [|done]. destruct (can_repeat hi) eqn:Hr; [|done].
      simpl in Hin. apply IH in Hin as (pre & -> & Hpre & Hlo & Hhi).
      exists (c :: pre). repeat split.
      * simpl. by rewrite Hc.
      * simpl. lia.
      * intros h ->. simpl. destruct h as [|h]; [done|].
        specialize (Hhi h eq_refl). lia.
    + destruct (Nat.eqb_spec lo 0) as [->|]; [|done].
      destruct Hin as [<- | []]. exists []. repeat split; [lia|]. intros; simpl; lia.
Qed.

(** The matcher finds exactly the remainders of the declarative reading. *)
Lemma re_run_parses r s rest : In rest (re_run r s) <-> parses r s rest.
Proof.
  revert s. induction r as [|[cls lo hi|] r IH]; intros s; simpl.
  - split; [by intros [-> | []]|intros ->; by left].
  - rewrite in_flat_map. split.
    + intros (mid & Hmid & Hrest). apply reps_elim in Hmid as (pre & -> & ? & ? & ?).
      exists pre, mid. by rewrite <- IH.
    + intros (pre & mid & -> & ? & ? & ? & Hrest). exists mid.
      split; [by apply reps_intro|by apply IH].
  - destruct (at_end s); rewrite <- ?IH; [tauto|]. split; [done|]. by intros [? _].
Qed.

Lemma matches_true r s : matches r s = true <-> exists rest, parses r s rest.
Proof.
  unfold matches, re_match. rewrite bool_decide_eq_true. split.
  - destruct (re_run r s) as [|rest l] eqn:E; [by intros [? ?]|].
    intros _. exists rest. apply re_run_parses. rewrite E. by left.
  - intros [rest H]. apply re_run_parses in H.
    destruct (re_run r s); [done|]. by eexists.
Qed.

Lemma fullmatch_true r s : fullmatch r s = true <-> parses r s [].
Proof.
  unfold fullmatch. by rewrite bool_decide_eq_true, list_elem_of_In, re_run_parses.
Qed.

Lemma parses_rep_intro cls lo hi r pre mid rest :
  forallb cls pre = true -> lo <= length pre ->
  (forall h, hi = Some h -> length pre <= h) ->
  parses r mid rest -> parses (Rep cls lo hi :: r) (pre ++ mid) rest.
Proof. intros. simpl. by exists pre, mid. Qed.

(** An optional character is absent or present once. *)
Lemma opt_char_cases d (pre : str) :
  forallb (Char.is_char d) pre = true -> (forall h, Some 1 = Some h -> length pre <= h) ->
  pre = [] \/ pre = [d].
Proof.
  intros H Hlen. specialize (Hlen 1 eq_refl).
  destruct pre as [|c [|c' pre]]; [by left| |simpl in Hlen; lia].
  right. simpl in H. rewrite andb_true_r in H. apply is_char_true in H. by subst.
Qed.

Lemma one_char_cases cls (pre : str) :
  forallb cls pre = true -> 1 <= length pre ->
  (forall h, Some 1 = Some h -> length pre <= h) ->
  exists c, pre = [c] /\ cls c = true.
Proof.
  intros H Hlo Hhi. specialize (Hhi 1 eq_refl).
  destruct pre as [|c [|c' pre]]; simpl in *; [lia| |lia].
  exists c. split; [done|]. by rewrite andb_true_r in H.
Qed.

Lemma at_end_plain s :
  at_end s = true -> only_plain_spaces s -> s = [].
Proof.
  unfold at_end. rewrite orb_true_iff, !bool_decide_eq_true.
  intros [-> | ->] H; [done|]. inversion H as [|? ? Hc _]; subst.
  by specialize (Hc eq_refl).
Qed.

(** ** [clean_amount] on what the shapes accept *)

Lemma remove_char_subset d s : Forall (fun c => c ∈ s) (remove_char d s).
Proof.
  induction s as [|c s IH]; [constructor|]. simpl.
  destruct (Char.is_char d c) eqn:E.
  - eapply Forall_impl; [exact IH|]. intros x Hx. by right.
  - constructor; [by left|]. eapply Forall_impl; [exact IH|]. intros x Hx. by right.
Qed.

Lemma remove_char_absent d s : Forall (fun c => c <> d) (remove_char d s).
Proof.
  induction s as [|c s IH]; [constructor|]. simpl.
  destruct (Char.is_char d c) eqn:E; [done|].
  constructor; [|done]. by apply is_char_false.
Qed.

Lemma lexed_digits s sign int frac :
  lexed s sign int frac -> digits_only (int ++ frac).
Proof.
  intros (body & tail & _ & _ & _ & Hbody & Hrm & _).
  rewrite <- Hrm. apply Forall_forall. intros c Hc.
  pose proof (remove_char_subset " " body) as Hsub.
  pose proof (remove_char_absent " " body) as Habs.
  rewrite Forall_forall in Hsub, Habs, Hbody.
  destruct (Hbody c (Hsub c Hc)) as [? | ->]; [done|]. by destruct (Habs _ Hc).
Qed.

Lemma clean_amount_lexed s sign int frac :
  lexed s sign int frac -> clean_amount s = sign ++ int ++ L "." ++ frac.
Proof.
  intros Hlex. pose proof (lexed_digits _ _ _ _ Hlex) as Hdig.
  destruct Hlex as (body & tail & -> & Hsign & Htail & Hbody & Hrm & Hfrac).
  assert (Hsplit : take (length (int ++ frac) - 2) (int ++ frac) ++ L "."
                   ++ drop (length (int ++ frac) - 2) (int ++ frac)
                   = int ++ L "." ++ frac).
  { replace (length (int ++ frac) - 2) with (length int) by (rewrite length_app; lia).
    by rewrite take_app_length, drop_app_length. }
  assert (Hlen : 2 <= length (int ++ frac)) by (rewrite length_app; lia).
  revert Hsplit Hlen Hdig Hrm. generalize (int ++ frac). intros D Hsplit Hlen Hdig Hrm.
  assert (HD : Forall (fun c => c <> " "%char /\ c <> ","%char /\ c <> "*"%char
                          /\ c <> "-"%char /\ c <> "."%char /\ c <> "010"%char) D).
  { eapply Forall_impl; [exact Hdig|]. apply decimal_not_punct. }
  assert (Hrm3 : remove_char "*" (remove_char "," (remove_char " " (sign ++ body ++ tail)))
                 = sign ++ D).
  { rewrite !remove_char_app, Hrm.
    assert (remove_char "*" (remove_char "," (remove_char " " sign)) = sign) as ->
      by (by destruct Hsign as [-> | ->]).
    assert (remove_char "*" (remove_char "," (remove_char " " tail)) = []) as ->
      by (by destruct Htail as [-> | ->]).
    rewrite (remove_char_id "," D) by (eapply Forall_impl; [exact HD|]; tauto).
    rewrite (remove_char_id "*" D) by (eapply Forall_impl; [exact HD|]; tauto).
    by rewrite app_nil_r. }
  unfold clean_amount. rewrite Hrm3.
  assert (Hns : no_space (sign ++ D)).
  { apply Forall_app. split; [|by apply digits_only_no_space].
    destruct Hsign as [-> | ->]; by repeat constructor. }
  rewrite (strip_id _ Hns).
  rewrite rstrip_char_id.
  2:{ apply Forall_app. split; [|eapply Forall_impl; [exact HD|]; tauto].
      destruct Hsign as [-> | ->]; by repeat constructor. }
  assert (Hfinish :
    (if negb (bool_decide (D = [])) && (2 <=? length D) && str_isdigit D
     then take (length D - 2) D ++ L "." ++ drop (length D - 2) D else D)
    = int ++ L "." ++ frac).
  { assert (D <> []) by (intros E; rewrite E in Hlen; simpl in Hlen; lia).
    rewrite bool_decide_eq_false_2 by done.
    assert (Hle : (2 <=? length D) = true) by (apply Nat.leb_le; lia).
    rewrite Hle.
    unfold str_isdigit. rewrite bool_decide_eq_false_2 by done.
    assert (forallb Char.isdigit D = true) as ->; [|exact Hsplit].
    apply forallb_forall. intros c Hc. apply decimal_isdigit.
    eapply Forall_forall in Hdig; [exact Hdig|]. by apply list_elem_of_In. }
  destruct D as [|c D']; [simpl in Hlen; lia|].
  assert (Hminus : bool_decide ("-"%char = c) = false).
  { apply bool_decide_eq_false_2. inversion HD as [|? ? (_ & _ & _ & Hm & _) _]; subst.
    congruence. }
  destruct Hsign as [-> | ->].
  - change ([] ++ c :: D') with (c :: D'). cbv beta iota zeta.
    change (startswith (L "-") (c :: D')) with (bool_decide ("-"%char = c) && true).
    rewrite Hminus. change (false && true) with false. cbv beta iota zeta.
    exact Hfinish.
  - change (L "-" ++ c :: D') with ("-"%char :: c :: D'). cbv beta iota zeta.
    change (startswith (L "-") ("-"%char :: c :: D'))
      with (bool_decide ("-"%char = "-"%char) && true).
    rewrite bool_decide_eq_true_2 by done. change (true && true) with true.
    cbv beta iota zeta. change (drop 1 ("-"%char :: c :: D')) with (c :: D').
    by rewrite Hfinish.
Qed.

Lemma lexed_nonempty s sign int frac :
  lexed s sign int frac -> clean_amount s <> [].
Proof.
  intros H. rewrite (clean_amount_lexed _ _ _ _ H).
  destruct sign, int; discriminate.
Qed.

(** ** The four shapes *)

Lemma shape2_grouped : shape2 = grouped [].
Proof. reflexivity. Qed.
Lemma shape3_grouped : shape3 = grouped group3.
Proof. reflexivity. Qed.
Lemma shape4_grouped : shape4 = grouped (group3 ++ group3).
Proof. reflexivity. Qed.

Lemma only_plain_spaces_app s t :
  only_plain_spaces (s ++ t) -> only_plain_spaces s /\ only_plain_spaces t.
Proof. apply Forall_app. Qed.

Lemma digits_body_text (d : str) : forallb Char.isdecimal d = true -> body_text d.
Proof.
  intros H. apply digits_only_forallb in H.
  eapply Forall_impl; [exact H|]. by left.
Qed.

Lemma spaces_body_text (w : str) :
  forallb Char.isspace w = true -> only_plain_spaces w -> body_text w.
Proof.
  intros H Hp. apply Forall_forall. intros c Hc. right.
  eapply Forall_forall in Hp; [apply Hp|exact Hc].
  eapply forallb_forall in H; [exact H|]. by apply list_elem_of_In.
Qed.

(** The middle groups match a text of digits and plain spaces. *)
Lemma body_parses mid tailr s rest :
  Forall body_atom mid -> parses (mid ++ tailr) s rest -> only_plain_spaces s ->
  exists b t, s = b ++ t /\ body_text b /\ parses tailr t rest.
Proof.
  intros Hmid. revert s. induction Hmid as [|a mid Ha _ IH]; intros s Hp Hs.
  - exists [], s. repeat split; [constructor|done].
  - destruct Ha as [(lo & hi & ->)| ->]; simpl in Hp;
      destruct Hp as (pre & m & -> & Hpre & _ & _ & Hp);
      apply only_plain_spaces_app in Hs as [Hs1 Hs2];
      destruct (IH _ Hp Hs2) as (b & t & -> & Hb & Ht);
      exists (pre ++ b), t; rewrite app_assoc; (split; [done|]); (split; [|done]);
      apply Forall_app; (split; [|done]).
    + by apply digits_body_text.
    + by apply spaces_body_text.
Qed.

Lemma grouped_lexed mid s :
  Forall body_atom mid -> matches (grouped mid) s = true -> only_plain_spaces s ->
  exists sign int frac, lexed s sign int frac /\ int <> [].
Proof.
  intros Hmid Hm Hs. apply matches_true in Hm as [rest Hp].
  unfold grouped in Hp. cbn [app parses opt range] in Hp.
  destruct Hp as (sign & s1 & -> & Hsign & _ & Hsign1 & d1 & s2 & -> & Hd1 & Hd1len & _ & Hp).
  apply only_plain_spaces_app in Hs as [_ Hs].
  apply only_plain_spaces_app in Hs as [_ Hs].
  apply body_parses in Hp as (b & s3 & -> & Hb & Hp); [|done|done].
  apply only_plain_spaces_app in Hs as [_ Hs].
  cbn [parses one times opt] in Hp.
  destruct Hp as (w & s4 & -> & Hw & Hw1 & Hw2 & frac & s5 & -> & Hfrac & Hf1 & Hf2
                  & tail & s6 & -> & Htail & _ & Htail1 & Hend & ->).
  apply only_plain_spaces_app in Hs as [Hsw Hs].
  apply only_plain_spaces_app in Hs as [_ Hs].
  apply only_plain_spaces_app in Hs as [_ Hs].
  apply at_end_plain in Hend as ->; [|done].
  destruct (one_char_cases _ _ Hw Hw1 Hw2) as (c & -> & Hc).
  assert (c = " "%char) as -> by (inversion Hsw; subst; auto).
  exists sign, (d1 ++ remove_char " " b), frac. split.
  - exists (d1 ++ b ++ [" "%char] ++ frac), tail. repeat split.
    + by rewrite app_nil_r, <- !app_assoc.
    + destruct (opt_char_cases _ _ Hsign Hsign1) as [-> | ->]; auto.
    + destruct (opt_char_cases _ _ Htail Htail1) as [-> | ->]; auto.
    + unfold body_text in *. rewrite !Forall_app. repeat split; try done.
      * by apply digits_body_text.
      * by repeat constructor.
      * by apply digits_body_text.
    + rewrite !remove_char_app, remove_char_single, app_nil_l, <- app_assoc.
      f_equal; [|f_equal]; apply remove_char_id;
        (eapply Forall_impl; [apply digits_only_forallb; eassumption|]);
        intros x Hx; apply decimal_not_punct, Hx.
    + specialize (Hf2 2 eq_refl). lia.
  - destruct d1; [simpl in Hd1len; lia|done].
Qed.

Lemma shape1_lexed s :
  matches shape1 s = true -> only_plain_spaces s ->
  exists sign frac, lexed s sign [] frac.
Proof.
  intros Hm Hs. apply matches_true in Hm as [rest Hp].
  cbn [shape1 parses opt times] in Hp.
  destruct Hp as (sign & s1 & -> & Hsign & _ & Hsign1 & frac & s2 & -> & Hfrac & Hf1 & Hf2
                  & tail & s3 & -> & Htail & _ & Htail1 & Hend & ->).
  apply only_plain_spaces_app in Hs as [_ Hs].
  apply only_plain_spaces_app in Hs as [_ Hs].
  apply only_plain_spaces_app in Hs as [_ Hs].
  apply at_end_plain in Hend as ->; [|done].
  exists sign, frac, frac, tail. repeat split.
  - by rewrite app_nil_r.
  - destruct (opt_char_cases _ _ Hsign Hsign1) as [-> | ->]; auto.
  - destruct (opt_char_cases _ _ Htail Htail1) as [-> | ->]; auto.
  - by apply digits_body_text.
  - apply remove_char_id.
    eapply Forall_impl; [apply digits_only_forallb; eassumption|].
    intros x Hx. apply decimal_not_punct, Hx.
  - specialize (Hf2 2 eq_refl). lia.
Qed.

(** The amounts the lexer produces. *)
Lemma lexed_amount_format s sign int frac :
  lexed s sign int frac ->
  fullmatch lexed_amount_re (clean_amount s) = true
  /\ (int <> [] -> fullmatch amount_re (clean_amount s) = true).
Proof.
  intros Hlex. rewrite (clean_amount_lexed _ _ _ _ Hlex).
  pose proof (lexed_digits _ _ _ _ Hlex) as Hdig.
  apply Forall_app in Hdig as [Hint Hfrac].
  apply digits_only_forallb in Hint, Hfrac.
  destruct Hlex as (_ & _ & _ & Hsign & _ & _ & _ & Hlen).
  assert (Hs : forallb (Char.is_char "-") sign = true /\ length sign <= 1)
    by (destruct Hsign as [-> | ->]; split; simpl; done || lia).
  destruct Hs as [Hs1 Hs2].
  assert (Htail : parses [one (Char.is_char "."); times 2 Char.isdecimal]
                    (L "." ++ frac ++ []) []).
  { apply parses_rep_intro; [done|simpl; lia|by intros ? [= <-]|].
    apply parses_rep_intro; [done|lia|intros ? [= <-]; lia|done]. }
  rewrite app_nil_r in Htail.
  split; [|intros Hne]; apply fullmatch_true;
    (apply parses_rep_intro; [done|lia|by intros ? [= <-]|]);
    (apply parses_rep_intro; [done| |done|exact Htail]).
  - lia.
  - destruct int; [done|simpl; lia].
Qed.

(** ** What the amount extractors return *)

Lemma lexed_amount_weaken wide a : lexed_amount wide a -> lexed_amount false a.
Proof. intros (s & sign & int & frac & ? & ? & _). by exists s, sign, int, frac. Qed.

Lemma lexed_amount_ok wide a :
  lexed_amount wide a ->
  fullmatch lexed_amount_re a = true
  /\ (wide = true -> fullmatch amount_re a = true)
  /\ a <> [].
Proof.
  intros (s & sign & int & frac & Hlex & -> & Hwide).
  destruct (lexed_amount_format _ _ _ _ Hlex) as [H1 H2].
  split; [done|]. split; [auto|]. by eapply lexed_nonempty.
Qed.

Lemma token_only_plain_spaces t : token t -> only_plain_spaces t.
Proof.
  intros [_ H]. eapply Forall_impl; [exact H|]. simpl. by intros c ->.
Qed.

Lemma lookup_token_plain (tokens : list str) idx :
  Forall token tokens -> only_plain_spaces (default [] (tokens !! idx)).
Proof.
  intros H. destruct (tokens !! idx) as [t|] eqn:E; [|constructor].
  apply token_only_plain_spaces. eapply Forall_lookup_1; eauto.
Qed.

Lemma grouped_amount mid ts :
  Forall body_atom mid -> Forall token ts ->
  matches (grouped mid) (join (L " ") ts) = true ->
  lexed_amount true (clean_amount (join (L " ") ts)).
Proof.
  intros Hmid Hts Hm.
  destruct (grouped_lexed mid _ Hmid Hm (join_only_plain_spaces _ Hts))
    as (sign & int & frac & Hlex & Hne).
  by exists (join (L " ") ts), sign, int, frac.
Qed.

Lemma shape1_amount t :
  only_plain_spaces t -> matches shape1 t = true -> lexed_amount false (clean_amount t).
Proof.
  intros Ht Hm. destruct (shape1_lexed _ Hm Ht) as (sign & frac & Hlex).
  by exists t, sign, [], frac.
Qed.

Lemma group3_atoms : Forall body_atom group3.
Proof.
  constructor; [by right|]. constructor; [left; by eexists _, _|constructor].
Qed.

Lemma group33_atoms : Forall body_atom (group3 ++ group3).
Proof. apply Forall_app; split; apply group3_atoms. Qed.

(** The cascade yields a lexed amount, and one with an integer part when
    it spans two tokens or more. *)
Lemma amount_at_lexed tokens idx a k :
  Forall token tokens -> amount_at tokens idx = Some (a, k) ->
  lexed_amount (2 <=? k) a /\ 1 <= k <= 4.
Proof.
  intros Hts. unfold amount_at.
  destruct (negb (idx <? length tokens)); [done|].
  destruct (_ && matches shape4 _) eqn:E4.
  { intros [= <- <-]. apply andb_prop in E4 as [_ E4]. split; [|lia].
    rewrite shape4_grouped in E4.
    apply (grouped_amount _ _ group33_atoms (slice_tokens _ _ _ Hts) E4). }
  destruct (_ && matches shape3 _) eqn:E3.
  { intros [= <- <-]. apply andb_prop in E3 as [_ E3]. split; [|lia].
    rewrite shape3_grouped in E3.
    apply (grouped_amount _ _ group3_atoms (slice_tokens _ _ _ Hts) E3). }
  destruct (_ && matches shape2 _) eqn:E2.
  { intros [= <- <-]. apply andb_prop in E2 as [_ E2]. split; [|lia].
    rewrite shape2_grouped in E2.
    apply (grouped_amount _ _ (List.Forall_nil body_atom) (slice_tokens _ _ _ Hts) E2). }
  destruct (matches shape1 _) eqn:E1; [|done].
  intros [= <- <-]. split; [|lia].
  apply shape1_amount; [by apply lookup_token_plain|done].
Qed.

Lemma try_extract_at_lexed tokens idx a :
  Forall token tokens -> try_extract_at tokens idx = Some a -> lexed_amount false a.
Proof.
  intros Hts. unfold try_extract_at.
  destruct (amount_at tokens idx) as [[a' k]|] eqn:E; [|done].
  intros [= <-]. eapply lexed_amount_weaken, amount_at_lexed; eauto.
Qed.

Lemma first_amount_loop_lexed fuel tokens idx a e :
  Forall token tokens -> first_amount_loop fuel tokens idx = Some (a, e) ->
  lexed_amount false a.
Proof.
  intros Hts. revert idx. induction fuel as [|fuel IH]; intros idx; [done|].
  simpl. destruct (negb (idx <? length tokens)); [done|].
  destruct (amount_at tokens idx) as [[a' k]|] eqn:E; [|apply IH].
  intros [= <- <-]. eapply lexed_amount_weaken, amount_at_lexed; eauto.
Qed.

Lemma extract_amounts_from_line_lexed line description :
  opt_amount (extract_amounts_from_line line description).1
  /\ opt_amount (extract_amounts_from_line line description).2.
Proof.
  unfold extract_amounts_from_line, extract_amounts_from_tokens.
  pose proof (split_ws_tokens (remainder_after line description)) as Hts.
  destruct (split_ws _) as [|t ts] eqn:E; [by split|].
  unfold first_amount.
  destruct (first_amount_loop _ _ _) as [[a e]|] eqn:E1; [|by split].
  split; simpl.
  - intros ? [= <-]. eapply first_amount_loop_lexed; eauto.
  - intros ? Hy. eapply try_extract_at_lexed; eauto.
Qed.

Lemma extract_first_amount_from_line_lexed line description :
  opt_amount (extract_first_amount_from_line line description).
Proof.
  unfold extract_first_amount_from_line.
  pose proof (split_ws_tokens (remainder_after line description)) as Hts.
  set (tokens := split_ws _) in *. clearbody tokens.
  match goal with
  | |- opt_amount (match _ with [] => None | _ :: _ => ?X end) =>
      assert (H : opt_amount X); [|by destruct tokens]
  end.
  destruct (_ && matches shape3 _) eqn:E3.
  { intros ? [= <-]. apply andb_prop in E3 as [_ E3].
    rewrite shape3_grouped in E3. eapply lexed_amount_weaken.
    apply (grouped_amount _ _ group3_atoms); [by apply Forall_take|done]. }
  destruct (_ && matches shape2 _) eqn:E2.
  { intros ? [= <-]. apply andb_prop in E2 as [_ E2].
    rewrite shape2_grouped in E2. eapply lexed_amount_weaken.
    apply (grouped_amount _ _ (List.Forall_nil body_atom)); [by apply Forall_take|done]. }
  destruct (_ && matches shape1 _) eqn:E1; [|done].
  intros ? [= <-]. apply andb_prop in E1 as [_ E1].
  apply shape1_amount; [by apply lookup_token_plain|done].
Qed.

Lemma collect_amounts_lexed fuel tokens idx n amounts :
  Forall token tokens -> Forall (lexed_amount false) amounts ->
  Forall (lexed_amount false) (collect_amounts fuel tokens idx n amounts).
Proof.
  intros Hts. revert idx n amounts.
  induction fuel as [|fuel IH]; intros idx n amounts Ham; [done|].
  simpl. destruct (negb (idx <? length tokens)); [done|].
  destruct (amount_at tokens idx) as [[a k]|] eqn:E.
  - apply IH, Forall_app. split; [done|]. constructor; [|done].
    eapply lexed_amount_weaken, amount_at_lexed; eauto.
  - destruct n; [by apply IH|done].
Qed.

(** *** The loops terminate within their fuel

    Both loops stop once [idx] reaches the number of tokens and advance
    [idx] in every other iteration, so any fuel of at least
    [length tokens - idx] gives the same result. *)

Lemma amount_at_span tokens idx a k : amount_at tokens idx = Some (a, k) -> 1 <= k <= 4.
Proof.
  unfold amount_at. repeat case_match; intros [= <- <-] || done; lia.
Qed.

Lemma first_amount_loop_fuel f1 f2 tokens idx :
  length tokens - idx <= f1 -> length tokens - idx <= f2 ->
  first_amount_loop f1 tokens idx = first_amount_loop f2 tokens idx.
Proof.
  revert f2 idx. induction f1 as [|f1 IH]; intros f2 idx H1 H2.
  - destruct f2 as [|f2]; [done|]. simpl.
    assert (Hge : (idx <? length tokens) = false) by (apply Nat.ltb_ge; lia).
    by rewrite Hge.
  - destruct f2 as [|f2]; simpl.
    + assert (Hge : (idx <? length tokens) = false) by (apply Nat.ltb_ge; lia).
      by rewrite Hge.
    + destruct (idx <? length tokens) eqn:E; [|done]. apply Nat.ltb_lt in E. simpl.
      destruct (amount_at tokens idx) as [[a k]|]; [done|]. apply IH; lia.
Qed.

Lemma collect_amounts_fuel f1 f2 tokens idx n amounts :
  length tokens - idx <= f1 -> length tokens - idx <= f2 ->
  collect_amounts f1 tokens idx n amounts = collect_amounts f2 tokens idx n amounts.
Proof.
  revert f2 idx n amounts. induction f1 as [|f1 IH]; intros f2 idx n amounts H1 H2.
  - destruct f2 as [|f2]; [done|]. simpl.
    assert (Hge : (idx <? length tokens) = false) by (apply Nat.ltb_ge; lia).
    by rewrite Hge.
  - destruct f2 as [|f2]; simpl.
    + assert (Hge : (idx <? length tokens) = false) by (apply Nat.ltb_ge; lia).
      by rewrite Hge.
    + destruct (idx <? length tokens) eqn:E; [|done]. apply Nat.ltb_lt in E. simpl.
      destruct (amount_at tokens idx) as [[a k]|] eqn:Ea.
      * apply amount_at_span in Ea. apply IH; lia.
      * destruct n; [|done]. apply IH; lia.
Qed.

(** ** What the section parsers store *)

Lemma amounts_dict_empty : amounts_dict ∅.
Proof. apply map_Forall_empty. Qed.

Lemma amounts_dict_insert (k v : str) (d : dict) :
  lexed_amount false v -> amounts_dict d -> amounts_dict (<[k := v]> d).
Proof. intros. by apply map_Forall_insert_2. Qed.

Lemma amounts_dict_insert_opt (k : str) (o : option str) (d : dict) :
  opt_amount o -> amounts_dict d ->
  amounts_dict (if truthy o then <[k := default [] o]> d else d).
Proof.
  intros Ho Hd. destruct o as [[|c v]|]; simpl; try done.
  apply amounts_dict_insert; [by apply Ho|done].
Qed.

Lemma assign_earnings_amounts description amounts earnings :
  Forall (lexed_amount false) amounts -> amounts_dict earnings ->
  amounts_dict (assign_earnings description amounts earnings).
Proof.
  intros Ha He. unfold assign_earnings.
  destruct amounts as [|a [|b [|c [|d rest]]]]; simpl; try done;
    repeat match goal with
           | H : Forall _ (_ :: _) |- _ => inversion H; clear H; subst
           end;
    by repeat apply amounts_dict_insert.
Qed.

Lemma earnings_line_amounts line earnings earnings' :
  amounts_dict earnings -> earnings_line line earnings = Some earnings' ->
  amounts_dict earnings'.
Proof.
  intros He. unfold earnings_line.
  destruct (re_match label_re line) as [g|]; [|by intros [= <-]].
  destruct (bool_decide _); [by intros [= <-]|].
  destruct (if contains _ _ then _ else _) as [remainder|]; [|done].
  simpl. intros [= <-]. apply assign_earnings_amounts; [|done].
  apply collect_amounts_lexed; [apply split_ws_tokens|constructor].
Qed.

Lemma earnings_loop_amounts lines in_earnings earnings earnings' :
  amounts_dict earnings -> earnings_loop lines in_earnings earnings = Some earnings' ->
  amounts_dict earnings'.
Proof.
  revert in_earnings earnings.
  induction lines as [|line rest IH]; intros in_earnings earnings He; simpl.
  - by intros [= <-].
  - destruct (earnings_header line); [by apply IH|].
    destruct (in_earnings && earnings_end line); [by intros [= <-]|].
    destruct (in_earnings && negb _); [|by apply IH].
    destruct (earnings_line line earnings) as [e1|] eqn:E; [|done].
    simpl. apply IH. by eapply earnings_line_amounts.
Qed.

Lemma route_amounts_lexed name st amounts :
  opt_amount amounts.1 -> opt_amount amounts.2 ->
  opt_amount (route_amounts name st amounts).1
  /\ opt_amount (route_amounts name st amounts).2.
Proof.
  destruct amounts as [this_period ytd]. simpl. intros H1 H2.
  assert (H0 : opt_amount None) by done.
  unfold route_amounts.
  repeat match goal with
         | |- context [if ?b then _ else _] => destruct b
         end; simpl; by split.
Qed.

Lemma process_match_amounts line name st :
  amounts_dict (deductions st) -> amounts_dict (deductions (process_match line name st)).
Proof.
  intros Hd. unfold process_match.
  destruct (_ || _); [done|].
  pose proof (extract_amounts_from_line_lexed line name) as [H1 H2].
  pose proof (route_amounts_lexed name st _ H1 H2) as [H3 H4].
  destruct (route_amounts _ _ _) as [this_period ytd]. simpl in *.
  by repeat apply amounts_dict_insert_opt.
Qed.

Lemma foldl_invariant {A B} (P : A -> Prop) (f : A -> B -> A) l a :
  (forall a b, P a -> P (f a b)) -> P a -> P (foldl f a l).
Proof. intros Hf. revert a. induction l; simpl; auto. Qed.

Lemma deductions_line_amounts line st :
  amounts_dict (deductions st) -> amounts_dict (deductions (deductions_line line st)).
Proof.
  intros Hd. unfold deductions_line.
  apply (foldl_invariant (fun st => amounts_dict (deductions st))).
  - intros. by apply process_match_amounts.
  - by destruct (_ || _).
Qed.

Lemma benefits_line_amounts patterns line benefits :
  amounts_dict benefits -> amounts_dict (benefits_line patterns line benefits).
Proof.
  intros Hb. induction patterns as [|p rest IH]; simpl; [done|].
  destruct (truthy (matched_name p line)); [|done].
  apply amounts_dict_insert_opt; [|done].
  apply extract_first_amount_from_line_lexed.
Qed.

(** ** Decimal numerals *)

Section Decimal.
Local Open Scope N_scope.

Lemma digits_le_zero fuel : digits_le fuel 0 = [].
Proof. by destruct fuel. Qed.

(** Any fuel that covers the number gives the same digits. *)
Lemma digits_le_fuel f1 f2 n :
  n < 10 ^ N.of_nat f1 -> n < 10 ^ N.of_nat f2 -> digits_le f1 n = digits_le f2 n.
Proof.
  revert f2 n. induction f1 as [|f1 IH]; intros f2 n H1 H2.
  - change (10 ^ N.of_nat 0) with 1 in H1. assert (n = 0) as -> by lia.
    by rewrite (digits_le_zero f2).
  - destruct (N.eqb_spec n 0) as [->|Hn]; [by rewrite !digits_le_zero|].
    destruct f2 as [|f2]; [change (10 ^ N.of_nat 0) with 1 in H2; lia|].
    simpl. destruct (N.eqb_spec n 0) as [|_]; [done|]. f_equal.
    rewrite Nat2N.inj_succ, N.pow_succ_r' in H1, H2.
    apply IH; apply N.Div0.div_lt_upper_bound; lia.
Qed.

Lemma decimal_fuel n : n < 10 ^ N.of_nat (S (N.to_nat (N.log2 n))).
Proof.
  destruct (N.eqb_spec n 0) as [->|Hn]; [done|].
  rewrite Nat2N.inj_succ, N2Nat.id.
  apply N.lt_le_trans with (2 ^ N.succ (N.log2 n)).
  - apply N.log2_spec. lia.
  - apply N.pow_le_mono_l. lia.
Qed.

Lemma decimal_pos fuel n :
  n <> 0 -> n < 10 ^ N.of_nat fuel ->
  decimal n = rev (map digit_char (digits_le fuel n)).
Proof.
  intros Hn Hf. unfold decimal. destruct (N.eqb_spec n 0) as [|_]; [done|].
  do 2 f_equal. apply digits_le_fuel; [apply decimal_fuel|done].
Qed.

Lemma decimal_digit r : r < 10 -> decimal r = [digit_char r].
Proof.
  intros Hr. destruct (N.eqb_spec r 0) as [->|Hn]; [done|].
  rewrite (decimal_pos 1) by (simpl; lia). simpl.
  destruct (N.eqb_spec r 0) as [|_]; [done|]. simpl.
  by rewrite N.mod_small.
Qed.

Lemma mod10_last q r : r < 10 -> (10 * q + r) mod 10 = r.
Proof.
  intros. rewrite N.add_comm, N.mul_comm, N.Div0.mod_add. by apply N.mod_small.
Qed.

Lemma div10_last q r : r < 10 -> (10 * q + r) / 10 = q.
Proof.
  intros. rewrite N.mul_comm, N.div_add_l by lia. rewrite N.div_small by lia. lia.
Qed.

(** The last digit. *)
Lemma decimal_step q r :
  0 < q -> r < 10 -> decimal (10 * q + r) = decimal q ++ [digit_char r].
Proof.
  intros Hq Hr.
  pose proof (decimal_fuel q) as Hf. revert Hf.
  generalize (S (N.to_nat (N.log2 q))). intros f Hf.
  rewrite (decimal_pos (S f)), (decimal_pos f q); [|lia|done|lia|].
  - simpl. destruct (N.eqb_spec (10 * q + r) 0) as [|_]; [lia|].
    by rewrite mod10_last, div10_last.
  - rewrite Nat2N.inj_succ, N.pow_succ_r'. lia.
Qed.

Lemma decimal_cents d c :
  0 < d -> c < 100 ->
  decimal (100 * d + c) = decimal d ++ [digit_char (c / 10); digit_char (c mod 10)].
Proof.
  intros Hd Hc.
  replace (100 * d + c) with (10 * (10 * d + c / 10) + c mod 10)
    by (pose proof (N.div_mod c 10 ltac:(lia)); lia).
  rewrite decimal_step; [|apply N.add_pos_l; lia|by apply N.mod_lt].
  rewrite decimal_step; [|lia|apply N.Div0.div_lt_upper_bound; lia].
  by rewrite <- app_assoc.
Qed.

Lemma decimal_thousands a b :
  0 < a -> b < 1000 ->
  decimal (1000 * a + b)
  = decimal a ++ [digit_char (b / 100); digit_char (b mod 100 / 10); digit_char (b mod 10)].
Proof.
  intros Ha Hb.
  replace (1000 * a + b) with (100 * (10 * a + b / 100) + b mod 100)
    by (pose proof (N.div_mod b 100 ltac:(lia)); lia).
  rewrite decimal_cents; [|apply N.add_pos_l; lia|by apply N.mod_lt].
  rewrite decimal_step; [|lia|apply N.Div0.div_lt_upper_bound; lia].
  rewrite <- app_assoc. do 4 f_equal.
  change 100 with (10 * 10). rewrite N.Div0.mod_mul_r, N.add_comm.
  f_equal. apply mod10_last. by apply N.mod_lt.
Qed.

Lemma decimal_digits_only n : digits_only (decimal n).
Proof.
  unfold decimal. destruct (n =? 0); [by repeat constructor|].
  apply Forall_rev, Forall_forall. intros c Hc.
  apply list_elem_of_fmap in Hc as (d & -> & Hd).
  apply digit_char_decimal. revert Hd. generalize (S (N.to_nat (N.log2 n))).
  intros fuel. revert n. induction fuel as [|fuel IH]; intros n; simpl; [by inversion 1|].
  destruct (n =? 0); [by inversion 1|].
  inversion 1; subst; [by apply N.mod_lt|eauto].
Qed.

Lemma decimal_nonempty n : decimal n <> [] .
Proof.
  destruct (N.eqb_spec n 0) as [->|Hn]; [done|].
  replace n with (10 * (n / 10) + n mod 10) by (pose proof (N.div_mod n 10 ltac:(lia)); lia).
  destruct (N.eqb_spec (n / 10) 0) as [->|Hq].
  - rewrite decimal_digit; [done|]. simpl. by apply N.mod_lt.
  - rewrite decimal_step; [|by apply N.neq_0_lt_0|by apply N.mod_lt]. by destruct (decimal (n / 10)).
Qed.

(** Below a thousand there are at most three digits. *)
Lemma decimal_length_1000 n : n < 1000 -> (length (decimal n) <= 3)%nat.
Proof.
  intros Hn.
  destruct (N.eqb_spec (n / 10) 0) as [E|Hq].
  { rewrite decimal_digit; [simpl; lia|]. apply N.div_small_iff in E; lia. }
  replace n with (10 * (n / 10) + n mod 10) by (pose proof (N.div_mod n 10 ltac:(lia)); lia).
  rewrite decimal_step, length_app; [|by apply N.neq_0_lt_0|by apply N.mod_lt]. simpl.
  assert (Hq' : n / 10 < 100) by (apply N.Div0.div_lt_upper_bound; lia).
  revert Hq Hq'. generalize (n / 10). clear n Hn. intros n Hn0 Hn.
  destruct (N.eqb_spec (n / 10) 0) as [E|Hq].
  { rewrite decimal_digit; [simpl; lia|]. apply N.div_small_iff in E; lia. }
  replace n with (10 * (n / 10) + n mod 10) by (pose proof (N.div_mod n 10 ltac:(lia)); lia).
  rewrite decimal_step, length_app; [|by apply N.neq_0_lt_0|by apply N.mod_lt]. simpl.
  rewrite decimal_digit; [simpl; lia|]. apply N.Div0.div_lt_upper_bound; lia.
Qed.

End Decimal.

(** ** Lexing a token run *)

Lemma lstrip_head c s : Char.isspace c = false -> lstrip (c :: s) = c :: s.
Proof. intros H. simpl. by rewrite H. Qed.

Lemma rstrip_last s c : Char.isspace c = false -> rstrip (s ++ [c]) = s ++ [c].
Proof.
  intros H. unfold rstrip. rewrite rev_app_distr. simpl. rewrite H.
  simpl. by rewrite rev_involutive.
Qed.

Lemma token_last t : token t -> exists s c, t = s ++ [c] /\ Char.isspace c = false.
Proof.
  intros [Hne Hns]. destruct (exists_last Hne) as (s & c & ->).
  exists s, c. split; [done|]. apply Forall_app in Hns as [_ Hc]. by inversion Hc.
Qed.

Lemma join_last ts :
  Forall token ts -> ts <> [] ->
  exists s c, join (L " ") ts = s ++ [c] /\ Char.isspace c = false.
Proof.
  induction 1 as [|t ts Ht Hts IH]; [done|]. intros _.
  destruct ts as [|t' ts]; [by apply token_last|].
  destruct IH as (s & c & E & Hc); [done|].
  exists (t ++ L " " ++ s), c. split; [|done].
  change (join (L " ") (t :: t' :: ts)) with (t ++ L " " ++ join (L " ") (t' :: ts)).
  by rewrite E, <- !app_assoc.
Qed.

Lemma strip_join ts : Forall token ts -> strip (join (L " ") ts) = join (L " ") ts.
Proof.
  intros Hts. destruct ts as [|t ts]; [done|].
  destruct (join_last _ Hts) as (s & c & E & Hc); [done|].
  unfold strip.
  assert (lstrip (join (L " ") (t :: ts)) = join (L " ") (t :: ts)) as ->.
  { inversion Hts as [|? ? [Hne Hns] _]; subst.
    destruct t as [|c0 t]; [done|]. inversion Hns; subst.
    destruct ts; by apply lstrip_head. }
  rewrite E. by apply rstrip_last.
Qed.

(** With an empty description the extractor lexes the tokens of the line. *)
Lemma extract_amounts_from_line_join ts :
  Forall token ts ->
  extract_amounts_from_line (join (L " ") ts) [] = extract_amounts_from_tokens ts.
Proof.
  intros Hts. unfold extract_amounts_from_line, remainder_after.
  change (negb (bool_decide ([] = [])) && _) with false. cbv iota.
  by rewrite strip_join, split_ws_join.
Qed.

(** *** The cascade is greedy on length *)

Lemma amount_at_shape4 tokens idx :
  idx + 3 < length tokens ->
  matches shape4 (join (L " ") (slice idx (idx + 4) tokens)) = true ->
  amount_at tokens idx
  = Some (clean_amount (join (L " ") (slice idx (idx + 4) tokens)), 4).
Proof.
  intros Hlen Hm. unfold amount_at.
  assert ((idx <? length tokens) = true) as -> by (apply Nat.ltb_lt; lia).
  assert ((idx + 3 <? length tokens) = true) as -> by (by apply Nat.ltb_lt).
  by rewrite Hm.
Qed.

Lemma amount_at_shape3 tokens idx :
  idx + 2 < length tokens ->
  (idx + 3 <? length tokens)
    && matches shape4 (join (L " ") (slice idx (idx + 4) tokens)) = false ->
  matches shape3 (join (L " ") (slice idx (idx + 3) tokens)) = true ->
  amount_at tokens idx
  = Some (clean_amount (join (L " ") (slice idx (idx + 3) tokens)), 3).
Proof.
  intros Hlen H4 Hm. unfold amount_at.
  assert ((idx <? length tokens) = true) as -> by (apply Nat.ltb_lt; lia).
  assert ((idx + 2 <? length tokens) = true) as -> by (by apply Nat.ltb_lt).
  by rewrite H4, Hm.
Qed.

Lemma amount_at_shape2 tokens idx :
  idx + 1 < length tokens ->
  (idx + 3 <? length tokens)
    && matches shape4 (join (L " ") (slice idx (idx + 4) tokens)) = false ->
  (idx + 2 <? length tokens)
    && matches shape3 (join (L " ") (slice idx (idx + 3) tokens)) = false ->
  matches shape2 (join (L " ") (slice idx (idx + 2) tokens)) = true ->
  amount_at tokens idx
  = Some (clean_amount (join (L " ") (slice idx (idx + 2) tokens)), 2).
Proof.
  intros Hlen H4 H3 Hm. unfold amount_at.
  assert ((idx <? length tokens) = true) as -> by (apply Nat.ltb_lt; lia).
  assert ((idx + 1 <? length tokens) = true) as -> by (by apply Nat.ltb_lt).
  by rewrite H4, H3, Hm.
Qed.

Lemma amount_at_shape1 tokens idx :
  idx < length tokens ->
  (idx + 3 <? length tokens)
    && matches shape4 (join (L " ") (slice idx (idx + 4) tokens)) = false ->
  (idx + 2 <? length tokens)
    && matches shape3 (join (L " ") (slice idx (idx + 3) tokens)) = false ->
  (idx + 1 <? length tokens)
    && matches shape2 (join (L " ") (slice idx (idx + 2) tokens)) = false ->
  matches shape1 (default [] (tokens !! idx)) = true ->
  amount_at tokens idx = Some (clean_amount (default [] (tokens !! idx)), 1).
Proof.
  intros Hlen H4 H3 H2 Hm. unfold amount_at.
  assert ((idx <? length tokens) = true) as -> by (by apply Nat.ltb_lt).
  by rewrite H4, H3, H2, Hm.
Qed.

(** *** A rendered amount: a leading group, groups of three, two digits *)

Lemma group3_parses g r rest :
  group_of 3 g -> parses r rest [] -> parses (group3 ++ r) (" "%char :: g ++ rest) [].
Proof.
  intros [Hg Hlen] Hr. apply digits_only_forallb in Hg.
  apply (parses_rep_intro _ _ _ _ [" "%char]); [done|simpl; lia|by intros ? [= <-]|].
  apply parses_rep_intro; [done|lia|intros ? [= <-]; lia|done].
Qed.

Lemma final_parses frac :
  group_of 2 frac ->
  parses [one Char.isspace; times 2 Char.isdecimal; opt (Char.is_char "*"); Dollar]
    (" "%char :: frac) [].
Proof.
  intros [Hf Hlen]. apply digits_only_forallb in Hf.
  apply (parses_rep_intro _ _ _ _ [" "%char]); [done|simpl; lia|by intros ? [= <-]|].
  rewrite <- (app_nil_r frac).
  apply parses_rep_intro; [done|lia|intros ? [= <-]; lia|].
  apply (parses_rep_intro _ _ _ _ [] []); [done|simpl; lia|intros ? [= <-]; simpl; lia|].
  done.
Qed.

(** The text of one, two or three groups before the last two digits. *)
Lemma grouped_intro mid sign lead b frac :
  sign_text sign -> digits_only lead -> 1 <= length lead <= 4 ->
  (forall r rest, parses r rest [] -> parses (mid ++ r) (b ++ rest) []) ->
  body_text b ->
  group_of 2 frac ->
  matches (grouped mid) (sign ++ lead ++ b ++ " "%char :: frac) = true
  /\ clean_amount (sign ++ lead ++ b ++ " "%char :: frac)
     = sign ++ (lead ++ remove_char " " b) ++ L "." ++ frac.
Proof.
  intros Hsign Hlead Hlen Hmid Hb Hfrac. split.
  - apply matches_true. exists []. unfold grouped.
    apply parses_rep_intro;
      [by destruct Hsign as [-> | ->]|lia
      |intros ? [= <-]; destruct Hsign as [-> | ->]; simpl; lia|].
    apply parses_rep_intro;
      [by apply digits_only_forallb|lia|intros ? [= <-]; lia|].
    apply Hmid, final_parses, Hfrac.
  - apply clean_amount_lexed.
    exists (lead ++ b ++ " "%char :: frac), []. repeat split.
    + by rewrite app_nil_r.
    + done.
    + by left.
    + unfold body_text in *. rewrite !Forall_app. repeat split; [|done|].
      * eapply Forall_impl; [exact Hlead|]. by left.
      * constructor; [by right|]. destruct Hfrac as [Hf _].
        eapply Forall_impl; [exact Hf|]. by left.
    + rewrite !remove_char_app. change (" "%char :: frac) with ([" "%char] ++ frac).
      rewrite remove_char_app, remove_char_single, app_nil_l, <- app_assoc.
      f_equal; [|f_equal]; apply remove_char_id.
      * eapply Forall_impl; [exact Hlead|]. intros x Hx. apply decimal_not_punct, Hx.
      * destruct Hfrac as [Hf _].
        eapply Forall_impl; [exact Hf|]. intros x Hx. apply decimal_not_punct, Hx.
    + apply Hfrac.
Qed.

Lemma join_prefix p t ts : p ++ join (L " ") (t :: ts) = join (L " ") ((p ++ t) :: ts).
Proof. destruct ts; [done|]. simpl. by rewrite <- app_assoc. Qed.

Lemma group_token k g : 0 < k -> group_of k g -> token g.
Proof.
  intros Hk [Hg Hlen]. split; [|by apply digits_only_no_space].
  destruct g; [simpl in Hlen; lia|done].
Qed.

Lemma signed_lead_token sign lead :
  sign_text sign -> digits_only lead -> 1 <= length lead -> token (sign ++ lead).
Proof.
  intros Hsign Hlead Hlen. split.
  - destruct lead; [simpl in Hlen; lia|]. by destruct sign.
  - apply Forall_app. split; [|by apply digits_only_no_space].
    destruct Hsign as [-> | ->]; by repeat constructor.
Qed.

(** The first amount of a run that is exactly one rendered amount. *)
Lemma first_amount_rendered sign lead mids frac :
  sign_text sign -> digits_only lead -> 1 <= length lead <= 4 ->
  Forall (group_of 3) mids -> length mids <= 2 -> group_of 2 frac ->
  first_amount ((sign ++ lead) :: mids ++ [frac])
  = Some (sign ++ (lead ++ concat mids) ++ L "." ++ frac, S (S (length mids))).
Proof.
  intros Hsign Hlead Hlen Hmids Hn Hfrac.
  destruct mids as [|g1 [|g2 [|g3 mids]]]; [| | |simpl in Hn; lia].
  - destruct (grouped_intro [] sign lead [] frac) as [Hm Hc]; try done.
    { constructor. }
    unfold first_amount. cbn [app length first_amount_loop].
    change (negb (0 <? 2)) with false. cbv iota.
    rewrite amount_at_shape2; [|simpl; lia|done|done|].
    + change (join (L " ") (slice 0 (0 + 2) [sign ++ lead; frac]))
        with ((sign ++ lead) ++ " "%char :: frac).
      rewrite <- app_assoc. change (lead ++ " "%char :: frac) with (lead ++ [] ++ " "%char :: frac).
      rewrite Hc. simpl. by rewrite app_nil_r.
    + change (join (L " ") (slice 0 (0 + 2) [sign ++ lead; frac]))
        with ((sign ++ lead) ++ " "%char :: frac).
      by rewrite <- app_assoc.
  - inversion Hmids as [|? ? Hg1 _]; subst.
    assert (Hb : body_text (" "%char :: g1)).
    { constructor; [by right|]. destruct Hg1 as [Hg _].
      eapply Forall_impl; [exact Hg|]. by left. }
    destruct (grouped_intro group3 sign lead (" "%char :: g1) frac) as [Hm Hc]; try done.
    { intros r rest Hr. by apply group3_parses. }
    assert (Hrm : remove_char " " (" "%char :: g1) = g1).
    { simpl. apply remove_char_id. destruct Hg1 as [Hg _].
      eapply Forall_impl; [exact Hg|]. intros x Hx. apply decimal_not_punct, Hx. }
    rewrite Hrm in Hc.
    assert (E : join (L " ") (slice 0 (0 + 3) [sign ++ lead; g1; frac])
                = sign ++ lead ++ (" "%char :: g1) ++ " "%char :: frac).
    { change (join (L " ") (slice 0 (0 + 3) [sign ++ lead; g1; frac]))
        with ((sign ++ lead) ++ " "%char :: g1 ++ " "%char :: frac).
      by rewrite <- app_assoc. }
    unfold first_amount. cbn [app length first_amount_loop].
    change (negb (0 <? 3)) with false. cbv iota.
    rewrite amount_at_shape3; [|simpl; lia|done|by rewrite E].
    rewrite E, Hc. simpl. by rewrite app_nil_r.
  - inversion Hmids as [|? ? Hg1 Hmids']; subst.
    inversion Hmids' as [|? ? Hg2 _]; subst.
    assert (Hb : body_text ((" "%char :: g1) ++ " "%char :: g2)).
    { apply Forall_app. split; (constructor; [by right|]).
      - destruct Hg1 as [Hg _]. eapply Forall_impl; [exact Hg|]. by left.
      - destruct Hg2 as [Hg _]. eapply Forall_impl; [exact Hg|]. by left. }
    destruct (grouped_intro (group3 ++ group3) sign lead
                ((" "%char :: g1) ++ " "%char :: g2) frac) as [Hm Hc]; try done.
    { intros r rest Hr. rewrite <- !app_assoc.
      apply (group3_parses g1 (group3 ++ r) (" "%char :: g2 ++ rest)); [done|].
      by apply group3_parses. }
    assert (Hrm : remove_char " " ((" "%char :: g1) ++ " "%char :: g2) = g1 ++ g2).
    { rewrite remove_char_app. simpl.
      f_equal; apply remove_char_id.
      - destruct Hg1 as [Hg _].
        eapply Forall_impl; [exact Hg|]. intros x Hx. apply decimal_not_punct, Hx.
      - destruct Hg2 as [Hg _].
        eapply Forall_impl; [exact Hg|]. intros x Hx. apply decimal_not_punct, Hx. }
    rewrite Hrm in Hc.
    assert (E : join (L " ") (slice 0 (0 + 4) [sign ++ lead; g1; g2; frac])
                = sign ++ lead ++ ((" "%char :: g1) ++ " "%char :: g2) ++ " "%char :: frac).
    { change (join (L " ") (slice 0 (0 + 4) [sign ++ lead; g1; g2; frac]))
        with ((sign ++ lead) ++ " "%char :: g1 ++ " "%char :: g2 ++ " "%char :: frac).
      by rewrite <- !app_assoc. }
    unfold first_amount. cbn [app length first_amount_loop].
    change (negb (0 <? 4)) with false. cbv iota.
    rewrite amount_at_shape4; [|simpl; lia|by rewrite E].
    rewrite E, Hc. simpl. by rewrite app_nil_r.
Qed.

Lemma lex_rendered sign lead mids frac :
  sign_text sign -> digits_only lead -> 1 <= length lead <= 4 ->
  Forall (group_of 3) mids -> length mids <= 2 -> group_of 2 frac ->
  lex (sign ++ join (L " ") (lead :: mids ++ [frac]))
  = Some (sign ++ (lead ++ concat mids) ++ L "." ++ frac).
Proof.
  intros Hsign Hlead Hlen Hmids Hn Hfrac. unfold lex.
  rewrite join_prefix, extract_amounts_from_line_join.
  - unfold extract_amounts_from_tokens.
    by rewrite first_amount_rendered.
  - constructor; [apply signed_lead_token; [done|done|lia]|].
    apply Forall_app. split.
    + eapply Forall_impl; [exact Hmids|]. intros g. apply group_token. lia.
    + constructor; [|done]. eapply group_token; [|exact Hfrac]. lia.
Qed.

(** *** The rendering of an amount *)

Lemma groups_of_three_small s : 1 <= length s <= 3 -> groups_of_three s = [s].
Proof.
  destruct s as [|a [|b [|c [|d s]]]]; simpl; intros; try lia; reflexivity.
Qed.

Lemma groups_of_three_snoc s x y z :
  s <> [] -> groups_of_three (s ++ [x; y; z]) = groups_of_three s ++ [[x; y; z]].
Proof.
  intros Hs. unfold groups_of_three. rewrite rev_app_distr.
  change (rev [x; y; z]) with [z; y; x].
  destruct (rev s) as [|c l] eqn:E.
  { apply (f_equal (@rev ascii)) in E. rewrite rev_involutive in E. by subst. }
  change (chunks3 ([z; y; x] ++ c :: l)) with ([z; y; x] :: chunks3 (c :: l)).
  by rewrite map_cons; simpl.
Qed.

Section Rendering.
Local Open Scope N_scope.

Lemma three_digits_group b : b < 1000 -> group_of 3 (three_digits b).
Proof.
  intros Hb. split; [|done]. repeat constructor; apply digit_char_decimal.
  - apply N.Div0.div_lt_upper_bound; lia.
  - apply N.Div0.div_lt_upper_bound. pose proof (N.mod_lt b 100). lia.
  - by apply N.mod_lt.
Qed.

Lemma two_digits_group c : c < 100 -> group_of 2 (two_digits c).
Proof.
  intros Hc. split; [|done]. repeat constructor; apply digit_char_decimal.
  - apply N.Div0.div_lt_upper_bound; lia.
  - by apply N.mod_lt.
Qed.

Lemma lead_group a :
  0 < a < 1000 ->
  groups_of_three (decimal a) = [decimal a]
  /\ digits_only (decimal a) /\ (1 <= length (decimal a) <= 3)%nat.
Proof.
  intros Ha.
  assert (Hlen : (1 <= length (decimal a) <= 3)%nat).
  { split; [|apply decimal_length_1000; lia].
    pose proof (decimal_nonempty a). destruct (decimal a); simpl; [done|lia]. }
  split; [by apply groups_of_three_small|]. split; [apply decimal_digits_only|done].
Qed.

(** The groups of the dollars part: a leading group of one to three digits
    and at most two groups of three. *)
Lemma dollars_groups d :
  0 < d < 10 ^ 7 ->
  exists lead mids,
    groups_of_three (decimal d) = lead :: mids
    /\ decimal d = lead ++ concat mids
    /\ digits_only lead /\ (1 <= length lead <= 3)%nat
    /\ Forall (group_of 3) mids /\ (length mids <= 2)%nat.
Proof.
  intros Hd. destruct (N.ltb_spec d 1000) as [Hsmall|Hbig].
  { destruct (lead_group d) as (Hg & Hdig & Hlen); [lia|].
    exists (decimal d), []. simpl. rewrite app_nil_r.
    split; [done|]. split; [done|]. split; [done|]. split; [lia|].
    split; [constructor|lia]. }
  pose proof (N.div_mod d 1000 ltac:(lia)) as Ed.
  pose proof (N.mod_lt d 1000 ltac:(lia)) as Hb.
  assert (Ha : 1 <= d / 1000) by (apply N.div_le_lower_bound; lia).
  assert (Ha' : d / 1000 < 10 ^ 4) by (apply N.Div0.div_lt_upper_bound; lia).
  revert Ed Hb Ha Ha'. generalize (d / 1000) (d mod 1000). intros a b -> Hb Ha Ha'.
  rewrite decimal_thousands by lia.
  rewrite groups_of_three_snoc by apply decimal_nonempty.
  fold (three_digits b). pose proof (three_digits_group b Hb) as Hgb.
  destruct (N.ltb_spec a 1000) as [Hsmall|Hbig'].
  { destruct (lead_group a) as (Hg & Hdig & Hlen); [lia|].
    exists (decimal a), [three_digits b]. rewrite Hg. simpl.
    split; [done|]. split; [done|]. split; [done|]. split; [lia|].
    split; [|lia]. constructor; [done|constructor]. }
  pose proof (N.div_mod a 1000 ltac:(lia)) as Ea.
  pose proof (N.mod_lt a 1000 ltac:(lia)) as Hb'.
  assert (Ha1 : 1 <= a / 1000) by (apply N.div_le_lower_bound; lia).
  assert (Ha2 : a / 1000 < 10) by (apply N.Div0.div_lt_upper_bound; lia).
  revert Ea Hb' Ha1 Ha2. generalize (a / 1000) (a mod 1000). intros a' b' -> Hb' Ha1 Ha2.
  rewrite decimal_thousands by lia.
  rewrite groups_of_three_snoc by apply decimal_nonempty.
  fold (three_digits b'). pose proof (three_digits_group b' Hb') as Hgb'.
  destruct (lead_group a') as (Hg & Hdig & Hlen); [lia|].
  exists (decimal a'), [three_digits b'; three_digits b]. rewrite Hg. simpl.
  split; [done|]. split; [by rewrite <- app_assoc|].
  split; [done|]. split; [lia|].
  split; [|lia]. constructor; [done|]. constructor; [done|constructor].
Qed.

Lemma mod100_mod10 n : (n mod 100) mod 10 = n mod 10.
Proof.
  change 100 with (10 * 10). rewrite N.Div0.mod_mul_r, N.add_comm.
  apply mod10_last. by apply N.mod_lt.
Qed.

(** A rendered amount is its groups joined by spaces. *)
Lemma render_groups n :
  100 <= n < 10 ^ 9 ->
  exists lead mids,
    render n = join (L " ") (lead :: mids ++ [two_digits (n mod 100)])
    /\ format_2dp n = (lead ++ concat mids) ++ L "." ++ two_digits (n mod 100)
    /\ digits_only lead /\ (1 <= length lead <= 4)%nat
    /\ Forall (group_of 3) mids /\ (length mids <= 2)%nat.
Proof.
  intros Hn.
  pose proof (N.div_mod n 100 ltac:(lia)) as En.
  pose proof (N.mod_lt n 100 ltac:(lia)) as Hc.
  assert (Hd1 : 1 <= n / 100) by (apply N.div_le_lower_bound; lia).
  assert (Hd2 : n / 100 < 10 ^ 7) by (apply N.Div0.div_lt_upper_bound; lia).
  destruct (dollars_groups (n / 100)) as (lead & mids & Hg & Hdec & Hdig & Hlen & Hmids & Hk);
    [lia|].
  exists lead, mids.
  split; [|split; [|split; [done|split; [lia|split; [done|lia]]]]].
  - assert (Hds : decimal n = decimal (n / 100) ++ two_digits (n mod 100)).
    { rewrite En at 1. apply decimal_cents; lia. }
    unfold render. rewrite Hds. cbv zeta. rewrite length_app.
    replace (length (decimal (n / 100)) + length (two_digits (n mod 100)) - 2)%nat
      with (length (decimal (n / 100))) by (simpl; lia).
    by rewrite take_app_length, drop_app_length, Hg.
  - unfold format_2dp, two_digits. by rewrite Hdec, mod100_mod10.
Qed.

End Rendering.

(** ** The year-to-date validator touches year-to-date keys only *)

Lemma same_off_ytd_refl record : same_off_ytd record record.
Proof. by intros key _. Qed.

Lemma same_off_ytd_trans r1 r2 r3 :
  same_off_ytd r1 r2 -> same_off_ytd r2 r3 -> same_off_ytd r1 r3.
Proof. intros H12 H23 key Hk. by rewrite H23, H12. Qed.

Lemma validate_record_frame ytd_field last record :
  endswith (L " YTD") ytd_field = true ->
  same_off_ytd record (validate_record ytd_field last record).1.1.
Proof.
  intros Hf key Hk. unfold validate_record.
  destruct (_ && _).
  - by destruct (Float.of_str _).
  - destruct last; [|done]. simpl. apply lookup_insert_ne. congruence.
Qed.

Lemma validate_field_frame ytd_field last data :
  endswith (L " YTD") ytd_field = true ->
  Forall2 same_off_ytd data (validate_field ytd_field last data).1.
Proof.
  intros Hf. revert last. induction data as [|record rest IH]; intros last; simpl.
  - constructor.
  - pose proof (validate_record_frame ytd_field last record Hf) as Hr.
    destruct (validate_record ytd_field last record) as [[record' last'] printed].
    specialize (IH last').
    destruct (validate_field ytd_field last' rest) as [rest' printed'].
    by constructor.
Qed.

Lemma Forall2_same_off_ytd_trans l1 l2 l3 :
  Forall2 same_off_ytd l1 l2 -> Forall2 same_off_ytd l2 l3 -> Forall2 same_off_ytd l1 l3.
Proof.
  intros H12. revert l3. induction H12 as [|r1 r2 l1 l2 Hr _ IH]; intros l3 H23.
  - by inversion H23.
  - inversion H23; subst. constructor; [by eapply same_off_ytd_trans|by apply IH].
Qed.

Lemma validate_fields_frame fields data :
  Forall (fun f => endswith (L " YTD") f = true) fields ->
  Forall2 same_off_ytd data (validate_fields fields data).1.
Proof.
  intros Hfields. unfold validate_fields.
  assert (Hgen : forall acc : list dict * list diagnostic,
             Forall2 same_off_ytd data acc.1 ->
             Forall2 same_off_ytd data
               (foldl (fun acc ytd_field =>
                         let '(data', printed) := validate_field ytd_field None acc.1 in
                         (data', acc.2 ++ printed)) acc fields).1).
  { induction Hfields as [|f fields Hf _ IH]; intros acc Hacc; [done|].
    simpl. apply IH.
    pose proof (validate_field_frame f None acc.1 Hf) as Hstep.
    destruct (validate_field f None acc.1) as [data' printed]. simpl in *.
    by eapply Forall2_same_off_ytd_trans. }
  apply Hgen. simpl. apply Forall_Forall2_diag, Forall_forall.
  intros. apply same_off_ytd_refl.
Qed.

Lemma ytd_fields_end data f : f ∈ ytd_fields data -> endswith (L " YTD") f = true.
Proof.
  unfold ytd_fields. rewrite elem_of_union_list.
  intros (X & HX & Hf). apply list_elem_of_fmap in HX as (record & -> & _).
  apply elem_of_filter in Hf as [Hf _]. by apply Is_true_true.
Qed.

Lemma validate_frame data :
  Forall2 same_off_ytd data (validate_and_fix_ytd_values data).1.
Proof.
  unfold validate_and_fix_ytd_values. destruct data as [|record rest]; [constructor|].
  apply validate_fields_frame, Forall_forall. intros f Hf.
  apply (ytd_fields_end (record :: rest)). by apply elem_of_elements.
Qed.

(** ** The order in which the set of fields is iterated does not matter

    Python iterates the set [ytd_fields] in an unspecified order.  A pass
    for one field reads and writes that field alone, so the passes for two
    fields commute and every order gives the same batch. *)

Lemma validate_record_insert_other (f g : str) (last : option Float.t) (r : dict) (v : str) :
  f <> g ->
  (validate_record f last (<[g := v]> r)).1
  = (<[g := v]> (validate_record f last r).1.1, (validate_record f last r).1.2).
Proof.
  intros Hne. unfold validate_record. rewrite lookup_insert_ne by done.
  destruct (_ && _).
  - by destruct (Float.of_str _).
  - destruct last; [|done]. cbn [fst snd]. f_equal. by apply insert_insert_ne.
Qed.

Lemma validate_record_cases (g : str) (last : option Float.t) (r : dict) :
  (validate_record g last r).1.1 = r
  \/ exists v, (validate_record g last r).1.1 = <[g := v]> r.
Proof.
  unfold validate_record. destruct (_ && _).
  - left. by destruct (Float.of_str _).
  - destruct last; [right; by eexists|by left].
Qed.

Lemma validate_record_after_other (f g : str) (lf lg : option Float.t) (r : dict) :
  f <> g ->
  (validate_record f lf (validate_record g lg r).1.1).1
  = ((validate_record g lg (validate_record f lf r).1.1).1.1,
     (validate_record f lf r).1.2).
Proof.
  intros Hne.
  assert (Hfst : forall last v,
            (validate_record f last (<[g := v]> r)).1.1
            = <[g := v]> (validate_record f last r).1.1)
    by (intros; by rewrite validate_record_insert_other).
  assert (Hsnd : forall last v,
            (validate_record f last (<[g := v]> r)).1.2 = (validate_record f last r).1.2)
    by (intros; by rewrite validate_record_insert_other).
  assert (Hfst' : forall last w,
            (validate_record g last (<[f := w]> r)).1.1
            = <[f := w]> (validate_record g last r).1.1)
    by (intros; by rewrite validate_record_insert_other).
  rewrite (surjective_pairing (validate_record f lf (validate_record g lg r).1.1).1).
  destruct (validate_record_cases g lg r) as [Eg | [v Eg]];
    destruct (validate_record_cases f lf r) as [Ef | [w Ef]].
  - by rewrite Eg, Ef, Eg.
  - by rewrite Eg, Ef, Hfst', Eg.
  - by rewrite Eg, Hfst, Hsnd, Ef, Eg.
  - rewrite Eg, Hfst, Hsnd, Ef, Hfst', Eg. f_equal.
    apply insert_insert_ne. congruence.
Qed.

Lemma validate_field_cons f last record rest :
  (validate_field f last (record :: rest)).1
  = (validate_record f last record).1.1
    :: (validate_field f (validate_record f last record).1.2 rest).1.
Proof.
  simpl. destruct (validate_record f last record) as [[record' last'] printed].
  cbn [fst snd]. by destruct (validate_field f last' rest).
Qed.

Lemma validate_field_comm f g lf lg data :
  f <> g ->
  (validate_field f lf (validate_field g lg data).1).1
  = (validate_field g lg (validate_field f lf data).1).1.
Proof.
  intros Hne. revert lf lg. induction data as [|record rest IH]; intros lf lg; [done|].
  rewrite !validate_field_cons.
  pose proof (validate_record_after_other f g lf lg record Hne) as Hfg.
  pose proof (validate_record_after_other g f lg lf record (not_eq_sym Hne)) as Hgf.
  apply (f_equal fst) in Hfg as Hfg1. apply (f_equal snd) in Hfg as Hfg2.
  apply (f_equal snd) in Hgf as Hgf2. cbn [fst snd] in Hfg1, Hfg2, Hgf2.
  f_equal; [exact Hfg1|]. rewrite Hfg2, Hgf2. apply IH.
Qed.

Lemma validate_fields_data fields data :
  (validate_fields fields data).1
  = foldl (fun d f => (validate_field f None d).1) data fields.
Proof.
  unfold validate_fields. generalize (@nil diagnostic). revert data.
  induction fields as [|f fields IH]; intros data printed; [done|].
  cbn [foldl fst snd].
  destruct (validate_field f None data) as [data' printed'] eqn:E.
  by rewrite IH.
Qed.

Lemma foldl_validate_permutation (order order' : list str) data :
  order ≡ₚ order' ->
  foldl (fun d f => (validate_field f None d).1) data order
  = foldl (fun d f => (validate_field f None d).1) data order'.
Proof.
  intros Hperm. revert data.
  induction Hperm as [|f l l' _ IH|f g l|l1 l2 l3 _ IH1 _ IH2]; intros data.
  - done.
  - apply IH.
  - cbn [foldl]. f_equal. destruct (decide (f = g)) as [->|Hne]; [done|].
    by apply validate_field_comm.
  - by rewrite IH1.
Qed.

(** Every enumeration of the set of fields yields the batch of the model. *)
Lemma validate_order_irrelevant data order :
  order ≡ₚ elements (ytd_fields data) ->
  (validate_fields order data).1 = (validate_and_fix_ytd_values data).1.
Proof.
  intros Hperm. unfold validate_and_fix_ytd_values. destruct data as [|record rest].
  - change (ytd_fields []) with (∅ : gset str) in Hperm.
    rewrite elements_empty in Hperm. by apply Permutation_nil_r in Hperm as ->.
  - rewrite !validate_fields_data. by apply foldl_validate_permutation.
Qed.

(** ** The deductions scan *)

Lemma sort_insert_elem m x l : x ∈ sort_insert m l -> x = m \/ x ∈ l.
Proof.
  induction l as [|m' l IH]; simpl.
  - intros ->%list_elem_of_singleton. by left.
  - destruct (match_leb m m').
    + intros [-> | H]%elem_of_cons; [by left|by right].
    + intros [-> | H]%elem_of_cons; [right; by left|].
      destruct (IH H) as [-> | H']; [by left|right; by right].
Qed.

Lemma sort_matches_elem x l : x ∈ sort_matches l -> x ∈ l.
Proof.
  induction l as [|m l IH]; simpl; [done|].
  intros [-> | H]%sort_insert_elem; [by left|right; auto].
Qed.

(** Every match of a line names a known label, and names [Espp] only when
    none of the three tests skips it. *)
Lemma line_matches_elem line m :
  m ∈ line_matches line ->
  m.2 ∈ deduction_names
  /\ (m.2 = L "Espp" -> espp_skipped line (default 0 (find (L "Espp") line)) = false).
Proof.
  unfold line_matches. rewrite list_elem_of_In, in_flat_map.
  intros (name & Hname%list_elem_of_In & Hm).
  destruct (contains name line); [|done].
  destruct (bool_decide (name = L "Espp") && _) eqn:E; [done|].
  destruct Hm as [<- | []]. simpl. split; [done|]. intros ->.
  by rewrite bool_decide_eq_true_2 in E.
Qed.

(** A match writes the two keys of its own label only. *)
Lemma process_match_other line name st (key : str) :
  key <> deductions_key name -> key <> deductions_ytd_key name ->
  deductions (process_match line name st) !! key = deductions st !! key.
Proof.
  intros Hk Hy. unfold process_match.
  destruct (_ || _); [done|].
  destruct (route_amounts _ _ _) as [this_period ytd]. simpl.
  destruct (truthy ytd), (truthy this_period);
    rewrite ?lookup_insert_ne by done; done.
Qed.

Lemma espp_keys_distinct name :
  name ∈ deduction_names -> name <> L "Espp" ->
  deductions_key (L "Espp") <> deductions_key name
  /\ deductions_key (L "Espp") <> deductions_ytd_key name
  /\ deductions_ytd_key (L "Espp") <> deductions_key name
  /\ deductions_ytd_key (L "Espp") <> deductions_ytd_key name.
Proof.
  intros Hin Hne.
  assert (Hall : forallb (fun name =>
            bool_decide (name = L "Espp")
            || (bool_decide (deductions_key (L "Espp") <> deductions_key name)
                && bool_decide (deductions_key (L "Espp") <> deductions_ytd_key name)
                && bool_decide (deductions_ytd_key (L "Espp") <> deductions_key name)
                && bool_decide (deductions_ytd_key (L "Espp") <> deductions_ytd_key name)))
          deduction_names = true) by (vm_compute; reflexivity).
  rewrite forallb_forall in Hall. apply list_elem_of_In in Hin.
  specialize (Hall name Hin). apply orb_prop in Hall as [Hall|Hall].
  { by apply bool_decide_eq_true_1 in Hall. }
  rewrite !andb_true_iff, !bool_decide_eq_true in Hall. tauto.
Qed.

(** A line whose matches do not name [Espp] leaves both [Espp] entries as
    they were. *)
Lemma deductions_line_without_espp line st :
  (forall m, m ∈ line_matches line -> m.2 <> L "Espp") ->
  deductions (deductions_line line st) !! deductions_key (L "Espp")
  = deductions st !! deductions_key (L "Espp")
  /\ deductions (deductions_line line st) !! deductions_ytd_key (L "Espp")
     = deductions st !! deductions_ytd_key (L "Espp").
Proof.
  intros Hno. unfold deductions_line.
  set (st0 := if _ || _ then _ else _).
  assert (Hst0 : deductions st0 = deductions st) by (subst st0; by destruct (_ || _)).
  rewrite <- Hst0. clearbody st0. clear Hst0.
  assert (Hsorted : forall m, m ∈ sort_matches (line_matches line) ->
                      m.2 ∈ deduction_names /\ m.2 <> L "Espp").
  { intros m Hm%sort_matches_elem.
    split; [by destruct (line_matches_elem line m Hm)|auto]. }
  revert st0 Hsorted. induction (sort_matches (line_matches line)) as [|m l IH];
    intros st0 Hsorted; [done|].
  cbn [foldl]. destruct (Hsorted m) as [Hin Hne]; [by left|].
  destruct (espp_keys_distinct _ Hin Hne) as (K1 & K2 & K3 & K4).
  destruct (IH (process_match line m.2 st0)) as [E1 E2].
  { intros m' Hm'. apply Hsorted. by right. }
  rewrite E1, E2. split; by apply process_match_other.
Qed.

(** The social security routing of a single positive amount. *)
Lemma route_social_security st a :
  a <> [] -> startswith (L "-") a = false ->
  route_amounts (L "Social Security Tax") st (Some a, None) = (None, Some a).
Proof.
  intros Ha Hpos. unfold route_amounts.
  change (default [] (Some a)) with a. rewrite Hpos.
  rewrite bool_decide_eq_true_2 by done.
  destruct a as [|c a]; [done|]. reflexivity.
Qed.

Lemma social_security_single line st a :
  deductions st !! deductions_key (L "Social Security Tax") = None ->
  deductions st !! deductions_ytd_key (L "Social Security Tax") = None ->
  extract_amounts_from_line line (L "Social Security Tax") = (Some a, None) ->
  startswith (L "-") a = false ->
  deductions (process_match line (L "Social Security Tax") st)
  = <[deductions_ytd_key (L "Social Security Tax") := a]> (deductions st).
Proof.
  intros Hk Hy Hex Hpos.
  assert (Ha : a <> []).
  { destruct (extract_amounts_from_line_lexed line (L "Social Security Tax")) as [H1 _].
    rewrite Hex in H1. by destruct (lexed_amount_ok _ _ (H1 a eq_refl)) as (_ & _ & ?). }
  unfold process_match. rewrite Hk, Hy.
  rewrite !bool_decide_eq_false_2 by (by intros [? ?]).
  cbn [orb]. rewrite Hex, route_social_security by done.
  destruct a as [|c a]; [done|]. reflexivity.
Qed.

(** * The statements of the specification *)

(** ** C1 *)

(** C1, as stated, fails: an amount of fifty cents renders as the single
    token [50], which the lexer turns into [.50] and not into [0.50]. *)
Lemma lex_render_below_one_dollar :
  ~ (forall n : N, (0 < n < 10 ^ 9)%N ->
       lex (render n) = Some (format_2dp n)
       /\ lex (L "-" ++ render n) = Some (L "-" ++ format_2dp n)).
Proof.
  intros H. destruct (H 50%N) as [H1 _]; [lia|].
  vm_compute in H1. discriminate H1.
Qed.

(** The two renderings of fifty cents: with the dollars part written as
    [0] the lexer gives [0.50]; the bare two-digit token gives [.50]. *)
Lemma lex_fifty_cents :
  lex (L "0 50") = Some (L "0.50") /\ lex (L "50") = Some (L ".50").
Proof. compute_done. Qed.

(** C1, amended: for every [n] with [100 <= n < 10^9], the rendering of [n]
    (digits, a space before the last two, a space every three digits of
    the dollars part) lexes to [n / 100] with two decimal places, and the
    same rendering after a minus sign lexes to the negated amount. *)
Theorem lex_render_amount (n : N) :
  (100 <= n < 10 ^ 9)%N ->
  lex (render n) = Some (format_2dp n)
  /\ lex (L "-" ++ render n) = Some (L "-" ++ format_2dp n).
Proof.
  intros Hn.
  destruct (render_groups n Hn) as (lead & mids & -> & -> & Hlead & Hlen & Hmids & Hk).
  assert (Hfrac : group_of 2 (two_digits (n mod 100))).
  { apply two_digits_group. apply N.mod_lt. lia. }
  split.
  - apply (lex_rendered [] lead mids _); try done. by left.
  - apply (lex_rendered (L "-") lead mids _); try done. by right.
Qed.

(** C1 at [n = 123456], rendered [1 234 56]. *)
Lemma lex_render_amount_witness :
  (100 <= 123456 < 10 ^ 9)%N
  /\ lex (render 123456) = Some (format_2dp 123456)
  /\ lex (L "-" ++ render 123456) = Some (L "-" ++ format_2dp 123456).
Proof. split; [lia|]. apply (lex_render_amount 123456). lia. Defined.

(** ** C2 *)

(** C2: on a labelled line of the earnings section the fields follow from
    the number of amounts collected: with four amounts the third is
    [Earnings <label>] and the fourth [Earnings <label> YTD]; with three,
    the second and the third; with two, both; with one, only
    [Earnings <label> YTD] is written.  The line
    [Regular 5000 00 80 00 5 000 00 5 000 00] gives [Earnings Regular] and
    [Earnings Regular YTD] equal to [5000.00]. *)
Theorem earnings_assignment_by_count :
  (forall line earnings group1 remainder,
     re_match label_re line = Some group1 ->
     bool_decide (strip group1 ∈ map L ["Net Pay"; "Net Check"]%string) = false ->
     after_first (strip group1) line = Some remainder ->
     let label := strip group1 in
     let amounts := line_amounts (split_ws (strip remainder)) in
     let after := earnings_line line earnings in
     (forall rate hours this_period ytd,
        amounts = [rate; hours; this_period; ytd] ->
        after = Some (<[earnings_ytd_key label := ytd]>
                        (<[earnings_key label := this_period]> earnings)))
     /\ (forall hours this_period ytd,
           amounts = [hours; this_period; ytd] ->
           after = Some (<[earnings_ytd_key label := ytd]>
                           (<[earnings_key label := this_period]> earnings)))
     /\ (forall this_period ytd,
           amounts = [this_period; ytd] ->
           after = Some (<[earnings_ytd_key label := ytd]>
                           (<[earnings_key label := this_period]> earnings)))
     /\ (forall ytd,
           amounts = [ytd] ->
           after = Some (<[earnings_ytd_key label := ytd]> earnings)))
  /\ parse_earnings_section earnings_example
     = Some {[ L "Earnings Regular" := L "5000.00";
               L "Earnings Regular YTD" := L "5000.00" ]}.
Proof.
  split.
  - intros line earnings group1 remainder Hre Hskip Hafter label amounts after.
    assert (Hcontains : contains label line = true).
    { unfold contains. apply bool_decide_eq_true_2. subst label.
      unfold after_first in Hafter. destruct (strip group1); [done|].
      destruct (find _ line); [by eexists|done]. }
    assert (E : after = Some (assign_earnings label amounts earnings)).
    { subst after. unfold earnings_line. rewrite Hre. fold label.
      fold label in Hskip, Hafter. by rewrite Hskip, Hcontains, Hafter. }
    rewrite E. repeat split; intros; f_equal; unfold assign_earnings;
      by match goal with H : amounts = _ |- _ => rewrite H end.
  - compute_done.
Qed.

(** C2 on the line of the scenario, which has four amounts. *)
Lemma earnings_assignment_by_count_witness :
  earnings_line (L "Regular 5000 00 80 00 5 000 00 5 000 00") ∅
  = Some (<[earnings_ytd_key (L "Regular") := L "5000.00"]>
            (<[earnings_key (L "Regular") := L "5000.00"]> ∅)).
Proof.
  refine (proj1 (proj1 earnings_assignment_by_count
                   (L "Regular 5000 00 80 00 5 000 00 5 000 00") ∅
                   (L "Regular ") (L " 5000 00 80 00 5 000 00 5 000 00") _ _ _)
            (L "5000.00") (L "80.00") (L "5000.00") (L "5000.00") _);
    compute_done.
Defined.

(** ** C3 *)

(** C3, on the code: on a line that carries [Ad&D Spouse] the shorter label
    [Ad&D] is matched as well, sorts first, and writes both of its fields. *)
Theorem shorter_label_fires_on_spouse_line :
  let line := L "Ad&D Spouse -5 00 10 00" in
  sort_matches (line_matches line) = [(0, L "Ad&D"); (0, L "Ad&D Spouse")]
  /\ parse_deductions_section line !! L "Deductions Ad&D" = Some (L "-5.00")
  /\ parse_deductions_section line !! L "Deductions Ad&D YTD" = Some (L "10.00")
  /\ parse_deductions_section line !! L "Deductions Ad&D Spouse" = Some (L "-5.00")
  /\ parse_deductions_section line !! L "Deductions Ad&D Spouse YTD" = Some (L "10.00").
Proof. cbv zeta. compute_done. Qed.

(** ** C4 *)

Lemma strip_nil : strip [] = [].
Proof. reflexivity. Qed.

Lemma truthy_strip v : strip v <> [] -> truthy (Some v) && truthy (Some (strip v)) = true.
Proof.
  intros H. destruct v as [|c v]; [done|]. simpl truthy at 1.
  by destruct (strip (c :: v)).
Qed.

(** C4, on the code: a present value that parses is kept as it is and
    becomes the last value, with a diagnostic exactly when it is below the
    last value by more than 0.01; an absent or blank value is replaced by
    the last value, written as [str] of the float.  On the batch
    [100.00], absent, the second record receives [100.0], not [100.00]. *)
Theorem forward_fill_writes_float_text :
  (forall ytd_field last record v x,
     record !! ytd_field = Some v -> strip v <> [] ->
     Float.of_str (remove_char "," v) = Some x ->
     (validate_record ytd_field last record).1.1 = record
     /\ (validate_record ytd_field last record).1.2 = Some x
     /\ ((validate_record ytd_field last record).2 <> []
         <-> exists l, last = Some l /\ Float.ltb x (Float.sub l tolerance) = true))
  /\ (forall ytd_field last record,
        (record !! ytd_field = None
         \/ exists v, record !! ytd_field = Some v /\ strip v = []) ->
        validate_record ytd_field (Some last) record
        = (<[ytd_field := Float.to_str last]> record, Some last, []))
  /\ (validate_and_fix_ytd_values medicare_batch).1
     = [ {[ L "Deductions Medicare Tax YTD" := L "100.00" ]};
         {[ L "Deductions Medicare Tax YTD" := L "100.0" ]} ]
  /\ Float.to_str <$> Float.of_str (L "100.00") = Some (L "100.0").
Proof.
  split; [|split; [|split]].
  - intros ytd_field last record v x Hv Hstrip Hx. unfold validate_record.
    rewrite Hv. cbv zeta. change (default [] (Some v)) with v.
    rewrite (truthy_strip v Hstrip), Hx. cbn [fst snd].
    split; [done|]. split; [done|].
    destruct last as [l|].
    + destruct (Float.ltb x (Float.sub l tolerance)) eqn:E.
      * split; [intros _; by exists l|done].
      * split; [done|]. intros (l' & [= <-] & E'). congruence.
    + split; [done|]. by intros (l & ? & _).
  - intros ytd_field last record Hblank. unfold validate_record.
    cbv zeta.
    assert (Hfalse : truthy (Some (default [] (record !! ytd_field)))
                     && truthy (Some (strip (default [] (record !! ytd_field)))) = false).
    { destruct Hblank as [-> | (v & -> & Hv)]; [done|].
      change (default [] (Some v)) with v. rewrite Hv. apply andb_false_r. }
    by rewrite Hfalse.
  - compute_done.
  - compute_done.
Qed.

(** C4 on a record whose value fell from 100.00 to 90.00, and on an empty
    record after 100.00. *)
Lemma forward_fill_writes_float_text_witness :
  let field := L "Deductions Medicare Tax YTD" in
  let last := Some (Float.of_decimal false 100 0) in
  let record : dict := {[ field := L "90.00" ]} in
  ((validate_record field last record).1.1 = record
   /\ (validate_record field last record).1.2 = Some (Float.of_decimal false 90 0)
   /\ ((validate_record field last record).2 <> []
       <-> exists l, last = Some l
                     /\ Float.ltb (Float.of_decimal false 90 0) (Float.sub l tolerance) = true))
  /\ validate_record field (Some (Float.of_decimal false 100 0)) ∅
     = (<[field := Float.to_str (Float.of_decimal false 100 0)]> ∅,
        Some (Float.of_decimal false 100 0), []).
Proof.
  intros field last record. split.
  - apply (proj1 forward_fill_writes_float_text field last record (L "90.00")
             (Float.of_decimal false 90 0)).
    + compute_done.
    + compute_done.
    + compute_done.
  - apply (proj1 (proj2 forward_fill_writes_float_text) field
             (Float.of_decimal false 100 0) ∅).
    left. compute_done.
Defined.

(** ** C5 *)

(** C5, as stated, fails: an earnings line with the two-digit amount [50]
    stores [.50], which has no digit before the dot. *)
Lemma stored_amount_without_integer_digit :
  (parse_earnings_section bonus_example ≫= (.!! L "Earnings Bonus YTD")) = Some (L ".50")
  /\ fullmatch amount_re (L ".50") = false.
Proof. compute_done. Qed.

(** C5, amended: every amount that the earnings, deductions and
    other-benefits parsers store matches [-?\d*\.\d{2}] (an optional minus,
    digits, a dot, exactly two digits), and an amount lexed from two tokens
    or more matches [-?\d+\.\d{2}]: only the one-token shape yields an
    amount without an integer digit. *)
Theorem stored_amounts_format :
  (forall text earnings key v,
     parse_earnings_section text = Some earnings -> earnings !! key = Some v ->
     fullmatch lexed_amount_re v = true)
  /\ (forall text key v,
        parse_deductions_section text !! key = Some v ->
        fullmatch lexed_amount_re v = true)
  /\ (forall text key v,
        parse_other_benefits_section text !! key = Some v ->
        fullmatch lexed_amount_re v = true)
  /\ (forall s idx a n,
        amount_at (split_ws s) idx = Some (a, n) -> 2 <= n ->
        fullmatch amount_re a = true).
Proof.
  split; [|split; [|split]].
  - intros text earnings key v Hparse Hv.
    assert (Hd : amounts_dict earnings).
    { eapply earnings_loop_amounts; [apply amounts_dict_empty|exact Hparse]. }
    by destruct (lexed_amount_ok _ _ (Hd key v Hv)).
  - intros text key v Hv.
    assert (Hd : amounts_dict (parse_deductions_section text)).
    { unfold parse_deductions_section.
      apply (foldl_invariant (fun st => amounts_dict (deductions st))).
      - intros. by apply deductions_line_amounts.
      - apply amounts_dict_empty. }
    by destruct (lexed_amount_ok _ _ (Hd key v Hv)).
  - intros text key v Hv.
    assert (Hd : amounts_dict (parse_other_benefits_section text)).
    { unfold parse_other_benefits_section. apply (foldl_invariant amounts_dict).
      - intros. by apply benefits_line_amounts.
      - apply amounts_dict_empty. }
    by destruct (lexed_amount_ok _ _ (Hd key v Hv)).
  - intros s idx a n Hat Hn.
    destruct (amount_at_lexed _ _ _ _ (split_ws_tokens s) Hat) as [Hlex _].
    destruct (lexed_amount_ok _ _ Hlex) as (_ & Hwide & _).
    apply Hwide. by apply Nat.leb_le.
Qed.

(** C5 on one stored amount of each parser and on a three-token amount. *)
Lemma stored_amounts_format_witness :
  fullmatch lexed_amount_re (L ".50") = true
  /\ fullmatch lexed_amount_re (L "9932.40") = true
  /\ fullmatch lexed_amount_re (L "2500.00") = true
  /\ fullmatch amount_re (L "1234.56") = true.
Proof.
  split; [|split; [|split]].
  - apply (proj1 stored_amounts_format bonus_example
             {[ L "Earnings Bonus YTD" := L ".50" ]} (L "Earnings Bonus YTD"));
      compute_done.
  - apply (proj1 (proj2 stored_amounts_format) (L "Social Security Tax 9 932 40")
             (L "Deductions Social Security Tax YTD")).
    compute_done.
  - apply (proj1 (proj2 (proj2 stored_amounts_format)) (L "Espp 3/15-9/14 2 500 00")
             (L "Other Benefits Espp 3/15-9/14")).
    compute_done.
  - apply (proj2 (proj2 (proj2 stored_amounts_format)) (L "1 234 56 78 90") 0 _ 3);
      [compute_done|lia].
Defined.

(** ** C6 *)

(** C6: when a [Social Security Tax] line that has not been seen before
    yields exactly one amount and that amount has no leading minus, the
    amount becomes [Deductions Social Security Tax YTD] and nothing is
    written under [Deductions Social Security Tax]; the line
    [Social Security Tax 9 932 40] gives the year-to-date value [9932.40]
    alone. *)
Theorem social_security_single_amount_is_ytd :
  (forall line st a,
     deductions st !! L "Deductions Social Security Tax" = None ->
     deductions st !! L "Deductions Social Security Tax YTD" = None ->
     extract_amounts_from_line line (L "Social Security Tax") = (Some a, None) ->
     startswith (L "-") a = false ->
     let after := deductions (process_match line (L "Social Security Tax") st) in
     after = <[L "Deductions Social Security Tax YTD" := a]> (deductions st)
     /\ after !! L "Deductions Social Security Tax" = None)
  /\ parse_deductions_section (L "Social Security Tax 9 932 40")
     = {[ L "Deductions Social Security Tax YTD" := L "9932.40" ]}.
Proof.
  split.
  - intros line st a Hk Hy Hex Hpos after. subst after.
    rewrite (social_security_single line st a Hk Hy Hex Hpos).
    split; [done|]. by rewrite lookup_insert_ne.
  - compute_done.
Qed.

(** C6 on the line of the scenario, in a document that has no social
    security entry yet. *)
Lemma social_security_single_amount_is_ytd_witness :
  deductions (process_match (L "Social Security Tax 9 932 40")
                (L "Social Security Tax") (DState ∅ false))
  = <[L "Deductions Social Security Tax YTD" := L "9932.40"]> ∅
  /\ deductions (process_match (L "Social Security Tax 9 932 40")
                   (L "Social Security Tax") (DState ∅ false))
     !! L "Deductions Social Security Tax" = None.
Proof.
  apply (proj1 social_security_single_amount_is_ytd
           (L "Social Security Tax 9 932 40") (DState ∅ false) (L "9932.40"));
    compute_done.
Defined.

(** ** C7 *)

(** C7: the line [Espp 3/15-9/14 2 500 00] gives
    [Other Benefits Espp 3/15-9/14] equal to [2500.00] and no deductions
    entry; in the deductions scan a line whose first [Espp] is followed by
    a date fragment (whitespace, digits, a slash) leaves both [Espp]
    entries as they were. *)
Theorem espp_with_date_is_a_benefit :
  parse_other_benefits_section (L "Espp 3/15-9/14 2 500 00")
  = {[ L "Other Benefits Espp 3/15-9/14" := L "2500.00" ]}
  /\ parse_deductions_section (L "Espp 3/15-9/14 2 500 00") = ∅
  /\ (forall line pos st,
        find (L "Espp") line = Some pos ->
        matches date_fragment_re (slice (pos + 4) (pos + 20) line) = true ->
        (forall p, (p, L "Espp") ∉ line_matches line)
        /\ deductions (deductions_line line st) !! L "Deductions Espp"
           = deductions st !! L "Deductions Espp"
        /\ deductions (deductions_line line st) !! L "Deductions Espp YTD"
           = deductions st !! L "Deductions Espp YTD").
Proof.
  split; [compute_done|]. split; [compute_done|].
  intros line pos st Hfind Hdate.
  assert (Hno : forall m, m ∈ line_matches line -> m.2 <> L "Espp").
  { intros m Hm E. destruct (line_matches_elem line m Hm) as [_ Hskip].
    specialize (Hskip E). rewrite Hfind in Hskip. unfold espp_skipped in Hskip.
    simpl default in Hskip. rewrite Hdate in Hskip.
    by rewrite orb_true_r in Hskip. }
  split.
  - intros p Hp. by apply (Hno _ Hp).
  - apply (deductions_line_without_espp line st Hno).
Qed.

(** C7 on the line of the scenario. *)
Lemma espp_with_date_is_a_benefit_witness :
  (forall p, (p, L "Espp") ∉ line_matches (L "Espp 3/15-9/14 2 500 00"))
  /\ deductions (deductions_line (L "Espp 3/15-9/14 2 500 00") (DState ∅ false))
     !! L "Deductions Espp" = deductions (DState ∅ false) !! L "Deductions Espp"
  /\ deductions (deductions_line (L "Espp 3/15-9/14 2 500 00") (DState ∅ false))
     !! L "Deductions Espp YTD" = deductions (DState ∅ false) !! L "Deductions Espp YTD".
Proof.
  apply (proj2 (proj2 espp_with_date_is_a_benefit)
           (L "Espp 3/15-9/14 2 500 00") 0 (DState ∅ false));
    compute_done.
Defined.

(** ** C8 *)

(** C8, on the code: the single-amount extractor has no four-token shape;
    on [1 040 968 50] it finds nothing, where the two-amount extractor
    finds [1040968.50], and a benefit line with such an amount gives no
    field. *)
Theorem first_amount_extractor_lacks_four_token_shape :
  extract_first_amount_from_line (L "1 040 968 50") [] = None
  /\ (extract_amounts_from_line (L "1 040 968 50") []).1 = Some (L "1040968.50")
  /\ parse_other_benefits_section (L "Current Match 1 040 968 50") = ∅.
Proof. compute_done. Qed.

(** ** C9 *)

(** C9, as stated, fails: the first amount of [1 234 56 78 90] spans three
    tokens, not four. *)
Lemma first_amount_spans_three_tokens :
  first_amount (split_ws (L "1 234 56 78 90")) <> Some (L "1234.56", 4).
Proof. vm_compute. discriminate. Qed.

(** C9, amended: the cascade tries the shapes longest first and commits to
    the first that matches, whatever the shorter shapes would do; lexing
    [1 234 56 78 90] takes three tokens as [1234.56] and then two more as
    [78.90] (not [78] alone, although the one-token shape matches it), so
    the two amounts are [1234.56] and [78.90]. *)
Theorem lexing_is_length_first :
  (forall tokens idx,
     idx + 3 < length tokens ->
     matches shape4 (join (L " ") (slice idx (idx + 4) tokens)) = true ->
     amount_at tokens idx
     = Some (clean_amount (join (L " ") (slice idx (idx + 4) tokens)), 4))
  /\ (forall tokens idx,
        idx + 2 < length tokens ->
        (idx + 3 <? length tokens)
          && matches shape4 (join (L " ") (slice idx (idx + 4) tokens)) = false ->
        matches shape3 (join (L " ") (slice idx (idx + 3) tokens)) = true ->
        amount_at tokens idx
        = Some (clean_amount (join (L " ") (slice idx (idx + 3) tokens)), 3))
  /\ (forall tokens idx,
        idx + 1 < length tokens ->
        (idx + 3 <? length tokens)
          && matches shape4 (join (L " ") (slice idx (idx + 4) tokens)) = false ->
        (idx + 2 <? length tokens)
          && matches shape3 (join (L " ") (slice idx (idx + 3) tokens)) = false ->
        matches shape2 (join (L " ") (slice idx (idx + 2) tokens)) = true ->
        amount_at tokens idx
        = Some (clean_amount (join (L " ") (slice idx (idx + 2) tokens)), 2))
  /\ (let tokens := split_ws (L "1 234 56 78 90") in
      first_amount tokens = Some (L "1234.56", 3)
      /\ amount_at tokens 3 = Some (L "78.90", 2)
      /\ matches shape1 (default [] (tokens !! 3)) = true
      /\ extract_amounts_from_line (L "1 234 56 78 90") []
         = (Some (L "1234.56"), Some (L "78.90"))).
Proof.
  split; [exact amount_at_shape4|]. split; [exact amount_at_shape3|].
  split; [exact amount_at_shape2|]. cbv zeta. compute_done.
Qed.

(** C9 on a run that opens with four tokens, with three, and with two. *)
Lemma lexing_is_length_first_witness :
  amount_at (split_ws (L "1 040 968 50 7 00")) 0 = Some (L "1040968.50", 4)
  /\ amount_at (split_ws (L "1 234 56 78 90")) 0 = Some (L "1234.56", 3)
  /\ amount_at (split_ws (L "1 234 56 78 90")) 3 = Some (L "78.90", 2).
Proof.
  split; [|split].
  - apply (proj1 lexing_is_length_first (split_ws (L "1 040 968 50 7 00")) 0);
      vm_compute; [lia|reflexivity].
  - apply (proj1 (proj2 lexing_is_length_first) (split_ws (L "1 234 56 78 90")) 0);
      vm_compute; [lia|reflexivity|reflexivity].
  - apply (proj1 (proj2 (proj2 lexing_is_length_first))
             (split_ws (L "1 234 56 78 90")) 3);
      vm_compute; [lia|reflexivity|reflexivity|reflexivity].
Defined.

(** ** C10 *)

(** C10: the validator returns as many records as it was given, in the
    same order, and every field of every record whose name does not end in
    [ YTD] has the value it had before. *)
Theorem validator_changes_ytd_keys_only (data : list dict) :
  length (validate_and_fix_ytd_values data).1 = length data
  /\ forall i record record' key,
       data !! i = Some record ->
       (validate_and_fix_ytd_values data).1 !! i = Some record' ->
       endswith (L " YTD") key = false ->
       record' !! key = record !! key.
Proof.
  pose proof (validate_frame data) as H. split.
  - symmetry. by eapply Forall2_length.
  - intros i record record' key Hi Hi' Hkey.
    by apply (Forall2_lookup_lr _ _ _ _ _ _ H Hi Hi').
Qed.

(** C10 on a batch whose second record is forward-filled: its
    [Source File] is untouched. *)
Lemma validator_changes_ytd_keys_only_witness :
  let first : dict := {[ L "Source File" := L "a.pdf";
                         L "Deductions Medicare Tax YTD" := L "100.00" ]} in
  let second : dict := {[ L "Source File" := L "b.pdf" ]} in
  let filled : dict := {[ L "Source File" := L "b.pdf";
                          L "Deductions Medicare Tax YTD" := L "100.0" ]} in
  filled !! L "Source File" = second !! L "Source File".
Proof.
  intros first second filled.
  apply (proj2 (validator_changes_ytd_keys_only [first; second])
           1 second filled (L "Source File")); compute_done.
Defined.

(** * Further properties of the code *)

(** ** [clean_amount] *)

Lemma clean_amount_stages s : clean_amount s = signed_dotted (cleaned_text s).
Proof.
  unfold clean_amount. fold (cleaned_text s). unfold signed_dotted.
  destruct (cleaned_text s) as [|c t]; [done|]. cbv zeta.
  by destruct (startswith (L "-") (c :: t)).
Qed.

Lemma remove_char_comm a b s :
  remove_char a (remove_char b s) = remove_char b (remove_char a s).
Proof.
  induction s as [|c s IH]; [done|]. simpl.
  destruct (Char.is_char b c) eqn:Eb, (Char.is_char a c) eqn:Ea; simpl;
    rewrite ?Ea, ?Eb, ?IH; done.
Qed.

Lemma remove_char_idemp a s : remove_char a (remove_char a s) = remove_char a s.
Proof. apply remove_char_id, remove_char_absent. Qed.

Lemma cleaned_text_separator s1 c s2 :
  separator c -> cleaned_text (s1 ++ c :: s2) = cleaned_text (s1 ++ s2).
Proof.
  intros Hc. unfold cleaned_text. do 2 f_equal.
  change (c :: s2) with ([c] ++ s2). rewrite !remove_char_app.
  assert (remove_char "*" (remove_char "," (remove_char " " [c])) = []) as ->; [|done].
  destruct Hc as [-> | [-> | ->]]; reflexivity.
Qed.

(** X1: a space, a comma or an asterisk anywhere in the text does not
    change what [clean_amount] returns. *)
Theorem clean_amount_ignores_separators s1 c s2 :
  separator c -> clean_amount (s1 ++ c :: s2) = clean_amount (s1 ++ s2).
Proof. intros Hc. by rewrite !clean_amount_stages, cleaned_text_separator. Qed.

(** X1 on [1,23456] against [123456]. *)
Lemma clean_amount_ignores_separators_witness :
  clean_amount (L "1" ++ ","%char :: L "23456") = clean_amount (L "1" ++ L "23456").
Proof. apply clean_amount_ignores_separators. right; by left. Defined.

(** *** Stripped text *)

Lemma lstrip_idemp s : lstrip (lstrip s) = lstrip s.
Proof.
  induction s as [|c s IH]; [done|]. simpl.
  destruct (Char.isspace c) eqn:E; [done|]. simpl. by rewrite E.
Qed.

Lemma lstrip_length s : length (lstrip s) <= length s.
Proof.
  induction s as [|c s IH]; [done|]. simpl. destruct (Char.isspace c); simpl; lia.
Qed.

Lemma rstrip_idemp s : rstrip (rstrip s) = rstrip s.
Proof. unfold rstrip. by rewrite rev_involutive, lstrip_idemp. Qed.

Lemma rstrip_space s c : Char.isspace c = true -> rstrip (s ++ [c]) = rstrip s.
Proof.
  intros H. unfold rstrip. rewrite rev_app_distr. simpl. by rewrite H.
Qed.

Lemma rstrip_length s : length (rstrip s) <= length s.
Proof.
  unfold rstrip. rewrite length_rev. etrans; [apply lstrip_length|]. by rewrite length_rev.
Qed.

(** The text that [rstrip] leaves as it is: the empty text and the text
    that ends with a character other than whitespace. *)
Lemma rstrip_fix s :
  rstrip s = s <-> s = [] \/ exists x c, s = x ++ [c] /\ Char.isspace c = false.
Proof.
  split.
  - intros H. induction s as [|a x _] using rev_ind; [by left|]. right.
    exists x, a. split; [done|].
    destruct (Char.isspace a) eqn:E; [|done].
    rewrite rstrip_space in H by done.
    pose proof (rstrip_length x) as Hlen. rewrite H, length_app in Hlen. simpl in Hlen. lia.
  - intros [-> | (x & c & -> & Hc)]; [done|by apply rstrip_last].
Qed.

Lemma lstrip_fix s :
  lstrip s = s <-> s = [] \/ exists c x, s = c :: x /\ Char.isspace c = false.
Proof.
  split.
  - intros H. destruct s as [|c x]; [by left|]. right. exists c, x. split; [done|].
    destruct (Char.isspace c) eqn:E; [|done]. simpl in H. rewrite E in H.
    pose proof (lstrip_length x) as Hlen. rewrite H in Hlen. simpl in Hlen. lia.
  - intros [-> | (c & x & -> & Hc)]; [done|by apply lstrip_head].
Qed.

Lemma lstrip_head_cases s :
  lstrip s = [] \/ exists c x, lstrip s = c :: x /\ Char.isspace c = false.
Proof.
  pose proof (lstrip_idemp s) as H. apply lstrip_fix in H as [H | H]; [by left|by right].
Qed.

Lemma rstrip_cons c s : Char.isspace c = false -> rstrip (c :: s) = c :: rstrip s.
Proof.
  intros Hc. unfold rstrip. simpl.
  assert (Hsnoc : forall x, lstrip (x ++ [c]) = lstrip x ++ [c]).
  { induction x as [|a x IH]; simpl; [by rewrite Hc|].
    by destruct (Char.isspace a). }
  by rewrite Hsnoc, rev_app_distr.
Qed.

(** [strip] returns stripped text. *)
Lemma strip_stripped s : lstrip (strip s) = strip s /\ rstrip (strip s) = strip s.
Proof.
  unfold strip. split; [|apply rstrip_idemp].
  destruct (lstrip_head_cases s) as [-> | (c & x & -> & Hc)]; [done|].
  rewrite rstrip_cons by done. by apply lstrip_head.
Qed.

Lemma strip_fix s : lstrip s = s -> rstrip s = s -> strip s = s.
Proof. intros Hl Hr. unfold strip. by rewrite Hl, Hr. Qed.

Lemma strip_nil_iff s : strip s = [] <-> Forall (fun c => Char.isspace c = true) s.
Proof.
  unfold strip. split.
  - intros H. induction s as [|c s IH]; [constructor|].
    simpl in H. destruct (Char.isspace c) eqn:E.
    + constructor; [done|]. by apply IH.
    + by rewrite rstrip_cons in H.
  - induction 1 as [|c s Hc _ IH]; [done|]. simpl. by rewrite Hc.
Qed.

Lemma rstrip_newline_fix s : rstrip s = s -> rstrip_char "010" s = s.
Proof.
  intros [-> | (x & c & -> & Hc)]%rstrip_fix; [done|].
  unfold rstrip_char. rewrite rev_app_distr. simpl.
  assert (Char.is_char "010" c = false) as ->.
  { apply is_char_false. intros ->. done. }
  simpl. by rewrite rev_involutive.
Qed.

Lemma cleaned_text_strip s :
  cleaned_text s = strip (remove_char "*" (remove_char "," (remove_char " " s))).
Proof. unfold cleaned_text. apply rstrip_newline_fix, strip_stripped. Qed.

Lemma Forall_remove_char (P : ascii -> Prop) d s :
  Forall P (remove_char d s) <-> Forall (fun c => c = d \/ P c) s.
Proof.
  induction s as [|c s IH]; [split; constructor|]. simpl.
  destruct (Char.is_char d c) eqn:E.
  - apply is_char_true in E as ->. rewrite IH, Forall_cons. naive_solver.
  - apply is_char_false in E. rewrite !Forall_cons, IH. naive_solver.
Qed.

(** X2: [clean_amount] returns the empty string exactly on the texts made
    of whitespace, commas and asterisks alone. *)
Theorem clean_amount_empty_iff s :
  clean_amount s = []
  <-> Forall (fun c => Char.isspace c = true \/ c = ","%char \/ c = "*"%char) s.
Proof.
  rewrite clean_amount_stages, cleaned_text_strip.
  set (x := remove_char "*" _).
  assert (Hx : strip x = [] <->
               Forall (fun c => Char.isspace c = true \/ c = ","%char \/ c = "*"%char) s).
  { rewrite strip_nil_iff. subst x. rewrite !Forall_remove_char.
    apply Forall_iff. intros c. split; [|naive_solver].
    intros [-> | [-> | [-> | ?]]]; auto. }
  rewrite <- Hx. split; [|by intros ->].
  destruct (strip x) as [|c t]; [done|]. unfold signed_dotted, dotted.
  destruct (startswith _ _); [done|].
  destruct (_ && _); [|done]. intros H.
  apply (f_equal length) in H. rewrite !length_app in H. simpl in H. lia.
Qed.

(** *** [clean_amount] is idempotent *)

Lemma isdigit_plain c :
  Char.isdigit c = true ->
  Char.isspace c = false /\ c <> " "%char /\ c <> ","%char /\ c <> "*"%char
  /\ c <> "-"%char /\ c <> "."%char /\ c <> "010"%char.
Proof. by_cases_on_char c. Qed.

(** Either nothing is inserted, or the text is a sign and digits and the
    point goes before the last two. *)
Lemma signed_dotted_cases t :
  signed_dotted t = t
  \/ exists sign b1 b2,
       sign_text sign /\ length b2 = 2
       /\ Forall (fun c => Char.isdigit c = true) (b1 ++ b2)
       /\ signed_dotted t = sign ++ b1 ++ L "." ++ b2.
Proof.
  assert (Hdot : forall b,
            dotted b = b
            \/ exists b1 b2, length b2 = 2
                 /\ Forall (fun c => Char.isdigit c = true) (b1 ++ b2)
                 /\ dotted b = b1 ++ L "." ++ b2).
  { intros b. unfold dotted.
    destruct (_ && _) eqn:E; [|by left]. right.
    apply andb_prop in E as [E Hdig]. apply andb_prop in E as [_ Hlen].
    apply Nat.leb_le in Hlen. unfold str_isdigit in Hdig.
    apply andb_prop in Hdig as [_ Hdig].
    exists (take (length b - 2) b), (drop (length b - 2) b).
    rewrite take_drop, length_drop. split; [lia|]. split; [|done].
    apply Forall_forall. intros c Hc. rewrite forallb_forall in Hdig.
    by apply Hdig, list_elem_of_In. }
  unfold signed_dotted. destruct t as [|c t]; [by left|].
  destruct (startswith (L "-") (c :: t)) eqn:E.
  - simpl in E. apply andb_prop in E as [E _]. apply bool_decide_eq_true_1 in E as <-.
    change (drop 1 ("-"%char :: t)) with t.
    destruct (Hdot t) as [-> | (b1 & b2 & Hlen & Hdig & ->)]; [by left|].
    right. exists (L "-"), b1, b2. repeat split; [by right|done|done].
  - destruct (Hdot (c :: t)) as [-> | (b1 & b2 & Hlen & Hdig & ->)]; [by left|].
    right. exists [], b1, b2. repeat split; [by left|done|done].
Qed.

Lemma cleaned_text_fix t :
  Forall (fun c => c <> " "%char /\ c <> ","%char /\ c <> "*"%char) t ->
  lstrip t = t -> rstrip t = t -> cleaned_text t = t.
Proof.
  intros Hsep Hl Hr. rewrite cleaned_text_strip.
  rewrite (remove_char_id " " t), (remove_char_id "," t), (remove_char_id "*" t);
    [by apply strip_fix|..]; (eapply Forall_impl; [exact Hsep|]; simpl; tauto).
Qed.

Lemma cleaned_text_stable s : cleaned_text (cleaned_text s) = cleaned_text s.
Proof.
  apply cleaned_text_fix.
  - rewrite cleaned_text_strip.
    assert (Hx : Forall (fun c => c <> " "%char /\ c <> ","%char /\ c <> "*"%char)
                   (remove_char "*" (remove_char "," (remove_char " " s)))).
    { rewrite !Forall_remove_char. apply Forall_forall. intros c _.
      destruct (decide (c = " "%char)); [by left|right].
      destruct (decide (c = ","%char)); [by left|right].
      destruct (decide (c = "*"%char)); [by left|by right]. }
    revert Hx. generalize (remove_char "*" (remove_char "," (remove_char " " s))).
    intros x Hx. unfold strip, rstrip.
    apply Forall_rev. assert (Hsuffix : forall y, Forall
      (fun c => c <> " "%char /\ c <> ","%char /\ c <> "*"%char) y ->
      Forall (fun c => c <> " "%char /\ c <> ","%char /\ c <> "*"%char) (lstrip y)).
    { induction 1 as [|c y Hc Hy IH]; [constructor|]. simpl.
      destruct (Char.isspace c); [done|by constructor]. }
    by apply Hsuffix, Forall_rev, Hsuffix.
  - rewrite cleaned_text_strip. apply strip_stripped.
  - rewrite cleaned_text_strip. apply strip_stripped.
Qed.

(** X3: cleaning an amount that is already clean changes nothing. *)
Theorem clean_amount_idempotent s : clean_amount (clean_amount s) = clean_amount s.
Proof.
  rewrite (clean_amount_stages s).
  destruct (signed_dotted_cases (cleaned_text s))
    as [E | (sign & b1 & b2 & Hsign & Hlen & Hdig & E)].
  - by rewrite E, clean_amount_stages, cleaned_text_stable.
  - rewrite E. set (r := sign ++ b1 ++ L "." ++ b2).
    assert (Hplain : Forall (fun c => Char.isspace c = false /\ c <> " "%char
                        /\ c <> ","%char /\ c <> "*"%char /\ c <> "010"%char) r).
    { subst r. apply Forall_app in Hdig as [H1 H2].
      rewrite !Forall_app. repeat split.
      - destruct Hsign as [-> | ->]; by repeat constructor.
      - eapply Forall_impl; [exact H1|]. intros c Hc. apply isdigit_plain in Hc. tauto.
      - by repeat constructor.
      - eapply Forall_impl; [exact H2|]. intros c Hc. apply isdigit_plain in Hc. tauto. }
    assert (Hclean : cleaned_text r = r).
    { unfold cleaned_text.
      rewrite (remove_char_id " " r), (remove_char_id "," r), (remove_char_id "*" r)
        by (eapply Forall_impl; [exact Hplain|]; simpl; tauto).
      rewrite strip_id by (eapply Forall_impl; [exact Hplain|]; simpl; tauto).
      apply rstrip_char_id. eapply Forall_impl; [exact Hplain|]; simpl; tauto. }
    rewrite clean_amount_stages, Hclean.
    assert (Hnot : dotted (b1 ++ L "." ++ b2) = b1 ++ L "." ++ b2).
    { unfold dotted, str_isdigit.
      assert (forallb Char.isdigit (b1 ++ L "." ++ b2) = false) as ->;
        [|by rewrite !andb_false_r].
      rewrite forallb_app. simpl. apply andb_false_r. }
    subst r. destruct Hsign as [-> | ->].
    + unfold signed_dotted. change ([] ++ b1 ++ L "." ++ b2) with (b1 ++ L "." ++ b2).
      rewrite Hnot.
      destruct (b1 ++ L "." ++ b2) as [|c x] eqn:Ex; [by destruct b1|].
      assert (startswith (L "-") (c :: x) = false) as ->; [|done].
      simpl. apply andb_false_intro1, bool_decide_eq_false_2. intros <-.
      destruct b1 as [|d b1]; [done|]. injection Ex as -> _.
      apply Forall_app in Hdig as [H1 _]. by inversion H1.
    + unfold signed_dotted. change (L "-" ++ b1 ++ L "." ++ b2)
        with ("-"%char :: b1 ++ L "." ++ b2).
      change (startswith (L "-") ("-"%char :: b1 ++ L "." ++ b2))
        with (bool_decide ("-"%char = "-"%char) && true).
      rewrite bool_decide_eq_true_2 by done. cbn [andb].
      change (drop 1 ("-"%char :: b1 ++ L "." ++ b2)) with (b1 ++ L "." ++ b2).
      by rewrite Hnot.
Qed.

(** ** The amount extractors *)

(** *** [str.split()] ignores whitespace at the ends *)

Lemma split_ws_lstrip s : split_ws (lstrip s) = split_ws s.
Proof.
  induction s as [|c s IH]; [done|].
  change (lstrip (c :: s)) with (if Char.isspace c then lstrip s else c :: s).
  destruct (Char.isspace c) eqn:E; [|done]. by rewrite split_ws_space.
Qed.

Lemma split_ws_trailing_space s c :
  Char.isspace c = true -> split_ws (s ++ [c]) = split_ws s.
Proof.
  intros Hc. induction s as [|a s IH]; [simpl; by rewrite Hc|].
  destruct (Char.isspace a) eqn:Ea.
  { change ((a :: s) ++ [c]) with (a :: (s ++ [c])). by rewrite !split_ws_space. }
  destruct s as [|b s].
  - simpl. by rewrite Ea, Hc.
  - change ((a :: b :: s) ++ [c]) with (a :: b :: (s ++ [c])).
    destruct (Char.isspace b) eqn:Eb.
    + change (split_ws (a :: b :: s ++ [c]))
        with (if Char.isspace a then split_ws (b :: s ++ [c])
              else if Char.isspace b then [a] :: split_ws (b :: s ++ [c])
              else match split_ws (b :: s ++ [c]) with
                   | t :: ts => (a :: t) :: ts
                   | [] => [[a]]
                   end).
      change (split_ws (a :: b :: s))
        with (if Char.isspace a then split_ws (b :: s)
              else if Char.isspace b then [a] :: split_ws (b :: s)
              else match split_ws (b :: s) with
                   | t :: ts => (a :: t) :: ts
                   | [] => [[a]]
                   end).
      rewrite Ea, Eb. f_equal. exact IH.
    + rewrite !split_ws_cons2 by done.
      change (b :: s ++ [c]) with ((b :: s) ++ [c]). by rewrite IH.
Qed.

Lemma rstrip_snoc s c :
  rstrip (s ++ [c]) = if Char.isspace c then rstrip s else s ++ [c].
Proof.
  destruct (Char.isspace c) eqn:E; [by apply rstrip_space|by apply rstrip_last].
Qed.

Lemma split_ws_rstrip s : split_ws (rstrip s) = split_ws s.
Proof.
  induction s as [|c s IH] using rev_ind; [done|].
  rewrite rstrip_snoc. destruct (Char.isspace c) eqn:E; [|done].
  by rewrite IH, split_ws_trailing_space.
Qed.

Lemma split_ws_strip s : split_ws (strip s) = split_ws s.
Proof. unfold strip. by rewrite split_ws_rstrip, split_ws_lstrip. Qed.

(** *** No amount starts at a word without digits *)

(** Every shape begins with an optional minus sign and a digit. *)
Lemma shape_starts_with_digit r lo hi s :
  1 <= lo ->
  matches (opt (Char.is_char "-") :: Rep Char.isdecimal lo hi :: r) s = true ->
  exists sign d s', s = sign ++ d :: s' /\ sign_text sign /\ Char.isdecimal d = true.
Proof.
  intros Hlo [rest Hp]%matches_true. cbn [parses opt] in Hp.
  destruct Hp as (sign & s1 & -> & Hsign & _ & Hsign1 & ds & s2 & -> & Hds & Hlen & _ & _).
  destruct ds as [|d ds]; [simpl in Hlen; lia|].
  exists sign, d, (ds ++ s2). split; [done|]. split.
  - destruct (opt_char_cases _ _ Hsign Hsign1) as [-> | ->]; [by left|by right].
  - simpl in Hds. by apply andb_prop in Hds as [? _].
Qed.

Lemma no_shape_at_word shape w tail :
  shape ∈ [shape4; shape3; shape2; shape1] ->
  token w -> Forall (fun c => Char.isdecimal c = false) w ->
  match tail with [] => True | c :: _ => c = " "%char end ->
  matches shape (w ++ tail) = false.
Proof.
  intros Hshape [Hne _] Hw Htail.
  destruct (matches shape (w ++ tail)) eqn:E; [exfalso|done].
  assert (Hstart : exists sign d s', w ++ tail = sign ++ d :: s' /\ sign_text sign
                                     /\ Char.isdecimal d = true).
  { repeat (apply elem_of_cons in Hshape as [-> | Hshape]);
      [eapply shape_starts_with_digit; [|exact E]; lia..|by apply elem_of_nil in Hshape]. }
  destruct Hstart as (sign & d & s' & Eq & Hsign & Hd).
  destruct w as [|a w]; [done|]. inversion Hw as [|? ? Ha Hw']; subst.
  destruct Hsign as [-> | ->].
  - injection Eq as -> _. congruence.
  - injection Eq as -> Eq. destruct w as [|b w].
    + destruct tail as [|c tail]; [done|]. injection Eq as -> _. by subst.
    + injection Eq as -> _. inversion Hw'; subst. congruence.
Qed.

Lemma join_cons_tail w (more : list str) :
  exists tail, join (L " ") (w :: more) = w ++ tail
               /\ match tail with [] => True | c :: _ => c = " "%char end.
Proof.
  destruct more as [|t more].
  - exists []. by rewrite app_nil_r.
  - by exists (L " " ++ join (L " ") (t :: more)).
Qed.

Lemma slice_at_word (tokens : list str) idx k w :
  tokens !! idx = Some w ->
  slice idx (idx + S k) tokens = w :: take k (drop (S idx) tokens).
Proof.
  intros Hw. unfold slice. replace (idx + S k - idx) with (S k) by lia.
  by rewrite (drop_S _ _ _ Hw).
Qed.

Lemma amount_at_word tokens idx w :
  tokens !! idx = Some w -> token w ->
  Forall (fun c => Char.isdecimal c = false) w ->
  amount_at tokens idx = None.
Proof.
  intros Hidx Hw Hdig. unfold amount_at.
  assert (Hno : forall shape k, shape ∈ [shape4; shape3; shape2; shape1] ->
            matches shape (join (L " ") (slice idx (idx + S k) tokens)) = false).
  { intros shape k Hshape. rewrite (slice_at_word _ _ _ _ Hidx).
    destruct (join_cons_tail w (take k (drop (S idx) tokens))) as (tail & -> & Htail).
    by apply no_shape_at_word. }
  rewrite (Hno shape4 3), (Hno shape3 2), (Hno shape2 1), !andb_false_r by set_solver.
  rewrite Hidx. change (default [] (Some w)) with w.
  assert (matches shape1 w = false) as ->.
  { rewrite <- (app_nil_r w). apply no_shape_at_word; [set_solver|done..]. }
  by destruct (negb _).
Qed.

(** *** Skipping a leading word *)

Lemma amount_at_shift w tokens idx :
  amount_at (w :: tokens) (S idx) = amount_at tokens idx.
Proof. reflexivity. Qed.

Lemma first_amount_loop_shift fuel w tokens idx :
  first_amount_loop fuel (w :: tokens) (S idx)
  = (fun ae => (ae.1, S ae.2)) <$> first_amount_loop fuel tokens idx.
Proof.
  revert idx. induction fuel as [|fuel IH]; intros idx; [done|].
  cbn [first_amount_loop]. rewrite amount_at_shift.
  change (S idx <? length (w :: tokens)) with (idx <? length tokens).
  destruct (negb (idx <? length tokens)); [done|].
  destruct (amount_at tokens idx) as [[a k]|]; [done|]. apply IH.
Qed.

Lemma extract_amounts_skip_word w tokens :
  token w -> Forall (fun c => Char.isdecimal c = false) w ->
  extract_amounts_from_tokens (w :: tokens) = extract_amounts_from_tokens tokens.
Proof.
  intros Hw Hdig. unfold extract_amounts_from_tokens, first_amount.
  cbn [length first_amount_loop].
  change (negb (0 <? S (length tokens))) with false. cbv iota.
  rewrite (amount_at_word (w :: tokens) 0 w) by done.
  rewrite first_amount_loop_shift.
  destruct tokens as [|t tokens]; [done|].
  destruct (first_amount_loop _ (t :: tokens) 0) as [[a e]|]; [|done].
  simpl. unfold try_extract_at. by rewrite amount_at_shift.
Qed.

(** X4: a leading word that contains no digit is skipped by
    [extract_amounts_from_line]: the two amounts are those of the rest of
    the line. *)
Theorem extract_amounts_skips_leading_word w line :
  token w -> Forall (fun c => Char.isdecimal c = false) w ->
  extract_amounts_from_line (w ++ L " " ++ line) []
  = extract_amounts_from_line line [].
Proof.
  intros Hw Hdig. unfold extract_amounts_from_line, remainder_after.
  change (negb (bool_decide ([] = [])) && _) with false. cbv iota.
  change (L " " ++ line) with (" "%char :: line).
  rewrite !split_ws_strip, split_ws_token by done.
  rewrite split_ws_space by done. by apply extract_amounts_skip_word.
Qed.

(** X4 on a line that opens with the word [Bonus]. *)
Lemma extract_amounts_skips_leading_word_witness :
  extract_amounts_from_line (L "Bonus" ++ L " " ++ L "1 234 56 78 90") []
  = extract_amounts_from_line (L "1 234 56 78 90") [].
Proof. apply extract_amounts_skips_leading_word; compute_done. Defined.

(** X5: [extract_first_amount_from_line] does not skip: when the text
    after the description opens with a word that contains no digit, it
    returns nothing, whatever follows. *)
Theorem extract_first_amount_stops_at_leading_word w line :
  token w -> Forall (fun c => Char.isdecimal c = false) w ->
  extract_first_amount_from_line (w ++ L " " ++ line) [] = None.
Proof.
  intros Hw Hdig. unfold extract_first_amount_from_line, remainder_after.
  change (negb (bool_decide ([] = [])) && _) with false. cbv iota.
  change (L " " ++ line) with (" "%char :: line).
  rewrite split_ws_strip, split_ws_token by done. rewrite split_ws_space by done.
  set (ts := split_ws line).
  assert (Hno : forall k, matches (nth k [shape1; shape2; shape3] shape1)
                            (join (L " ") (take (S k) (w :: ts))) = false).
  { intros k. cbn [take].
    destruct (join_cons_tail w (take k ts)) as (tail & -> & Htail).
    apply no_shape_at_word; [|done..].
    destruct k as [|[|[|k]]]; cbn [nth]; rewrite !elem_of_cons; auto 10.
    destruct k; auto 10. }
  pose proof (Hno 2) as H3. pose proof (Hno 1) as H2. cbn [nth] in H3, H2.
  rewrite H3, H2, !andb_false_r.
  change (default [] ((w :: ts) !! 0)) with w.
  assert (matches shape1 w = false) as ->; [|by rewrite andb_false_r].
  rewrite <- (app_nil_r w). apply no_shape_at_word; [set_solver|done..].
Qed.

(** X5 on the same line. *)
Lemma extract_first_amount_stops_at_leading_word_witness :
  extract_first_amount_from_line (L "Bonus" ++ L " " ++ L "1 234 56 78 90") [] = None.
Proof. apply extract_first_amount_stops_at_leading_word; compute_done. Defined.

(** *** The description at the start of a line *)

Lemma startswith_app p s : startswith p (p ++ s) = true.
Proof.
  induction p as [|c p IH]; [done|]. simpl. by rewrite bool_decide_eq_true_2, IH.
Qed.

Lemma remainder_after_prefix description rest :
  remainder_after (description ++ rest) description = remainder_after rest [].
Proof.
  unfold remainder_after. destruct description as [|c d]; [done|].
  rewrite bool_decide_eq_false_2 by done.
  assert (Hfind : find (c :: d) ((c :: d) ++ rest) = Some 0).
  { pose proof (startswith_app (c :: d) rest) as Hs. unfold find.
    destruct ((c :: d) ++ rest); cbn [find_from]; by rewrite Hs. }
  unfold contains, after_first. rewrite Hfind.
  rewrite bool_decide_eq_true_2 by (by eexists). cbn [negb andb default].
  by rewrite Nat.add_0_l, drop_app_length.
Qed.

(** X6: when a line opens with its description, both extractors lex the
    rest of the line and nothing of the description, even when the
    description holds digits. *)
Theorem extractors_drop_leading_description description rest :
  extract_amounts_from_line (description ++ rest) description
  = extract_amounts_from_line rest []
  /\ extract_first_amount_from_line (description ++ rest) description
     = extract_first_amount_from_line rest [].
Proof.
  unfold extract_amounts_from_line, extract_first_amount_from_line.
  by rewrite remainder_after_prefix.
Qed.

(** ** The earnings parser *)

Lemma Forall_lstrip (P : ascii -> Prop) s : Forall P s -> Forall P (lstrip s).
Proof.
  induction 1 as [|c s Hc Hs IH]; simpl; [done|].
  destruct (Char.isspace c); [done|by constructor].
Qed.

Lemma Forall_strip (P : ascii -> Prop) s : Forall P s -> Forall P (strip s).
Proof.
  intros H. unfold strip, rstrip.
  apply Forall_rev, Forall_lstrip, Forall_rev, Forall_lstrip, H.
Qed.

(** *** The greedy repetition takes the longest run first *)

Lemma class_span (cls : ascii -> bool) (s : str) :
  exists pre rest, s = pre ++ rest /\ forallb cls pre = true /\
    match rest with [] => True | c :: _ => cls c = false end.
Proof.
  induction s as [|c s (pre & rest & -> & Hp & Hr)].
  - by exists [], [].
  - destruct (cls c) eqn:E.
    + exists (c :: pre), rest. simpl. by rewrite E, Hp.
    + by exists [], (c :: pre ++ rest).
Qed.

Lemma reps_greedy cls pre rest lo :
  forallb cls pre = true -> lo <= length pre ->
  match rest with [] => True | c :: _ => cls c = false end ->
  exists l, reps cls lo None (pre ++ rest) = rest :: l.
Proof.
  revert lo. induction pre as [|a pre IH]; intros lo Hp Hlo Hr.
  - simpl in Hlo. assert (lo = 0) as -> by lia. exists [].
    destruct rest as [|c r]; simpl; [done|]. by rewrite Hr.
  - simpl in Hp. apply andb_true_iff in Hp as [Ha Hp].
    destruct (IH (Nat.pred lo) Hp ltac:(simpl in Hlo; lia) Hr) as [l Hl].
    simpl. rewrite Ha. simpl. simpl in Hl. rewrite Hl. by eexists.
Qed.

Lemma re_match_plus cls pre rest :
  pre <> [] -> forallb cls pre = true ->
  match rest with [] => True | c :: _ => cls c = false end ->
  re_match [plus cls] (pre ++ rest) = Some pre.
Proof.
  intros Hne Hp Hr.
  destruct (reps_greedy cls pre rest 1 Hp) as [l Hl]; [|done|].
  { destruct pre; [done|simpl; lia]. }
  unfold re_match, plus. cbn [re_run]. rewrite Hl. cbn [flat_map re_run app].
  f_equal. rewrite length_app.
  replace (length pre + length rest - length rest) with (length pre) by lia.
  by rewrite take_app_length.
Qed.

Lemma re_match_plus_none cls rest :
  match rest with [] => True | c :: _ => cls c = false end ->
  re_match [plus cls] rest = None.
Proof.
  intros Hr. unfold re_match, plus. destruct rest as [|c r]; simpl; [done|].
  by rewrite Hr.
Qed.

Lemma find_nil s : find [] s = Some 0.
Proof. by destruct s. Qed.

Lemma contains_after_first sep s :
  sep <> [] -> contains sep s = true -> is_Some (after_first sep s).
Proof.
  intros Hne H. unfold contains in H. apply bool_decide_eq_true_1 in H as [pos Hpos].
  unfold after_first. destruct sep; [done|]. rewrite Hpos. by eexists.
Qed.


Lemma earnings_line_label pre rest earnings :
  pre <> [] -> forallb Char.islabel pre = true ->
  match rest with [] => True | c :: _ => Char.islabel c = false end ->
  earnings_line (pre ++ rest) earnings = None <-> strip pre = [].
Proof.
  intros Hne Hp Hr. unfold earnings_line, label_re.
  rewrite re_match_plus by done. cbn zeta.
  destruct (strip pre) as [|c d] eqn:E.
  - rewrite bool_decide_eq_false_2.
    2:{ intros H. cbn in H. rewrite !elem_of_cons in H.
        destruct H as [H | [H | H]]; [done|done|by apply elem_of_nil in H]. }
    unfold contains. rewrite find_nil. by rewrite bool_decide_eq_true_2 by (by eexists).
  - destruct (bool_decide _); [done|].
    destruct (contains (c :: d) (pre ++ rest)) eqn:C; [|done].
    destruct (contains_after_first (c :: d) (pre ++ rest)) as [x Hx]; [done|done|].
    by rewrite Hx.
Qed.


(** *** The keys of the earnings dictionary *)

Lemma assign_earnings_keys (description : str) (amounts : list str) (earnings : dict) :
  earnings_label description ->
  (forall key, is_Some (earnings !! key) -> earnings_field key) ->
  forall key, is_Some (assign_earnings description amounts earnings !! key) ->
              earnings_field key.
Proof.
  intros Hl He key. unfold assign_earnings.
  assert (Hk : earnings_field (earnings_key description)) by (exists description; auto).
  assert (Hy : earnings_field (earnings_ytd_key description)) by (exists description; auto).
  repeat case_match; rewrite ?lookup_insert_is_Some; naive_solver.
Qed.

Lemma earnings_line_keys (line : str) (earnings earnings' : dict) :
  earnings_line line earnings = Some earnings' ->
  (forall key, is_Some (earnings !! key) -> earnings_field key) ->
  forall key, is_Some (earnings' !! key) -> earnings_field key.
Proof.
  intros Hline He.
  destruct (class_span Char.islabel line) as (pre & rest & -> & Hp & Hr).
  destruct pre as [|a pre].
  { unfold earnings_line, label_re in Hline. simpl app in Hline.
    rewrite re_match_plus_none in Hline by done. by injection Hline as <-. }
  assert (Hnone : earnings_line ((a :: pre) ++ rest) earnings <> None) by congruence.
  rewrite earnings_line_label in Hnone by done.
  unfold earnings_line, label_re in Hline. rewrite re_match_plus in Hline by done.
  cbn zeta in Hline. destruct (bool_decide _) eqn:Hskip.
  { by injection Hline as <-. }
  apply bool_decide_eq_false_1 in Hskip.
  destruct (if contains _ _ then _ else _) as [remainder|]; [|done].
  injection Hline as <-. apply assign_earnings_keys; [|done].
  split; [done|]. split; [|split; [|split]].
  - apply Forall_strip. rewrite List.Forall_forall. by apply forallb_forall.
  - destruct (strip_stripped (a :: pre)). by apply strip_fix.
  - intros E. apply Hskip. rewrite E. cbn. rewrite !elem_of_cons. auto.
  - intros E. apply Hskip. rewrite E. cbn. rewrite !elem_of_cons. auto.
Qed.

Lemma earnings_loop_keys (lines : list str) (in_earnings : bool) (earnings earnings' : dict) :
  earnings_loop lines in_earnings earnings = Some earnings' ->
  (forall key, is_Some (earnings !! key) -> earnings_field key) ->
  forall key, is_Some (earnings' !! key) -> earnings_field key.
Proof.
  revert in_earnings earnings.
  induction lines as [|line rest IH]; intros in_earnings earnings; simpl.
  - by intros [= <-].
  - destruct (earnings_header line); [by apply IH|].
    destruct (in_earnings && earnings_end line); [by intros [= <-]|].
    destruct (in_earnings && negb _); [|by apply IH].
    destruct (earnings_line line earnings) as [e1|] eqn:E; [|done].
    simpl. intros Hloop He. eapply IH; [exact Hloop|].
    by eapply earnings_line_keys.
Qed.

(** X8: every key of the earnings dictionary is [Earnings <label>] or
    [Earnings <label> YTD] for a label made of letters and white space,
    not empty, without white space at its ends, and other than [Net Pay]
    and [Net Check]. *)
Theorem earnings_keys_are_labelled text earnings key :
  parse_earnings_section text = Some earnings ->
  is_Some (earnings !! key) ->
  earnings_field key.
Proof.
  intros Hparse. eapply earnings_loop_keys; [exact Hparse|].
  intros k [v Hv]. by rewrite lookup_empty in Hv.
Qed.

Lemma earnings_keys_are_labelled_witness :
  earnings_field (L "Earnings Bonus YTD").
Proof.
  apply (earnings_keys_are_labelled bonus_example
           {[ L "Earnings Bonus YTD" := L ".50" ]} (L "Earnings Bonus YTD")).
  - compute_done.
  - by eexists.
Defined.

(** *** Lines before the header *)

Lemma split_on_nonempty d s : split_on d s <> [].
Proof.
  induction s as [|c s IH]; simpl; [done|].
  destruct (Char.is_char d c); [done|]. by destruct (split_on d s).
Qed.

Lemma split_on_app d s1 s2 :
  split_on d (s1 ++ d :: s2) = split_on d s1 ++ split_on d s2.
Proof.
  induction s1 as [|c s1 IH]; simpl.
  - by rewrite (proj2 (is_char_true d d)).
  - destruct (Char.is_char d c); [by rewrite IH|].
    rewrite IH. pose proof (split_on_nonempty d s1).
    by destruct (split_on d s1).
Qed.

Lemma earnings_loop_before_header lines1 lines2 earnings :
  Forall (fun line => earnings_header line = false) lines1 ->
  earnings_loop (lines1 ++ lines2) false earnings = earnings_loop lines2 false earnings.
Proof.
  induction 1 as [|line lines1 Hline _ IH]; [done|].
  simpl. by rewrite Hline.
Qed.

(** X9: the text that comes before the first header line (a line with
    [rate], [hours] and [this period], in any case) is ignored, and a text
    without a header line yields the empty dictionary and never raises. *)
Theorem earnings_start_at_the_header text1 text2 :
  Forall (fun line => earnings_header line = false) (split_on "010" text1) ->
  parse_earnings_section (text1 ++ newline ++ text2) = parse_earnings_section text2
  /\ parse_earnings_section text1 = Some ∅.
Proof.
  intros H. unfold parse_earnings_section, newline. split.
  - change (text1 ++ ["010"%char] ++ text2) with (text1 ++ "010"%char :: text2).
    rewrite split_on_app. by apply earnings_loop_before_header.
  - rewrite <- (app_nil_r (split_on _ text1)).
    by rewrite earnings_loop_before_header.
Qed.

Lemma earnings_start_at_the_header_witness :
  parse_earnings_section (L "Jane Doe   Pay Date: 01/15/2024" ++ newline ++ earnings_example)
  = parse_earnings_section earnings_example
  /\ parse_earnings_section (L "Jane Doe   Pay Date: 01/15/2024") = Some ∅.
Proof.
  apply (earnings_start_at_the_header (L "Jane Doe   Pay Date: 01/15/2024") earnings_example).
  compute_done.
Defined.

(** ** The deductions parser *)

Lemma parse_deductions_scan text :
  parse_deductions_section text
  = deductions (deductions_scan (split_on "010" text) (DState ∅ false)).
Proof. reflexivity. Qed.

(** *** An entry is written once *)

Lemma process_match_keeps (line name : str) (st : dstate) (key v : str) :
  deductions st !! key = Some v ->
  deductions (process_match line name st) !! key = Some v.
Proof.
  intros Hv. unfold process_match.
  destruct (bool_decide (is_Some (deductions st !! deductions_key name))) eqn:E1; [done|].
  destruct (bool_decide (is_Some (deductions st !! deductions_ytd_key name))) eqn:E2; [done|].
  apply bool_decide_eq_false_1 in E1. apply bool_decide_eq_false_1 in E2.
  assert (key <> deductions_key name) by (intros ->; apply E1; by eexists).
  assert (key <> deductions_ytd_key name) by (intros ->; apply E2; by eexists).
  cbn [orb]. destruct (route_amounts _ _ _) as [this_period ytd]. cbn [deductions].
  destruct (truthy ytd), (truthy this_period); rewrite ?lookup_insert_ne by done; done.
Qed.

Lemma deductions_line_keeps (line : str) (st : dstate) (key v : str) :
  deductions st !! key = Some v ->
  deductions (deductions_line line st) !! key = Some v.
Proof.
  intros Hv. unfold deductions_line.
  set (st0 := if _ || _ then _ else _).
  assert (Hst0 : deductions st0 !! key = Some v) by (subst st0; by destruct (_ || _)).
  clearbody st0. revert st0 Hst0.
  induction (sort_matches (line_matches line)) as [|m l IH]; intros st0 Hst0; [done|].
  cbn [foldl]. by apply IH, process_match_keeps.
Qed.

Lemma deductions_scan_keeps (lines : list str) (st : dstate) (key v : str) :
  deductions st !! key = Some v ->
  deductions (deductions_scan lines st) !! key = Some v.
Proof.
  revert st. induction lines as [|line lines IH]; intros st Hv; [done|].
  unfold deductions_scan. cbn [foldl]. by apply IH, deductions_line_keeps.
Qed.

(** X10: the first value of a field wins: a field that the text so far
    has produced keeps its value whatever lines follow. *)
Theorem deductions_first_value_wins text1 text2 key v :
  parse_deductions_section text1 !! key = Some v ->
  parse_deductions_section (text1 ++ newline ++ text2) !! key = Some v.
Proof.
  rewrite !parse_deductions_scan. unfold newline.
  change (text1 ++ ["010"%char] ++ text2) with (text1 ++ "010"%char :: text2).
  rewrite split_on_app. unfold deductions_scan at 2. rewrite foldl_app.
  apply deductions_scan_keeps.
Qed.

Lemma deductions_first_value_wins_witness :
  parse_deductions_section
    (L "Medicare Tax -72 50 145 00" ++ newline ++ L "Medicare Tax -80 00 225 00")
  !! L "Deductions Medicare Tax" = Some (L "-72.50").
Proof.
  apply (deductions_first_value_wins (L "Medicare Tax -72 50 145 00")
           (L "Medicare Tax -80 00 225 00") (L "Deductions Medicare Tax") (L "-72.50")).
  compute_done.
Defined.

(** *** The flag of the year-to-date-only section *)

Lemma route_amounts_flag name d b1 b2 amounts :
  d !! deductions_ytd_key name = None ->
  route_amounts name (DState d b1) amounts = route_amounts name (DState d b2) amounts.
Proof.
  intros Hy. unfold route_amounts. cbn [deductions ytd_only_section].
  rewrite Hy. rewrite (bool_decide_eq_false_2 (is_Some None)) by (by intros [? ?]).
  cbn [negb]. destruct amounts as [this_period ytd].
  destruct (_ && _ && _ && _); repeat case_match; done.
Qed.

Lemma process_match_flag line name d b1 b2 :
  deductions (process_match line name (DState d b1))
  = deductions (process_match line name (DState d b2)).
Proof.
  unfold process_match. cbn [deductions ytd_only_section].
  destruct (bool_decide (is_Some (d !! deductions_key name))) eqn:E1; [done|].
  destruct (bool_decide (is_Some (d !! deductions_ytd_key name))) eqn:E2; [done|].
  cbn [orb]. apply bool_decide_eq_false_1 in E2.
  rewrite (route_amounts_flag name d b1 b2).
  2:{ destruct (d !! deductions_ytd_key name) eqn:E; [|done]. destruct E2. by eexists. }
  by destruct (route_amounts _ _ _).
Qed.

Lemma fold_matches_flag line (l : list (nat * str)) st1 st2 :
  deductions st1 = deductions st2 ->
  deductions (foldl (fun st m => process_match line m.2 st) st1 l)
  = deductions (foldl (fun st m => process_match line m.2 st) st2 l).
Proof.
  revert st1 st2. induction l as [|m l IH]; intros st1 st2 H; [done|].
  cbn [foldl]. apply IH. destruct st1 as [d1 b1], st2 as [d2 b2]. simpl in H. subst d2.
  apply process_match_flag.
Qed.

Lemma deductions_line_flag line st1 st2 :
  deductions st1 = deductions st2 ->
  deductions (deductions_line line st1) = deductions (deductions_line line st2).
Proof.
  intros H. unfold deductions_line. apply fold_matches_flag.
  by destruct (_ || _).
Qed.

Lemma deductions_scan_flag lines st1 st2 :
  deductions st1 = deductions st2 ->
  deductions (deductions_scan lines st1) = deductions (deductions_scan lines st2).
Proof.
  revert st1 st2. induction lines as [|line lines IH]; intros st1 st2 H; [done|].
  unfold deductions_scan. cbn [foldl]. by apply IH, deductions_line_flag.
Qed.

(** X11: the flag [in_other_benefits_or_ytd_only_section] has no effect:
    from any point of the scan, the dictionary that results is the same
    whether the flag is set or not.  (A match is processed only while
    neither of its keys is present, and then the test
    [f"Deductions {name} YTD" not in deductions] that follows the test of
    the flag holds.) *)
Theorem ytd_only_flag_is_irrelevant lines d b1 b2 :
  deductions (deductions_scan lines (DState d b1))
  = deductions (deductions_scan lines (DState d b2)).
Proof. by apply deductions_scan_flag. Qed.

(** *** The routing of the amounts of a match *)

Lemma lexed_amount_nonempty wide a : lexed_amount wide a -> a <> [].
Proof. intros H. by destruct (lexed_amount_ok _ _ H) as (_ & _ & ?). Qed.

Lemma truthy_Some (a : str) : a <> [] -> truthy (Some a) = true.
Proof. by destruct a. Qed.

(** X12: when a label that is not yet recorded is followed by a single
    amount, the amount is stored under the year-to-date key if the label
    is [Rsu Net Value], one of the benefit deductions, or
    [Social Security Tax] with an amount that has no minus sign, and under
    the current-period key otherwise; nothing else is written. *)
Theorem deductions_single_amount_routing line name st a :
  deductions st !! deductions_key name = None ->
  deductions st !! deductions_ytd_key name = None ->
  extract_amounts_from_line line name = (Some a, None) ->
  deductions (process_match line name st)
  = if single_amount_is_ytd name a
    then <[deductions_ytd_key name := a]> (deductions st)
    else <[deductions_key name := a]> (deductions st).
Proof.
  intros Hk Hy Hex.
  assert (Ha : truthy (Some a) = true).
  { destruct (extract_amounts_from_line_lexed line name) as [H1 _].
    rewrite Hex in H1. eapply truthy_Some, lexed_amount_nonempty, (H1 a eq_refl). }
  unfold process_match, single_amount_is_ytd. rewrite Hk, Hy.
  rewrite !(bool_decide_eq_false_2 (is_Some None)) by (by intros [? ?]).
  cbn [orb]. rewrite Hex. unfold route_amounts. rewrite Hy.
  rewrite !(bool_decide_eq_false_2 (is_Some None)) by (by intros [? ?]).
  destruct a as [|c a]; [done|]. clear Ha Hex.
  change (default [] (Some (c :: a))) with (c :: a).
  destruct (bool_decide (name = L "Social Security Tax"));
    destruct (startswith (L "-") (c :: a));
    destruct (bool_decide (name ∈ always_ytd_when_single));
    destruct (bool_decide (name ∈ benefit_deductions_that_may_be_ytd_only));
    destruct (ytd_only_section st); reflexivity.
Qed.

Lemma deductions_single_amount_routing_witness :
  deductions (process_match (L "Hsa 100 00") (L "Hsa") (DState ∅ false))
  = <[deductions_ytd_key (L "Hsa") := L "100.00"]> ∅
  /\ deductions (process_match (L "Medicare Tax -72 50") (L "Medicare Tax") (DState ∅ false))
     = <[deductions_key (L "Medicare Tax") := L "-72.50"]> ∅.
Proof.
  split.
  - etrans; [apply (deductions_single_amount_routing (L "Hsa 100 00") (L "Hsa")
                      (DState ∅ false) (L "100.00")); compute_done|].
    compute_done.
  - etrans; [apply (deductions_single_amount_routing (L "Medicare Tax -72 50")
                      (L "Medicare Tax") (DState ∅ false) (L "-72.50")); compute_done|].
    compute_done.
Defined.

(** X13: when a label that is not yet recorded is followed by two
    amounts, the first is stored under the current-period key and the
    second under the year-to-date key, whatever the label. *)
Theorem deductions_two_amounts_routing line name st a b :
  deductions st !! deductions_key name = None ->
  deductions st !! deductions_ytd_key name = None ->
  extract_amounts_from_line line name = (Some a, Some b) ->
  deductions (process_match line name st)
  = <[deductions_ytd_key name := b]> (<[deductions_key name := a]> (deductions st)).
Proof.
  intros Hk Hy Hex.
  destruct (extract_amounts_from_line_lexed line name) as [H1 H2].
  rewrite Hex in H1, H2.
  pose proof (lexed_amount_nonempty _ _ (H1 a eq_refl)) as Ha.
  pose proof (lexed_amount_nonempty _ _ (H2 b eq_refl)) as Hb.
  unfold process_match. rewrite Hk, Hy.
  rewrite !(bool_decide_eq_false_2 (is_Some None)) by (by intros [? ?]).
  cbn [orb]. rewrite Hex. unfold route_amounts.
  destruct a as [|ca a]; [done|]. destruct b as [|cb b]; [done|].
  cbn [truthy negb andb]. rewrite !andb_false_r. reflexivity.
Qed.

Lemma deductions_two_amounts_routing_witness :
  deductions (process_match (L "Hsa -50 00 100 00") (L "Hsa") (DState ∅ true))
  = <[deductions_ytd_key (L "Hsa") := L "100.00"]>
      (<[deductions_key (L "Hsa") := L "-50.00"]> ∅).
Proof.
  apply (deductions_two_amounts_routing (L "Hsa -50 00 100 00") (L "Hsa")
           (DState ∅ true) (L "-50.00") (L "100.00")); compute_done.
Defined.

(** *** Where the fields come from *)

Lemma line_matches_contains line m :
  m ∈ line_matches line -> contains m.2 line = true.
Proof.
  unfold line_matches. rewrite list_elem_of_In, in_flat_map.
  intros (name & _ & Hm).
  destruct (contains name line) eqn:E; [|done].
  destruct (_ && _); [done|]. by destruct Hm as [<- | []].
Qed.

Lemma process_match_fields lines line name st :
  name ∈ deduction_names -> line ∈ lines -> contains name line = true ->
  (forall key, is_Some (deductions st !! key) -> deductions_field lines key) ->
  forall key, is_Some (deductions (process_match line name st) !! key) ->
              deductions_field lines key.
Proof.
  intros Hname Hline Hc Hst key.
  assert (Hk : deductions_field lines (deductions_key name)) by (exists name, line; auto).
  assert (Hy : deductions_field lines (deductions_ytd_key name)) by (exists name, line; auto).
  unfold process_match. destruct (_ || _); [apply Hst|].
  destruct (route_amounts _ _ _) as [this_period ytd]. cbn [deductions].
  destruct (truthy ytd), (truthy this_period);
    rewrite ?lookup_insert_is_Some; naive_solver.
Qed.

Lemma deductions_line_fields lines line st :
  line ∈ lines ->
  (forall key, is_Some (deductions st !! key) -> deductions_field lines key) ->
  forall key, is_Some (deductions (deductions_line line st) !! key) ->
              deductions_field lines key.
Proof.
  intros Hline Hst. unfold deductions_line.
  set (st0 := if _ || _ then _ else _).
  assert (Hst0 : forall key, is_Some (deductions st0 !! key) -> deductions_field lines key)
    by (subst st0; by destruct (_ || _)).
  clearbody st0. clear Hst.
  assert (Hsorted : forall m, m ∈ sort_matches (line_matches line) ->
                      m.2 ∈ deduction_names /\ contains m.2 line = true).
  { intros m Hm%sort_matches_elem.
    split; [by destruct (line_matches_elem line m Hm)|by apply line_matches_contains]. }
  revert st0 Hst0 Hsorted.
  induction (sort_matches (line_matches line)) as [|m l IH]; intros st0 Hst0 Hsorted; [done|].
  cbn [foldl]. apply IH.
  - destruct (Hsorted m) as [Hin Hc]; [by left|]. by apply process_match_fields.
  - intros m' Hm'. apply Hsorted. by right.
Qed.

Lemma deductions_scan_fields lines lines' st :
  lines' ⊆ lines ->
  (forall key, is_Some (deductions st !! key) -> deductions_field lines key) ->
  forall key, is_Some (deductions (deductions_scan lines' st) !! key) ->
              deductions_field lines key.
Proof.
  revert st. induction lines' as [|line lines' IH]; intros st Hsub Hst; [done|].
  unfold deductions_scan. cbn [foldl]. apply IH.
  - intros x Hx. apply Hsub. by right.
  - apply deductions_line_fields; [|done]. apply Hsub. by left.
Qed.

(** X14: the parser invents no field: every key of its dictionary is
    [Deductions <label>] or [Deductions <label> YTD] for one of the
    listed labels, and that label occurs in a line of the text. *)
Theorem deductions_fields_come_from_labels text key :
  is_Some (parse_deductions_section text !! key) ->
  deductions_field (split_on "010" text) key.
Proof.
  rewrite parse_deductions_scan. apply deductions_scan_fields; [done|].
  intros k [v Hv]. cbn [deductions] in Hv. by rewrite lookup_empty in Hv.
Qed.

Lemma deductions_fields_come_from_labels_witness :
  deductions_field (split_on "010" (L "Medicare Tax -72 50 145 00"))
    (L "Deductions Medicare Tax YTD").
Proof.
  apply (deductions_fields_come_from_labels (L "Medicare Tax -72 50 145 00")
           (L "Deductions Medicare Tax YTD")).
  compute_done.
Defined.

(** ** The other-benefits parser *)

(** *** The glob [Espp *] *)

Lemma fnmatch_star name : fnmatch (L "*") name = true.
Proof. induction name as [|c name IH]; [done|]. simpl in *. by rewrite IH. Qed.

Lemma fnmatch_literal p pat name :
  p <> "*"%char -> p <> "?"%char ->
  fnmatch (p :: pat) name
  = match name with
    | [] => false
    | c :: name' => bool_decide (c = p) && fnmatch pat name'
    end.
Proof.
  intros H1 H2. cbn [fnmatch].
  rewrite (proj2 (is_char_false "*" p)), (proj2 (is_char_false "?" p)) by done.
  by destruct name.
Qed.

Lemma fnmatch_prefix_star p name :
  Forall (fun c => c <> "*"%char /\ c <> "?"%char) p ->
  fnmatch (p ++ L "*") name = startswith p name.
Proof.
  intros Hp. revert name. induction Hp as [|a p [H1 H2] _ IH]; intros name.
  - apply fnmatch_star.
  - cbn [app]. rewrite fnmatch_literal by done.
    destruct name as [|c name]; [done|]. cbn [startswith]. rewrite IH.
    f_equal. apply bool_decide_ext. split; congruence.
Qed.

Lemma fnmatch_espp name : fnmatch (L "Espp *") name = startswith (L "Espp ") name.
Proof.
  apply (fnmatch_prefix_star (L "Espp ")).
  repeat constructor; done.
Qed.

(** *** What a line contributes *)

Lemma first_match_Some {A} (f : A -> option str) (l : list A) :
  truthy (first_match f l) = true ->
  exists x, x ∈ l /\ f x = first_match f l /\ truthy (f x) = true.
Proof.
  induction l as [|x l IH]; [done|]. cbn [first_match].
  destruct (truthy (f x)) eqn:E.
  - intros _. exists x. split; [by left|done].
  - intros H. destruct (IH H) as (y & Hy & Hf & Ht). exists y. split; [by right|done].
Qed.

Lemma candidate_at_fnmatch benefit_pattern (words : list str) i j c :
  candidate_at benefit_pattern words i j = Some c -> fnmatch benefit_pattern c = true.
Proof.
  unfold candidate_at. destruct (fnmatch benefit_pattern _) eqn:E; [|done].
  cbn [negb]. repeat case_match; try done. by intros [= <-].
Qed.

Lemma glob_matched_name_fnmatch benefit_pattern line :
  truthy (glob_matched_name benefit_pattern line) = true ->
  fnmatch benefit_pattern (default [] (glob_matched_name benefit_pattern line)) = true.
Proof.
  intros H. unfold glob_matched_name in *.
  destruct (first_match_Some _ _ H) as (i & _ & Hi & Ht).
  rewrite <- Hi. destruct (first_match_Some _ _ Ht) as (j & _ & Hj & Ht').
  rewrite <- Hj.
  destruct (candidate_at benefit_pattern (split_ws line) i j) as [c|] eqn:E; [|done].
  by apply candidate_at_fnmatch in E.
Qed.

Lemma matched_name_benefit_name benefit_pattern line :
  benefit_pattern ∈ benefit_names ->
  truthy (matched_name benefit_pattern line) = true ->
  benefit_name (default [] (matched_name benefit_pattern line)).
Proof.
  unfold benefit_names. cbn [map]. rewrite !elem_of_cons.
  intros [-> | [-> | [-> | [-> | H]]]]; [| | | |by apply elem_of_nil in H].
  - unfold matched_name. change (is_glob (L "Current Match")) with false. cbn match.
    destruct (contains _ line); [|done]. intros _. left. cbn. rewrite !elem_of_cons. auto.
  - unfold matched_name. change (is_glob (L "Espp *")) with true. cbn match.
    intros H%glob_matched_name_fnmatch. right. by rewrite <- fnmatch_espp.
  - unfold matched_name. change (is_glob (L "Ytd 401K Match")) with false. cbn match.
    destruct (contains _ line); [|done]. intros _. left. cbn. rewrite !elem_of_cons. auto.
  - unfold matched_name. change (is_glob (L "Sick Earned Bal")) with false. cbn match.
    destruct (contains _ line); [|done]. intros _. left. cbn. rewrite !elem_of_cons. auto.
Qed.

Lemma benefits_line_cases (patterns : list str) (line : str) :
  patterns ⊆ benefit_names ->
  (forall b : dict, benefits_line patterns line b = b)
  \/ exists name a,
       benefit_name name /\ lexed_amount false a
       /\ forall b : dict, benefits_line patterns line b = <[benefits_key name := a]> b.
Proof.
  induction patterns as [|p patterns IH]; intros Hsub; [by left|].
  cbn [benefits_line].
  destruct (truthy (matched_name p line)) eqn:E.
  - destruct (extract_first_amount_from_line line (default [] (matched_name p line)))
      as [a|] eqn:Ea; [|by left].
    pose proof (extract_first_amount_from_line_lexed line _ _ Ea) as Hlex.
    pose proof (lexed_amount_nonempty _ _ Hlex) as Hne.
    right. exists (default [] (matched_name p line)), a.
    split; [|split; [done|]].
    + apply matched_name_benefit_name; [|done]. apply Hsub. by left.
    + intros b. by rewrite (truthy_Some a Hne).
  - apply IH. intros x Hx. apply Hsub. by right.
Qed.

(** X15: a line contributes at most one benefit, and what it contributes
    depends on the line alone: either it leaves every dictionary as it
    is, or it sets one key [Other Benefits <name>] to an amount of the
    lexer, where [<name>] is [Current Match], [Ytd 401K Match],
    [Sick Earned Bal] or begins with [Espp ]. *)
Theorem benefits_line_sets_one_field line :
  (forall b : dict, benefits_line benefit_names line b = b)
  \/ exists name a,
       benefit_name name /\ lexed_amount false a
       /\ forall b : dict, benefits_line benefit_names line b = <[benefits_key name := a]> b.
Proof. by apply benefits_line_cases. Qed.

(** *** Concatenation *)

Lemma benefits_line_union (line : str) (benefits : dict) :
  benefits_line benefit_names line benefits
  = benefits_line benefit_names line ∅ ∪ benefits.
Proof.
  destruct (benefits_line_cases benefit_names line) as [H | (name & a & _ & _ & H)];
    [done| |].
  - by rewrite !H, (left_id_L ∅ (∪)).
  - rewrite !H. by rewrite <- insert_union_l, (left_id_L ∅ (∪)).
Qed.

Lemma benefits_fold_union (lines : list str) (benefits : dict) :
  foldl (fun benefits line => benefits_line benefit_names line benefits) benefits lines
  = foldl (fun benefits line => benefits_line benefit_names line benefits) ∅ lines
    ∪ benefits.
Proof.
  revert benefits. induction lines as [|line lines IH]; intros benefits.
  - cbn [foldl]. by rewrite (left_id_L ∅ (∪)).
  - cbn [foldl]. rewrite IH, (IH (benefits_line _ _ ∅)).
    rewrite (benefits_line_union line benefits). by rewrite (assoc_L (∪)).
Qed.

(** X16: the last value of a benefit wins: the dictionary of two texts
    put one after the other is the dictionary of the second, completed
    with the fields that only the first has. *)
Theorem benefits_of_concatenation text1 text2 :
  parse_other_benefits_section (text1 ++ newline ++ text2)
  = parse_other_benefits_section text2 ∪ parse_other_benefits_section text1.
Proof.
  unfold parse_other_benefits_section, newline.
  change (text1 ++ ["010"%char] ++ text2) with (text1 ++ "010"%char :: text2).
  rewrite split_on_app, foldl_app. apply benefits_fold_union.
Qed.

(** *** A summary line: [Espp] followed by numbers alone *)

Lemma first_match_none {A} (f : A -> option str) (l : list A) :
  (forall x, truthy (f x) = false) -> first_match f l = None.
Proof.
  intros H. induction l as [|x l IH]; [done|]. cbn [first_match]. by rewrite H.
Qed.

Lemma find_from_head c sub s i :
  is_Some (find_from (c :: sub) s i) -> c ∈ s.
Proof.
  revert i. induction s as [|x s IH]; intros i; simpl; [by intros [? ?]|].
  destruct (bool_decide (c = x)) eqn:E.
  - apply bool_decide_eq_true_1 in E as ->. intros _. by left.
  - cbn [andb]. intros H. right. by eapply IH.
Qed.

Lemma contains_head c sub s : contains (c :: sub) s = true -> c ∈ s.
Proof.
  unfold contains, find. intros H%bool_decide_eq_true_1. by eapply find_from_head.
Qed.

Lemma contains_absent c sub s : c ∉ s -> contains (c :: sub) s = false.
Proof.
  intros H. destruct (contains (c :: sub) s) eqn:E; [|done].
  by apply contains_head in E.
Qed.

Lemma join_Forall (P : ascii -> Prop) (sep : str) (ts : list str) :
  Forall P sep -> Forall (Forall P) ts -> Forall P (join sep ts).
Proof.
  intros Hsep. induction 1 as [|t ts Ht Hts IH]; [constructor|].
  destruct ts as [|t' ts]; [done|].
  change (join sep (t :: t' :: ts)) with (t ++ sep ++ join sep (t' :: ts)).
  rewrite !Forall_app. auto.
Qed.

Lemma digit_token_token t : digit_token t -> token t.
Proof. intros [Hne Hd]. split; [done|by apply digits_only_no_space]. Qed.

Lemma digit_tokens_join (ns : list str) :
  Forall digit_token ns ->
  Forall (fun c => Char.isdecimal c = true \/ c = " "%char) (join (L " ") ns).
Proof.
  intros H. apply join_Forall; [constructor; [by right|constructor]|].
  eapply Forall_impl; [exact H|]. intros t [_ Hd].
  eapply Forall_impl; [exact Hd|]. by left.
Qed.

Lemma digit_tokens_head (ns : list str) :
  Forall digit_token ns -> ns <> [] ->
  exists c rest, join (L " ") ns = c :: rest /\ Char.isdecimal c = true.
Proof.
  intros H Hne. destruct H as [|t ts [Ht Hd] _]; [done|].
  destruct Hd as [|c t Hc _]; [done|].
  exists c. destruct ts; simpl; eauto.
Qed.

Lemma digit_tokens_isdigit (ns : list str) :
  Forall digit_token ns -> ns <> [] ->
  str_isdigit (remove_char " " (join (L " ") ns)) = true.
Proof.
  intros H Hne. unfold str_isdigit. apply andb_true_iff. split.
  - destruct (digit_tokens_head ns H Hne) as (c & rest & -> & Hc).
    cbn [remove_char]. rewrite (proj2 (is_char_false " " c)); [done|].
    intros ->. done.
  - apply forallb_forall, List.Forall_forall, Forall_remove_char.
    eapply Forall_impl; [apply (digit_tokens_join ns H)|].
    intros c [Hc | ->]; [right; by apply decimal_isdigit|by left].
Qed.

Lemma decimal_char_absent (c : ascii) (s : str) :
  Char.isdecimal c = false -> c <> " "%char ->
  Forall (fun c => Char.isdecimal c = true \/ c = " "%char) s -> c ∉ s.
Proof.
  intros Hc Hsp Hs Hin. rewrite Forall_forall in Hs.
  destruct (Hs c Hin) as [H | H]; congruence.
Qed.

Lemma has_negative_digit_tokens (ns : list str) :
  Forall digit_token ns -> has_negative ns = false.
Proof.
  induction 1 as [|t ts [Hne Hd] _ IH]; [done|].
  unfold has_negative in *. cbn [existsb]. rewrite IH, orb_false_r.
  destruct Hd as [|c t Hc _]; [done|]. cbn [startswith L list_ascii_of_string].
  rewrite bool_decide_eq_false_2; [done|]. by intros <-.
Qed.

Lemma candidate_at_summary (nums : list str) i j :
  Forall digit_token nums ->
  truthy (candidate_at (L "Espp *") (L "Espp" :: nums) i j) = false.
Proof.
  intros Hnums. unfold candidate_at. rewrite fnmatch_espp.
  destruct i as [|i].
  - unfold slice. rewrite Nat.sub_0_r, drop_0.
    destruct j as [|j]; [done|]. cbn [take].
    assert (Hns : Forall digit_token (take j nums)) by by apply Forall_take.
    destruct (take j nums) as [|n ns] eqn:E; [done|].
    change (join (L " ") (L "Espp" :: n :: ns))
      with (L "Espp " ++ join (L " ") (n :: ns)).
    rewrite startswith_app. cbn [negb].
    assert (Hneg : has_negative (L "Espp" :: n :: ns) = false).
    { change (has_negative (L "Espp" :: n :: ns)) with (has_negative (n :: ns)).
      by apply has_negative_digit_tokens. }
    rewrite Hneg.
    rewrite bool_decide_eq_true_2 by done.
    rewrite drop_app_length' by done.
    rewrite digit_tokens_isdigit by done.
    pose proof (digit_tokens_join _ Hns) as Hchars.
    cbn [map existsb]. change (L "/") with ["/"%char]. change (L "-") with ["-"%char].
    rewrite (contains_absent "/") by (by apply decimal_char_absent).
    rewrite (contains_absent "-") by (by apply decimal_char_absent).
    done.
  - unfold slice. cbn [drop].
    assert (Hns : Forall digit_token (take (j - S i) (drop i nums)))
      by by apply Forall_take, Forall_drop.
    destruct (take (j - S i) (drop i nums)) as [|n ns] eqn:E; [done|].
    destruct (digit_tokens_head _ Hns) as (c & rest & -> & Hc); [done|].
    cbn [startswith L list_ascii_of_string].
    rewrite bool_decide_eq_false_2; [done|]. by intros <-.
Qed.

(** X17: a summary line, [Espp] followed by tokens of digits alone, is not
    taken for a benefit: the glob [Espp *] never accepts a name whose
    wildcard part is only numbers, and no other label occurs in the line. *)
Theorem espp_summary_line_is_not_a_benefit (nums : list str) (benefits : dict) :
  Forall digit_token nums ->
  benefits_line benefit_names (join (L " ") (L "Espp" :: nums)) benefits = benefits.
Proof.
  intros Hnums.
  assert (Hwords : split_ws (join (L " ") (L "Espp" :: nums)) = L "Espp" :: nums).
  { apply split_ws_join. constructor.
    - split; [done|]. repeat constructor.
    - eapply Forall_impl; [exact Hnums|]. apply digit_token_token. }
  assert (Hchars : Forall (fun c => c ∈ L "Espp" \/ Char.isdecimal c = true \/ c = " "%char)
                     (join (L " ") (L "Espp" :: nums))).
  { apply join_Forall; [constructor; [auto|constructor]|].
    constructor.
    - apply Forall_forall. auto.
    - eapply Forall_impl; [exact Hnums|]. intros t [_ Hd].
      eapply Forall_impl; [exact Hd|]. auto. }
  assert (Habsent : forall c, c ∉ L "Espp" -> Char.isdecimal c = false -> c <> " "%char ->
                      c ∉ join (L " ") (L "Espp" :: nums)).
  { intros c H1 H2 H3 Hin. rewrite Forall_forall in Hchars.
    destruct (Hchars c Hin) as [H | [H | H]]; [done|congruence|done]. }
  assert (Hglob : matched_name (L "Espp *") (join (L " ") (L "Espp" :: nums)) = None).
  { unfold matched_name. change (is_glob (L "Espp *")) with true. cbn match.
    unfold glob_matched_name. rewrite Hwords.
    apply first_match_none. intros i.
    rewrite first_match_none; [done|]. intros j. by apply candidate_at_summary. }
  assert (Hexact : forall c rest, c ∉ L "Espp" -> Char.isdecimal c = false -> c <> " "%char ->
                     is_glob (c :: rest) = false ->
                     matched_name (c :: rest) (join (L " ") (L "Espp" :: nums)) = None).
  { intros c rest H1 H2 H3 Hg. unfold matched_name. rewrite Hg.
    by rewrite contains_absent by by apply Habsent. }
  assert (H1 : matched_name (L "Current Match") (join (L " ") (L "Espp" :: nums)) = None)
    by (apply (Hexact "C"%char (L "urrent Match")); compute_done).
  assert (H2 : matched_name (L "Ytd 401K Match") (join (L " ") (L "Espp" :: nums)) = None)
    by (apply (Hexact "Y"%char (L "td 401K Match")); compute_done).
  assert (H3 : matched_name (L "Sick Earned Bal") (join (L " ") (L "Espp" :: nums)) = None)
    by (apply (Hexact "S"%char (L "ick Earned Bal")); compute_done).
  unfold benefit_names. cbn [map benefits_line].
  by rewrite H1, Hglob, H2, H3.
Qed.

Lemma espp_summary_line_is_not_a_benefit_witness :
  benefits_line benefit_names (join (L " ") [L "Espp"; L "1"; L "234"; L "56"]) ∅ = ∅.
Proof.
  apply (espp_summary_line_is_not_a_benefit [L "1"; L "234"; L "56"] ∅).
  repeat constructor; done.
Defined.

(** ** The year-to-date validator *)

(** X18: the result does not depend on the order in which Python
    iterates the set [ytd_fields]: every enumeration of the set gives the
    same batch. *)
Theorem validator_independent_of_field_order data order :
  order ≡ₚ elements (ytd_fields data) ->
  (validate_fields order data).1 = (validate_and_fix_ytd_values data).1.
Proof. apply validate_order_irrelevant. Qed.

Lemma validator_independent_of_field_order_witness :
  (validate_fields (reverse (elements (ytd_fields two_field_batch))) two_field_batch).1
  = (validate_and_fix_ytd_values two_field_batch).1.
Proof.
  apply (validator_independent_of_field_order two_field_batch
           (reverse (elements (ytd_fields two_field_batch)))).
  apply reverse_Permutation.
Defined.

(** *** Values that are kept *)

Lemma keeps_values_refl record : keeps_values record record.
Proof. intros key v Hv. by exists v. Qed.

Lemma truthy_strip_false (v : str) :
  truthy (Some v) && truthy (Some (strip v)) = false -> strip v = [].
Proof.
  destruct v as [|c v]; [done|]. cbn [truthy andb].
  by destruct (strip (c :: v)).
Qed.

Lemma validate_record_keeps ytd_field last record :
  keeps_values record (validate_record ytd_field last record).1.1.
Proof.
  unfold validate_record.
  destruct (_ && _) eqn:E.
  - destruct (Float.of_str _); apply keeps_values_refl.
  - destruct last as [x|]; [|apply keeps_values_refl]. cbn [fst].
    intros key v Hv. destruct (decide (key = ytd_field)) as [-> | Hne].
    + rewrite lookup_insert_eq. eexists. split; [done|].
      rewrite Hv in E. change (default [] (Some v)) with v in E.
      apply truthy_strip_false in E. by rewrite E.
    + rewrite lookup_insert_ne by done. by exists v.
Qed.

Lemma validate_field_keeps ytd_field last data :
  Forall2 keeps_values data (validate_field ytd_field last data).1.
Proof.
  revert last. induction data as [|record rest IH]; intros last.
  - constructor.
  - rewrite validate_field_cons. constructor; [apply validate_record_keeps|apply IH].
Qed.

Lemma keeps_values_trans r1 r2 r3 :
  keeps_values r1 r2 -> keeps_values r2 r3 -> keeps_values r1 r3.
Proof.
  intros H12 H23 key v Hv.
  destruct (H12 key v Hv) as (v2 & Hv2 & E2).
  destruct (H23 key v2 Hv2) as (v3 & Hv3 & E3).
  exists v3. split; [done|]. intros Hne. specialize (E2 Hne). subst v2. by apply E3.
Qed.

Lemma Forall2_chain {A} (R : A -> A -> Prop) (l1 l2 l3 : list A) :
  (forall x y z, R x y -> R y z -> R x z) ->
  Forall2 R l1 l2 -> Forall2 R l2 l3 -> Forall2 R l1 l3.
Proof.
  intros HR H12. revert l3. induction H12 as [|x y l1 l2 Hxy _ IH]; intros l3 H23.
  - by inversion H23.
  - inversion H23; subst. constructor; [by eapply HR|by apply IH].
Qed.

Lemma validate_fold_keeps fields data :
  Forall2 keeps_values data (foldl (fun d f => (validate_field f None d).1) data fields).
Proof.
  revert data. induction fields as [|f fields IH]; intros data.
  - apply Forall_Forall2_diag, Forall_forall. intros. apply keeps_values_refl.
  - cbn [foldl]. eapply Forall2_chain; [|apply validate_field_keeps|apply IH].
    intros r1 r2 r3. apply keeps_values_trans.
Qed.

Lemma validate_keeps data :
  Forall2 keeps_values data (validate_and_fix_ytd_values data).1.
Proof.
  unfold validate_and_fix_ytd_values. destruct data as [|record rest]; [constructor|].
  rewrite validate_fields_data. apply validate_fold_keeps.
Qed.

(** X19: the validator returns as many records as it is given, removes
    no key, and changes no value that is present and not blank. *)
Theorem validator_keeps_present_values data i record key v :
  data !! i = Some record -> record !! key = Some v ->
  length (validate_and_fix_ytd_values data).1 = length data
  /\ exists record' v',
       (validate_and_fix_ytd_values data).1 !! i = Some record'
       /\ record' !! key = Some v'
       /\ (strip v <> [] -> v' = v).
Proof.
  intros Hi Hv. pose proof (validate_keeps data) as H. split.
  - symmetry. by eapply Forall2_length.
  - destruct (Forall2_lookup_l _ _ _ _ _ H Hi) as (record' & Hi' & Hk).
    destruct (Hk key v Hv) as (v' & Hv' & E). by exists record', v'.
Qed.

Lemma validator_keeps_present_values_witness :
  length (validate_and_fix_ytd_values two_field_batch).1 = length two_field_batch
  /\ exists record' v',
       (validate_and_fix_ytd_values two_field_batch).1 !! 1 = Some record'
       /\ record' !! L "Pay Date" = Some v'
       /\ (strip (L "01/31/2024") <> [] -> v' = L "01/31/2024").
Proof.
  apply (validator_keeps_present_values two_field_batch 1
           {[ L "Pay Date" := L "01/31/2024" ]} (L "Pay Date") (L "01/31/2024"));
    compute_done.
Defined.

(** *** The first record *)

Lemma validate_record_first ytd_field record :
  (validate_record ytd_field None record).1.1 = record.
Proof.
  unfold validate_record. destruct (_ && _); [|done]. by destruct (Float.of_str _).
Qed.

Lemma validate_fold_head (fields : list str) (data : list dict) :
  head (foldl (fun d f => (validate_field f None d).1) data fields) = head data.
Proof.
  revert data. induction fields as [|f fields IH]; intros data; [done|].
  cbn [foldl]. rewrite IH. destruct data as [|record rest]; [done|].
  by rewrite validate_field_cons, validate_record_first.
Qed.

(** X20: the first record of a batch is returned as it is: there is no
    earlier value to fill a gap from. *)
Theorem validator_leaves_first_record data :
  head (validate_and_fix_ytd_values data).1 = head data.
Proof.
  unfold validate_and_fix_ytd_values. destruct data as [|record rest]; [done|].
  rewrite validate_fields_data. apply validate_fold_head.
Qed.

(** *** No gap after a value *)













(** ** The pay period dates *)

Lemma parses_prefix r s rest :
  dollar_free r -> parses r s rest -> exists pre, s = pre ++ rest /\ parses r pre [].
Proof.
  intros Hr. revert s. induction Hr as [|a r Ha _ IH]; intros s; simpl.
  - intros ->. by exists [].
  - destruct a as [cls lo hi|]; [|done].
    intros (p & mid & -> & Hp & Hlo & Hhi & Hrest).
    destruct (IH _ Hrest) as (pre & -> & Hpre).
    exists (p ++ pre). split; [by rewrite app_assoc|]. by exists p, pre.
Qed.

Lemma head_In {A} (l : list A) x : head l = Some x -> In x l.
Proof. destruct l; [done|]. intros [= ->]. by left. Qed.

Lemma match_group_elem r1 r2 s g :
  In g (flat_map (fun mid =>
                    map (fun rest => take (length mid - length rest) mid) (re_run r2 mid))
          (re_run r1 s)) ->
  dollar_free r2 ->
  exists mid rest, parses r1 s (g ++ rest) /\ mid = g ++ rest /\ parses r2 g []
                   /\ parses r2 mid rest.
Proof.
  intros Hin Hr2. apply in_flat_map in Hin as (mid & Hmid & Hg).
  apply in_map_iff in Hg as (rest & <- & Hrest).
  apply re_run_parses in Hmid. apply re_run_parses in Hrest.
  destruct (parses_prefix _ _ _ Hr2 Hrest) as (pre & -> & Hpre).
  rewrite length_app.
  replace (length pre + length rest - length rest) with (length pre) by lia.
  rewrite take_app_length. by exists (pre ++ rest), rest.
Qed.

Lemma match_group_fullmatch r1 r2 s g :
  dollar_free r2 -> match_group r1 r2 s = Some g -> fullmatch r2 g = true.
Proof.
  intros Hr2 H%head_In.
  destruct (match_group_elem _ _ _ _ H Hr2) as (mid & rest & _ & _ & Hg & _).
  by apply fullmatch_true.
Qed.

Lemma search_group_fullmatch r1 r2 s g :
  dollar_free r2 -> search_group r1 r2 s = Some g -> fullmatch r2 g = true.
Proof.
  intros Hr2. induction s as [|c s IH]; simpl.
  - destruct (match_group r1 r2 []) as [g'|] eqn:E; [|done].
    intros [= ->]. by eapply match_group_fullmatch.
  - destruct (match_group r1 r2 (c :: s)) as [g'|] eqn:E; [|done].
    intros [= ->]. by eapply match_group_fullmatch.
Qed.

Lemma date_re_dollar_free : dollar_free date_re.
Proof. repeat constructor; done. Qed.

Lemma extract_pay_period_dates_values text :
  extract_pay_period_dates text !! L "Pay Period Beginning"
  = Some (labelled_date (L "Period Beginning:") text)
  /\ extract_pay_period_dates text !! L "Pay Period Ending"
     = Some (labelled_date (L "Period Ending:") text)
  /\ extract_pay_period_dates text !! L "Pay Date"
     = Some (labelled_date (L "Pay Date:") text).
Proof.
  unfold extract_pay_period_dates.
  destruct (labelled_date (L "Period Beginning:") text),
           (labelled_date (L "Period Ending:") text),
           (labelled_date (L "Pay Date:") text); vm_compute; done.
Qed.

Lemma extract_pay_period_dates_lookup text key label :
  (key, label) ∈ date_labels ->
  extract_pay_period_dates text !! key = Some (labelled_date label text).
Proof.
  unfold date_labels. rewrite !elem_of_cons.
  destruct (extract_pay_period_dates_values text) as (H1 & H2 & H3).
  intros [[= -> ->] | [[= -> ->] | [[= -> ->] | H]]];
    [exact H1|exact H2|exact H3|by apply elem_of_nil in H].
Qed.

Lemma extract_pay_period_dates_dom text :
  dom (extract_pay_period_dates text) = date_keys.
Proof.
  unfold extract_pay_period_dates, date_keys.
  destruct (labelled_date (L "Period Beginning:") text),
           (labelled_date (L "Period Ending:") text),
           (labelled_date (L "Pay Date:") text);
    rewrite ?dom_insert_L, ?dom_singleton_L; set_solver.
Qed.

(** X22: the dictionary of the dates has the three keys
    [Pay Period Beginning], [Pay Period Ending] and [Pay Date], whatever
    the text, and a value that is not [None] is a date:
    one or two digits, a slash, one or two digits, a slash, four digits. *)
Theorem pay_period_dates_shape text :
  dom (extract_pay_period_dates text) = date_keys
  /\ forall key d, extract_pay_period_dates text !! key = Some (Some d) ->
                   fullmatch date_re d = true.
Proof.
  split; [apply extract_pay_period_dates_dom|].
  intros key d Hd.
  assert (Hkey : key ∈ date_keys).
  { rewrite <- (extract_pay_period_dates_dom text). apply elem_of_dom. by eexists. }
  assert (Hlabel : exists label, (key, label) ∈ date_labels).
  { unfold date_keys in Hkey. rewrite !elem_of_union, !elem_of_singleton in Hkey.
    unfold date_labels. destruct Hkey as [[-> | ->] | ->]; eexists; rewrite !elem_of_cons; eauto. }
  destruct Hlabel as [label Hlabel].
  rewrite (extract_pay_period_dates_lookup text key label Hlabel) in Hd.
  injection Hd as Hd. eapply search_group_fullmatch; [apply date_re_dollar_free|exact Hd].
Qed.

Lemma pay_period_dates_shape_witness :
  fullmatch date_re (L "01/15/2024") = true.
Proof.
  apply (proj2 (pay_period_dates_shape (L "Pay Date: 01/15/2024")) (L "Pay Date")).
  compute_done.
Defined.

(** *** The date after the first occurrence of a label *)

Lemma parses_lit label r s rest :
  parses (lit label ++ r) s rest <-> exists s', s = label ++ s' /\ parses r s' rest.
Proof.
  revert s. induction label as [|c label IH]; intros s.
  - simpl. split; [intros H; by exists s|by intros (s' & -> & H)].
  - change (lit (c :: label) ++ r) with (one (Char.is_char c) :: (lit label ++ r)).
    unfold one. cbn [parses]. split.
    + intros (pre & mid & -> & Hpre & Hlo & Hhi & Hrest).
      destruct (one_char_cases _ _ Hpre Hlo Hhi) as (x & -> & Hx).
      apply is_char_true in Hx as ->. apply IH in Hrest as (s' & -> & Hrest).
      by exists s'.
    + intros (s' & -> & Hrest). exists [c], (label ++ s').
      split; [done|]. split; [simpl; by rewrite (proj2 (is_char_true c c))|].
      split; [simpl; lia|]. split; [by intros h [= <-]|].
      apply IH. by exists s'.
Qed.

Lemma parses_label label s mid :
  parses (lit label ++ [star Char.isspace]) s mid
  <-> exists ws, s = label ++ ws ++ mid /\ forallb Char.isspace ws = true.
Proof.
  rewrite parses_lit. unfold star. cbn [parses]. split.
  - intros (s' & -> & ws & mid' & -> & Hws & _ & _ & ->). by exists ws.
  - intros (ws & -> & Hws). exists (ws ++ mid). split; [done|].
    exists ws, mid. repeat split; [done|lia|done].
Qed.

Lemma parses_date s rest :
  parses date_re s rest
  <-> exists a b c,
        s = a ++ "/"%char :: b ++ "/"%char :: c ++ rest
        /\ forallb Char.isdecimal a = true /\ 1 <= length a <= 2
        /\ forallb Char.isdecimal b = true /\ 1 <= length b <= 2
        /\ forallb Char.isdecimal c = true /\ length c = 4.
Proof.
  unfold date_re, range, one, times. cbn [parses]. split.
  - intros (a & s1 & -> & Ha & Ha1 & Ha2 & x & s2 & -> & Hx & Hx1 & Hx2
            & b & s3 & -> & Hb & Hb1 & Hb2 & y & s4 & -> & Hy & Hy1 & Hy2
            & c & s5 & -> & Hc & Hc1 & Hc2 & ->).
    destruct (one_char_cases _ _ Hx Hx1 Hx2) as (x' & -> & ->%is_char_true).
    destruct (one_char_cases _ _ Hy Hy1 Hy2) as (y' & -> & ->%is_char_true).
    specialize (Ha2 2 eq_refl). specialize (Hb2 2 eq_refl). specialize (Hc2 4 eq_refl).
    exists a, b, c. repeat split; try done; lia.
  - intros (a & b & c & -> & Ha & Ha1 & Hb & Hb1 & Hc & Hc1).
    exists a, ("/"%char :: b ++ "/"%char :: c ++ rest).
    split; [done|]. split; [done|]. split; [lia|]. split; [intros h [= <-]; lia|].
    exists ["/"%char], (b ++ "/"%char :: c ++ rest).
    split; [done|]. split; [done|]. split; [simpl; lia|]. split; [by intros h [= <-]|].
    exists b, ("/"%char :: c ++ rest).
    split; [done|]. split; [done|]. split; [lia|]. split; [intros h [= <-]; lia|].
    exists ["/"%char], (c ++ rest).
    split; [done|]. split; [done|]. split; [simpl; lia|]. split; [by intros h [= <-]|].
    exists c, rest.
    split; [done|]. split; [done|]. split; [lia|]. split; [intros h [= <-]; lia|done].
Qed.

(** A run of a class is fixed by the first character outside the class. *)
Lemma run_unique (cls : ascii -> bool) (x x' : str) c c' (y y' : str) :
  forallb cls x = true -> forallb cls x' = true -> cls c = false -> cls c' = false ->
  x ++ c :: y = x' ++ c' :: y' -> x = x' /\ c :: y = c' :: y'.
Proof.
  revert x'. induction x as [|a x IH]; intros x' Hx Hx' Hc Hc' E.
  - destruct x' as [|a' x']; [done|]. simpl in *. injection E as -> _.
    apply andb_true_iff in Hx' as [Ha _]. congruence.
  - destruct x' as [|a' x'].
    + simpl in *. injection E as -> _. apply andb_true_iff in Hx as [Ha _]. congruence.
    + simpl in *. injection E as -> E.
      apply andb_true_iff in Hx as [_ Hx]. apply andb_true_iff in Hx' as [_ Hx'].
      destruct (IH x' Hx Hx' Hc Hc' E) as [-> ?]. done.
Qed.

Lemma date_unique d rest d' rest' :
  parses date_re d [] -> parses date_re d' [] -> d ++ rest = d' ++ rest' -> d = d'.
Proof.
  rewrite !parses_date.
  intros (a & b & c & -> & Ha & Ha1 & Hb & Hb1 & Hc & Hc1)
         (a' & b' & c' & -> & Ha' & Ha1' & Hb' & Hb1' & Hc' & Hc1') E.
  rewrite !app_nil_r in *. rewrite <- !app_assoc in E. cbn [app] in E.
  rewrite <- !app_assoc in E. cbn [app] in E.
  destruct (run_unique Char.isdecimal a a' "/" "/" _ _ Ha Ha' eq_refl eq_refl E) as [-> E1].
  injection E1 as E1. rewrite <- ?app_assoc in E1. cbn [app] in E1.
  destruct (run_unique Char.isdecimal b b' "/" "/" _ _ Hb Hb' eq_refl eq_refl E1) as [-> E2].
  injection E2 as E2.
  apply app_inj_1 in E2 as [-> _]; [done|lia].
Qed.

Lemma date_head d : parses date_re d [] -> exists c d', d = c :: d' /\ Char.isdecimal c = true.
Proof.
  rewrite parses_date. intros (a & b & c & -> & Ha & Ha1 & _).
  destruct a as [|x a]; [simpl in Ha1; lia|]. simpl in Ha.
  apply andb_true_iff in Ha as [Hx _]. by eexists _, _.
Qed.

Lemma match_group_label label ws d tail :
  forallb Char.isspace ws = true -> parses date_re d [] ->
  match_group (lit label ++ [star Char.isspace]) date_re (label ++ ws ++ d ++ tail)
  = Some d.
Proof.
  intros Hws Hd. unfold match_group.
  set (l := flat_map _ _).
  assert (Hall : forall g, In g l -> g = d).
  { intros g Hg. subst l.
    destruct (match_group_elem _ _ _ _ Hg date_re_dollar_free)
      as (mid & rest & Hlabel & -> & Hg' & _).
    apply parses_label in Hlabel as (ws' & E & Hws').
    apply app_inv_head in E.
    destruct (date_head _ Hd) as (c & d0 & -> & Hc).
    destruct (date_head _ Hg') as (c' & g0 & -> & Hc').
    cbn [app] in E.
    destruct (run_unique Char.isspace ws ws' c c' _ _ Hws Hws'
                (decimal_not_space _ Hc) (decimal_not_space _ Hc') E) as [_ E'].
    symmetry. by eapply (date_unique (c :: d0) tail (c' :: g0) rest). }
  assert (Hin : In d l).
  { subst l. apply in_flat_map. exists (d ++ tail). split.
    - apply re_run_parses, parses_label. by exists ws.
    - apply in_map_iff. exists tail. split.
      + rewrite length_app.
        replace (length d + length tail - length tail) with (length d) by lia.
        apply take_app_length.
      + apply re_run_parses. apply parses_date in Hd as (a & b & c & -> & H).
        apply parses_date. exists a, b, c. split; [|done].
        rewrite app_nil_r. repeat (rewrite <- app_assoc; cbn [app]). done. }
  destruct l as [|g l]; [done|]. simpl. f_equal. apply Hall. by left.
Qed.

Lemma match_group_no_label label r2 s :
  startswith label s = false ->
  match_group (lit label ++ [star Char.isspace]) r2 s = None.
Proof.
  intros Hs. unfold match_group.
  destruct (re_run (lit label ++ [star Char.isspace]) s) as [|mid l] eqn:E; [done|].
  assert (Hmid : In mid (re_run (lit label ++ [star Char.isspace]) s))
    by (rewrite E; by left).
  apply re_run_parses, parses_label in Hmid as (ws & -> & _).
  by rewrite startswith_app in Hs.
Qed.

Lemma startswith_app_long p s t :
  length p <= length s -> startswith p (s ++ t) = startswith p s.
Proof.
  revert s. induction p as [|a p IH]; intros s Hlen; [done|].
  destruct s as [|b s]; [simpl in Hlen; lia|]. simpl.
  rewrite IH; [done|]. simpl in Hlen. lia.
Qed.

Lemma find_from_first sub s i n :
  find_from sub s i = Some n ->
  i <= n /\ forall k, k < n - i -> startswith sub (drop k s) = false.
Proof.
  revert i. induction s as [|c s IH]; intros i; simpl.
  - destruct (startswith sub []); [|done]. intros [= <-]. split; [lia|]. intros k; lia.
  - destruct (startswith sub (c :: s)) eqn:E.
    + intros [= <-]. split; [lia|]. intros k; lia.
    + intros H. destruct (IH _ H) as [Hle Hk]. split; [lia|].
      intros [|k] Hlt; [done|]. simpl. apply Hk. lia.
Qed.

Lemma search_group_skip r1 r2 pre s :
  (forall k, k < length pre -> match_group r1 r2 (drop k (pre ++ s)) = None) ->
  search_group r1 r2 (pre ++ s) = search_group r1 r2 s.
Proof.
  induction pre as [|c pre IH]; intros H; [done|].
  cbn [app search_group].
  pose proof (H 0 ltac:(simpl; lia)) as H0. cbn [drop app] in H0. rewrite H0. apply IH.
  intros k Hk. apply (H (S k)). simpl. lia.
Qed.

Lemma search_group_here r1 r2 s g :
  match_group r1 r2 s = Some g -> search_group r1 r2 s = Some g.
Proof. intros H. destruct s; simpl; by rewrite H. Qed.

Lemma labelled_date_found label pre ws d tail :
  find label (pre ++ label) = Some (length pre) ->
  forallb Char.isspace ws = true -> parses date_re d [] ->
  labelled_date label (pre ++ label ++ ws ++ d ++ tail) = Some d.
Proof.
  intros Hfind Hws Hd. unfold labelled_date.
  rewrite search_group_skip.
  - by apply search_group_here, match_group_label.
  - intros k Hk. apply match_group_no_label.
    apply find_from_first in Hfind as [_ Hfirst].
    specialize (Hfirst k ltac:(lia)).
    rewrite drop_app_le by lia. rewrite drop_app_le in Hfirst by lia.
    rewrite (app_assoc (drop k pre) label).
    rewrite startswith_app_long; [done|]. rewrite length_app. lia.
Qed.

(** X23: when the first occurrence of a label is followed by white space
    (or none) and a date, the key of that label holds that date, whatever
    comes before the label and after the date. *)
Theorem pay_period_date_found key label pre ws d tail :
  (key, label) ∈ date_labels ->
  find label (pre ++ label) = Some (length pre) ->
  Forall (fun c => Char.isspace c = true) ws ->
  fullmatch date_re d = true ->
  extract_pay_period_dates (pre ++ label ++ ws ++ d ++ tail) !! key = Some (Some d).
Proof.
  intros Hkey Hfind Hws Hd.
  rewrite (extract_pay_period_dates_lookup _ key label Hkey). f_equal.
  apply labelled_date_found; [done| |by apply fullmatch_true].
  by apply forallb_forall, List.Forall_forall.
Qed.

Lemma pay_period_date_found_witness :
  extract_pay_period_dates
    (L "Period Ending: 01/15/2024  " ++ L "Pay Date:" ++ L "  " ++ L "1/19/2024"
     ++ L " Jane Doe")
  !! L "Pay Date" = Some (Some (L "1/19/2024")).
Proof.
  apply (pay_period_date_found (L "Pay Date") (L "Pay Date:")
           (L "Period Ending: 01/15/2024  ") (L "  ") (L "1/19/2024") (L " Jane Doe")).
  - compute_done.
  - compute_done.
  - repeat constructor.
  - compute_done.
Defined.

(** ** The taxable wages *)

Lemma first_match_elem {A} (f : A -> option str) (l : list A) a :
  first_match f l = Some a -> exists x, x ∈ l /\ f x = Some a.
Proof.
  induction l as [|x l IH]; [done|]. cbn [first_match].
  destruct (truthy (f x)).
  - intros H. exists x. split; [by left|done].
  - intros H. destruct (IH H) as (y & Hy & Hf). exists y. split; [by right|done].
Qed.

Lemma amount_after_are_lexed line : opt_amount (amount_after_are line).
Proof.
  unfold amount_after_are. intros a.
  destruct (contains _ _); [|done]. destruct (1 <? _); [|done]. cbn zeta.
  destruct (truthy (Some _)); [|done].
  destruct (extract_first_amount_from_line _ []) as [b|] eqn:E; [|done].
  destruct (truthy (Some b)); [|done].
  intros [= <-]. by eapply extract_first_amount_from_line_lexed.
Qed.

Lemma amount_after_dollar_lexed s : opt_amount (amount_after_dollar s).
Proof. apply extract_first_amount_from_line_lexed. Qed.

Lemma amount_on_line_lexed line : opt_amount (amount_on_line line).
Proof.
  unfold amount_on_line. intros a.
  destruct (contains _ _); [|done]. cbn zeta.
  destruct (amount_after_dollar line) as [b|] eqn:E; [|done].
  destruct (truthy (Some b)); [|done].
  intros [= <-]. by eapply amount_after_dollar_lexed.
Qed.

Lemma amount_on_next_lines_lexed next : opt_amount (amount_on_next_lines next).
Proof.
  unfold amount_on_next_lines. intros a (l & _ & Ha)%first_match_elem.
  cbn zeta in Ha. destruct (contains _ _); [|done].
  by eapply amount_after_dollar_lexed.
Qed.

Lemma taxable_wages_loop_lexed lines : opt_amount (taxable_wages_loop lines).
Proof.
  induction lines as [|line rest IH]; [done|]. cbn [taxable_wages_loop].
  destruct (contains wages_marker (lower line)); [|done].
  destruct (amount_after_are line) as [a1|] eqn:E1.
  { intros a [= <-]. by eapply amount_after_are_lexed. }
  destruct (amount_on_line line) as [a2|] eqn:E2.
  { intros a [= <-]. by eapply amount_on_line_lexed. }
  destruct (amount_on_next_lines (take 3 rest)) as [a3|] eqn:E3; [|done].
  intros a [= <-]. by eapply amount_on_next_lines_lexed.
Qed.

Lemma taxable_wages_loop_no_marker lines :
  Forall (fun line => contains wages_marker (lower line) = false) lines ->
  taxable_wages_loop lines = None.
Proof.
  induction 1 as [|line rest Hline _ IH]; [done|].
  cbn [taxable_wages_loop]. by rewrite Hline.
Qed.

(** X24: the dictionary of the taxable wages is empty or holds the single
    key [Taxable Wages This Period] with an amount of the lexer, which
    has the form [-?\d*\.\d{2}]; it is empty when no line holds the
    phrase [federal taxable wages this period] (in any case). *)
Theorem taxable_wages_result text :
  (extract_taxable_wages text = ∅
   \/ exists a, fullmatch lexed_amount_re a = true
                /\ extract_taxable_wages text = {[ wages_key := a ]})
  /\ (Forall (fun line => contains wages_marker (lower line) = false)
        (split_on "010" text) ->
      extract_taxable_wages text = ∅).
Proof.
  unfold extract_taxable_wages. split.
  - destruct (taxable_wages_loop (split_on "010" text)) as [a|] eqn:E; [|by left].
    right. exists a. split; [|done].
    by destruct (lexed_amount_ok _ _ (taxable_wages_loop_lexed _ _ E)).
  - intros H. by rewrite taxable_wages_loop_no_marker.
Qed.

Lemma taxable_wages_result_witness :
  extract_taxable_wages (L "Jane Doe" ++ newline ++ L "Gross Pay 5 000 00") = ∅.
Proof.
  apply (proj2 (taxable_wages_result (L "Jane Doe" ++ newline ++ L "Gross Pay 5 000 00"))).
  compute_done.
Defined.

(** *** The amount after [ are ] *)

Lemma split_ws_remove_lstrip d s :
  Char.isspace d = false ->
  split_ws (remove_char d (lstrip s)) = split_ws (remove_char d s).
Proof.
  intros Hd. induction s as [|c s IH]; [done|].
  change (lstrip (c :: s)) with (if Char.isspace c then lstrip s else c :: s).
  destruct (Char.isspace c) eqn:Ec; [|done].
  cbn [remove_char]. rewrite (proj2 (is_char_false d c)) by congruence.
  by rewrite split_ws_space.
Qed.

Lemma split_ws_remove_rstrip d s :
  Char.isspace d = false ->
  split_ws (remove_char d (rstrip s)) = split_ws (remove_char d s).
Proof.
  intros Hd. induction s as [|c s IH] using rev_ind; [done|].
  rewrite rstrip_snoc. destruct (Char.isspace c) eqn:Ec; [|done].
  rewrite IH, remove_char_app. cbn [remove_char].
  rewrite (proj2 (is_char_false d c)) by congruence.
  by rewrite split_ws_trailing_space.
Qed.

Lemma split_ws_remove_strip d s :
  Char.isspace d = false ->
  split_ws (remove_char d (strip s)) = split_ws (remove_char d s).
Proof.
  intros Hd. unfold strip. by rewrite split_ws_remove_rstrip, split_ws_remove_lstrip.
Qed.

(** The first amount of a text depends on its tokens alone. *)
Lemma extract_first_amount_tokens s t :
  split_ws s = split_ws t ->
  extract_first_amount_from_line s [] = extract_first_amount_from_line t [].
Proof.
  intros H. unfold extract_first_amount_from_line, remainder_after.
  cbn [bool_decide decide_rel negb andb]. rewrite bool_decide_eq_true_2 by done.
  cbn [negb andb]. by rewrite !split_ws_strip, H.
Qed.

Lemma extract_first_amount_nonempty s a :
  extract_first_amount_from_line s [] = Some a -> s <> [].
Proof. by intros H ->. Qed.

Lemma split_str_from_skip sep s1 s2 piece :
  split_str_from sep (s1 ++ s2) (length s1) piece = split_str_from sep s2 0 piece.
Proof.
  induction s1 as [|c s1 IH]; [done|]. done.
Qed.

Lemma split_str_from_prefix sep p0 rest piece :
  sep <> [] ->
  (forall k, k < length p0 -> startswith sep (drop k (p0 ++ sep ++ rest)) = false) ->
  split_str_from sep (p0 ++ sep ++ rest) 0 piece
  = (rev piece ++ p0) :: split_str_from sep rest 0 [].
Proof.
  intros Hsep. revert piece. induction p0 as [|a p0 IH]; intros piece H.
  - destruct sep as [|c sep]; [done|]. cbn [app].
    pose proof (startswith_app (c :: sep) rest) as Hs. cbn [app] in Hs.
    cbn [split_str_from]. rewrite Hs. rewrite app_nil_r. f_equal.
    cbn [length]. rewrite Nat.sub_succ, Nat.sub_0_r. apply split_str_from_skip.
  - pose proof (H 0 ltac:(simpl; lia)) as H0. cbn [drop app] in H0.
    cbn [app split_str_from]. rewrite H0. rewrite IH.
    + cbn [rev]. by rewrite <- app_assoc.
    + intros k Hk. apply (H (S k)). simpl. lia.
Qed.

Lemma split_str_from_none sep s piece :
  (forall k, startswith sep (drop k s) = false) ->
  split_str_from sep s 0 piece = [rev piece ++ s].
Proof.
  revert piece. induction s as [|c s IH]; intros piece H.
  - by rewrite app_nil_r.
  - pose proof (H 0) as H0. cbn [drop] in H0. cbn [split_str_from]. rewrite H0.
    rewrite IH; [cbn [rev]; by rewrite <- app_assoc|].
    intros k. apply (H (S k)).
Qed.

Lemma find_from_None sub s i :
  find_from sub s i = None -> forall k, startswith sub (drop k s) = false.
Proof.
  revert i. induction s as [|c s IH]; intros i; simpl.
  - destruct (startswith sub []) eqn:E; [done|]. intros _ k. by rewrite drop_nil.
  - destruct (startswith sub (c :: s)) eqn:E; [done|].
    intros H [|k]; [done|]. simpl. by eapply IH.
Qed.

Lemma find_from_occurs sub s i k :
  startswith sub (drop k s) = true -> is_Some (find_from sub s i).
Proof.
  revert i k. induction s as [|c s IH]; intros i k; simpl.
  - rewrite drop_nil. intros ->. by eexists.
  - destruct (startswith sub (c :: s)) eqn:E; [by eexists|].
    destruct k as [|k]; [simpl; congruence|]. simpl. apply IH.
Qed.

Lemma contains_false_nowhere sub s :
  contains sub s = false -> forall k, startswith sub (drop k s) = false.
Proof.
  unfold contains, find. intros H%bool_decide_eq_false_1.
  apply (find_from_None sub s 0).
  destruct (find_from sub s 0); [|done]. destruct H. by eexists.
Qed.

Lemma contains_middle sub p0 p1 : contains sub (p0 ++ sub ++ p1) = true.
Proof.
  unfold contains, find. apply bool_decide_eq_true_2.
  apply (find_from_occurs _ _ _ (length p0)).
  rewrite drop_app_length. apply startswith_app.
Qed.

Lemma first_occurrence sub p0 rest :
  find sub (p0 ++ sub) = Some (length p0) ->
  forall k, k < length p0 -> startswith sub (drop k (p0 ++ sub ++ rest)) = false.
Proof.
  intros Hfind k Hk. apply find_from_first in Hfind as [_ Hfirst].
  specialize (Hfirst k ltac:(lia)).
  rewrite drop_app_le by lia. rewrite drop_app_le in Hfirst by lia.
  rewrite (app_assoc (drop k p0) sub).
  rewrite startswith_app_long; [done|]. rewrite length_app. lia.
Qed.

Lemma amount_after_are_found line p0 p1 a :
  lower line = p0 ++ L " are " ++ p1 ->
  find (L " are ") (p0 ++ L " are ") = Some (length p0) ->
  contains (L " are ") p1 = false ->
  extract_first_amount_from_line (remove_char "$" p1) [] = Some a ->
  amount_after_are line = Some a.
Proof.
  intros Hline Hfirst Hlast Ha. unfold amount_after_are.
  rewrite Hline, contains_middle. unfold split_str.
  rewrite split_str_from_prefix; [|done|by apply first_occurrence].
  rewrite split_str_from_none by by apply contains_false_nowhere.
  cbn [rev app length Nat.ltb Nat.leb lookup list_lookup].
  change (default [] (Some p1)) with p1. cbn zeta.
  assert (E : extract_first_amount_from_line (strip (remove_char "$" (strip p1))) []
              = Some a).
  { rewrite <- Ha. apply extract_first_amount_tokens.
    by rewrite split_ws_strip, split_ws_remove_strip. }
  rewrite E.
  rewrite (truthy_Some (strip (remove_char "$" (strip p1))))
    by (by eapply extract_first_amount_nonempty).
  rewrite (truthy_Some a); [done|].
  eapply lexed_amount_nonempty, extract_first_amount_from_line_lexed, E.
Qed.

Lemma taxable_wages_loop_skip before rest :
  Forall (fun line => contains wages_marker (lower line) = false) before ->
  taxable_wages_loop (before ++ rest) = taxable_wages_loop rest.
Proof.
  induction 1 as [|line before Hline _ IH]; [done|].
  cbn [app taxable_wages_loop]. by rewrite Hline.
Qed.

(** X25: the first line that holds the phrase
    [federal taxable wages this period] decides when the text after its
    [ are ] starts with an amount: if, once in lower case, that line has
    one [ are ], the wages are the first amount of what follows it with
    the dollar signs removed, whatever the later lines hold. *)
Theorem taxable_wages_after_are text before line more p0 p1 a :
  split_on "010" text = before ++ line :: more ->
  Forall (fun l => contains wages_marker (lower l) = false) before ->
  contains wages_marker (lower line) = true ->
  lower line = p0 ++ L " are " ++ p1 ->
  find (L " are ") (p0 ++ L " are ") = Some (length p0) ->
  contains (L " are ") p1 = false ->
  extract_first_amount_from_line (remove_char "$" p1) [] = Some a ->
  extract_taxable_wages text = {[ wages_key := a ]}.
Proof.
  intros Hlines Hbefore Hmarker Hline Hfirst Hlast Ha.
  unfold extract_taxable_wages. rewrite Hlines, taxable_wages_loop_skip by done.
  cbn [taxable_wages_loop]. rewrite Hmarker.
  by rewrite (amount_after_are_found line p0 p1 a).
Qed.

Lemma taxable_wages_after_are_witness :
  extract_taxable_wages
    (L "Jane Doe" ++ newline ++ L "Your federal taxable wages this period are $4 500 00")
  = {[ wages_key := L "4500.00" ]}.
Proof.
  apply (taxable_wages_after_are _ [L "Jane Doe"]
           (L "Your federal taxable wages this period are $4 500 00") []
           (L "your federal taxable wages this period") (L "$4 500 00") (L "4500.00"));
    compute_done.
Defined.

(** ** The record of a paystub *)

(** *** The families of keys *)

Lemma keys_begin_as_record (c : ascii) (d : dict) : keys_begin c d -> keys_begin c (as_record d).
Proof.
  intros H key [v Hv]. apply H. unfold as_record in Hv.
  rewrite lookup_fmap in Hv. destruct (d !! key); [by eexists|done].
Qed.

Lemma earnings_keys_begin text earnings :
  parse_earnings_section text = Some earnings -> keys_begin "E" earnings.
Proof.
  intros Hparse key Hkey.
  assert (Hf : earnings_field key).
  { eapply earnings_loop_keys; [exact Hparse| |exact Hkey].
    intros k [v Hv]. by rewrite lookup_empty in Hv. }
  by destruct Hf as (label & _ & [-> | ->]).
Qed.

Lemma deductions_keys_begin text : keys_begin "D" (parse_deductions_section text).
Proof.
  intros key Hkey.
  assert (Hf : deductions_field (split_on "010" text) key).
  { rewrite parse_deductions_scan in Hkey.
    eapply deductions_scan_fields; [done| |exact Hkey].
    intros k [v Hv]. cbn [deductions] in Hv. by rewrite lookup_empty in Hv. }
  by destruct Hf as (name & line & _ & _ & _ & [-> | ->]).
Qed.

Lemma benefits_keys_begin text : keys_begin "O" (parse_other_benefits_section text).
Proof.
  unfold parse_other_benefits_section.
  apply (foldl_invariant (keys_begin "O")).
  - intros b line Hb.
    destruct (benefits_line_cases benefit_names line) as [H | (name & a & _ & _ & H)];
      [done|by rewrite H|].
    rewrite H. intros key Hkey. apply lookup_insert_is_Some in Hkey as [<- | [_ Hkey]];
      [done|by apply Hb].
  - intros key [v Hv]. by rewrite lookup_empty in Hv.
Qed.

Lemma wages_keys_begin text : keys_begin "T" (extract_taxable_wages text).
Proof.
  unfold extract_taxable_wages. intros key [v Hv].
  destruct (taxable_wages_loop _); [|by rewrite lookup_empty in Hv].
  apply lookup_singleton_Some in Hv as [<- _]. done.
Qed.

Lemma dates_keys_begin text : keys_begin "P" (extract_pay_period_dates text).
Proof.
  intros key Hkey. apply elem_of_dom in Hkey.
  rewrite extract_pay_period_dates_dom in Hkey. unfold date_keys in Hkey.
  rewrite !elem_of_union, !elem_of_singleton in Hkey.
  by destruct Hkey as [[-> | ->] | ->].
Qed.

Lemma update_other (c : ascii) (data new : record) key :
  keys_begin c new -> head key <> Some c -> update data new !! key = data !! key.
Proof.
  intros Hnew Hkey. unfold update.
  destruct (new !! key) as [v|] eqn:E.
  - destruct Hkey. apply Hnew. by eexists.
  - by rewrite lookup_union_r.
Qed.

Lemma update_new (data new : record) key v :
  new !! key = Some v -> update data new !! key = Some v.
Proof. intros H. unfold update. by apply lookup_union_Some_l. Qed.

Lemma as_record_lookup (d : dict) key v :
  d !! key = Some v -> as_record d !! key = Some (Some v).
Proof. intros H. unfold as_record. by rewrite lookup_fmap, H. Qed.

Lemma as_record_empty : as_record ∅ = ∅.
Proof. apply fmap_empty. Qed.

(** The record once [parse_earnings_section] has returned. *)
Lemma extract_paystub_data_Some pdf_path pages data :
  extract_paystub_data pdf_path pages = Some data ->
  strip (page_texts pages) <> []
  /\ exists earnings,
       parse_earnings_section (page_texts pages) = Some earnings
       /\ data = update (update (update (update (update (update
                   {[ L "Source File" := Some (basename pdf_path) ]}
                   (extract_pay_period_dates (page_texts pages)))
                   (as_record earnings))
                   (as_record (parse_deductions_section (page_texts pages))))
                   (as_record (parse_other_section (page_texts pages))))
                   (as_record (extract_taxable_wages (page_texts pages))))
                   (as_record (parse_other_benefits_section (page_texts pages))).
Proof.
  unfold extract_paystub_data. cbn zeta.
  destruct (strip (page_texts pages)) as [|c s] eqn:E; [done|].
  cbn [truthy negb].
  destruct (parse_earnings_section (page_texts pages)) as [earnings|]; [|done].
  cbn [mbind option_bind]. intros [= <-]. split; [done|]. by exists earnings.
Qed.

(** X26: the record of a paystub holds the base name of the path under
    [Source File] and, unchanged, every entry of the dates, of the
    earnings, of the deductions, of the taxable wages and of the other
    benefits: no parser's entry is overwritten by another's, because the
    keys of each begin with a different letter. *)
Theorem paystub_record_keeps_every_field pdf_path pages data :
  extract_paystub_data pdf_path pages = Some data ->
  data !! L "Source File" = Some (Some (basename pdf_path))
  /\ (forall key o, extract_pay_period_dates (page_texts pages) !! key = Some o ->
                    data !! key = Some o)
  /\ (forall earnings key v,
        parse_earnings_section (page_texts pages) = Some earnings ->
        earnings !! key = Some v -> data !! key = Some (Some v))
  /\ (forall key v, parse_deductions_section (page_texts pages) !! key = Some v ->
                    data !! key = Some (Some v))
  /\ (forall key v, extract_taxable_wages (page_texts pages) !! key = Some v ->
                    data !! key = Some (Some v))
  /\ (forall key v, parse_other_benefits_section (page_texts pages) !! key = Some v ->
                    data !! key = Some (Some v)).
Proof.
  intros Hdata.
  destruct (extract_paystub_data_Some _ _ _ Hdata) as (_ & earnings & He & ->).
  set (text := page_texts pages) in *.
  pose proof (keys_begin_as_record _ _ (earnings_keys_begin _ _ He)) as KE.
  pose proof (keys_begin_as_record _ _ (deductions_keys_begin text)) as KD.
  pose proof (keys_begin_as_record _ _ (wages_keys_begin text)) as KT.
  pose proof (keys_begin_as_record _ _ (benefits_keys_begin text)) as KO.
  pose proof (dates_keys_begin text) as KP.
  unfold parse_other_section. rewrite as_record_empty.
  assert (Hother : forall d : record, update d ∅ = d).
  { intros d. unfold update. apply (left_id_L ∅ (∪)). }
  rewrite Hother.
  split; [|split; [|split; [|split; [|split]]]].
  - rewrite (update_other "O"), (update_other "T"), (update_other "D"),
      (update_other "E"), (update_other "P"); try done.
  - intros key o Ho.
    assert (Hk : head key = Some "P"%char) by (apply KP; by eexists).
    rewrite (update_other "O"), (update_other "T"), (update_other "D"),
      (update_other "E"); try done; try (rewrite Hk; done).
    by apply update_new.
  - intros earnings' key v He' Hv. rewrite He in He'. injection He' as <-.
    assert (Hk : head key = Some "E"%char).
    { apply KE. exists (Some v). by apply as_record_lookup. }
    rewrite (update_other "O"), (update_other "T"), (update_other "D");
      try done; try (rewrite Hk; done).
    by apply update_new, as_record_lookup.
  - intros key v Hv.
    assert (Hk : head key = Some "D"%char).
    { apply KD. exists (Some v). by apply as_record_lookup. }
    rewrite (update_other "O"), (update_other "T"); try done; try (rewrite Hk; done).
    by apply update_new, as_record_lookup.
  - intros key v Hv.
    assert (Hk : head key = Some "T"%char).
    { apply KT. exists (Some v). by apply as_record_lookup. }
    rewrite (update_other "O"); try done; try (rewrite Hk; done).
    by apply update_new, as_record_lookup.
  - intros key v Hv. by apply update_new, as_record_lookup.
Qed.

Lemma paystub_record_keeps_every_field_witness :
  example_record !! L "Source File" = Some (Some (L "2024-01-15.pdf"))
  /\ example_record !! L "Pay Date" = Some (Some (L "01/15/2024"))
  /\ example_record !! L "Earnings Regular" = Some (Some (L "5000.00")).
Proof.
  destruct (paystub_record_keeps_every_field (L "/home/jane/stubs/2024-01-15.pdf")
              example_pages example_record ltac:(compute_done)) as (H1 & H2 & H3 & _).
  split; [|split].
  - rewrite H1. compute_done.
  - apply H2. compute_done.
  - apply (H3 {[ L "Earnings Regular" := L "5000.00";
                 L "Earnings Regular YTD" := L "5000.00" ]}); compute_done.
Defined.

(** *** When no record is returned *)

Lemma page_texts_blank (pages : list (option str)) (full_text : str) :
  Forall (fun c => Char.isspace c = true)
    (foldl (fun full_text page_text =>
              if truthy page_text
              then full_text ++ default [] page_text ++ ["010"%char]
              else full_text) full_text pages)
  <-> Forall (fun c => Char.isspace c = true) full_text /\ Forall blank_page pages.
Proof.
  revert full_text. induction pages as [|page pages IH]; intros full_text.
  - cbn [foldl]. split; [intros H; split; [done|constructor]|by intros [H _]].
  - cbn [foldl]. rewrite IH, Forall_cons. destruct page as [[|c s]|]; cbn [truthy].
    + split; [intros [H1 H2]|intros [H1 [_ H2]]]; [|done].
      split; [done|]. split; [|done]. intros s [= <-]. constructor.
    + change (default [] (Some (c :: s))) with (c :: s). rewrite !Forall_app.
      split.
      * intros [(H1 & H2 & _) H3]. split; [done|]. split; [|done]. by intros s' [= <-].
      * intros [H1 [H2 H3]]. split; [|done]. split; [done|]. split; [by apply H2|].
        by repeat constructor.
    + split; [intros [H1 H2]|intros [H1 [_ H2]]]; [|done].
      split; [done|]. split; [|done]. by intros s.
Qed.

(** X27: given the text of the pages, no record is returned in two cases
    and no other: every page is without text ([None], empty or white
    space), or [parse_earnings_section] raises. *)
Theorem paystub_record_none_iff pdf_path pages :
  extract_paystub_data pdf_path pages = None
  <-> Forall blank_page pages \/ parse_earnings_section (page_texts pages) = None.
Proof.
  assert (Hblank : strip (page_texts pages) = [] <-> Forall blank_page pages).
  { rewrite strip_nil_iff. unfold page_texts. rewrite page_texts_blank.
    split; [by intros [_ H]|intros H; split; [constructor|done]]. }
  unfold extract_paystub_data. cbn zeta.
  destruct (strip (page_texts pages)) as [|c s] eqn:E.
  - cbn [truthy negb]. split; [intros _; left; by apply Hblank|done].
  - cbn [truthy negb].
    destruct (parse_earnings_section (page_texts pages)) as [earnings|];
      cbn [mbind option_bind].
    + split; [done|]. intros [H | H]; [|done]. by apply Hblank in H.
    + split; [intros _; by right|done].
Qed.

(** ** The rows of the CSV output *)

(** *** The order of the fields *)

Lemma insert_sorted_perm x l : insert_sorted x l ≡ₚ x :: l.
Proof.
  induction l as [|y l IH]; [done|]. cbn [insert_sorted].
  destruct (str_ltb y x); [|done]. rewrite IH. apply Permutation_swap.
Qed.

Lemma sorted_perm l : sorted l ≡ₚ l.
Proof.
  induction l as [|x l IH]; [done|]. unfold sorted in *. cbn [foldr].
  by rewrite insert_sorted_perm, IH.
Qed.

Lemma place_field_perm (f : str) (st : list str * gset str) :
  let st' := if bool_decide (f ∈ st.2) then (st.1 ++ [f], st.2 ∖ {[ f ]}) else st in
  st'.1 ++ elements st'.2 ≡ₚ st.1 ++ elements st.2.
Proof.
  cbn zeta. destruct (bool_decide (f ∈ st.2)) eqn:E; [|done].
  apply bool_decide_eq_true_1 in E. cbn [fst snd].
  rewrite <- app_assoc. cbn [app]. apply Permutation_app_head.
  rewrite (union_difference_singleton_L f st.2 E) at 2.
  symmetry. apply elements_union_singleton. set_solver.
Qed.

Lemma place_pattern_perm (field_pattern : str) (st : list str * gset str) :
  (place_pattern field_pattern st).1 ++ elements (place_pattern field_pattern st).2
  ≡ₚ st.1 ++ elements st.2.
Proof.
  unfold place_pattern. destruct (is_glob field_pattern).
  - generalize (sorted (filter (fun f => Is_true (fnmatch field_pattern f)) (elements st.2))).
    intros l. revert st. induction l as [|f l IH]; intros st; [done|].
    cbn [foldl]. rewrite IH. apply place_field_perm.
  - apply place_field_perm.
Qed.

Lemma fold_place_perm (g : str -> str) (patterns : list str) (st : list str * gset str) :
  (foldl (fun st p => place_pattern (g p) st) st patterns).1
  ++ elements (foldl (fun st p => place_pattern (g p) st) st patterns).2
  ≡ₚ st.1 ++ elements st.2.
Proof.
  revert st. induction patterns as [|p patterns IH]; intros st; [done|].
  cbn [foldl]. rewrite IH. apply place_pattern_perm.
Qed.

Lemma ordered_fields_perm data : ordered_fields data ≡ₚ elements (all_fields data).
Proof.
  unfold ordered_fields.
  pose proof (fold_place_perm (fun p => p) FIELD_ORDER ([], all_fields data)) as H1.
  destruct (foldl _ ([], all_fields data) FIELD_ORDER) as [o1 S1]. cbn [fst snd app] in H1.
  pose proof (fold_place_perm (fun p => p ++ L " YTD") FIELD_ORDER ([], S1)) as H2.
  destruct (foldl _ ([], S1) FIELD_ORDER) as [o2 S2]. cbn [fst snd app] in H2.
  rewrite sorted_perm, H2. exact H1.
Qed.

(** X28: the ordering of the fields loses nothing and repeats nothing:
    the list of the fields in output order is a permutation of the set of
    the keys of the records other than [Source File]. *)
Theorem ordered_fields_permutation data :
  ordered_fields data ≡ₚ elements (all_fields data).
Proof. apply ordered_fields_perm. Qed.

(** *** The rows *)

Lemma filter_elements_difference (S : gset str) (x : str) :
  filter (fun f => f <> x) (elements S) ≡ₚ elements (S ∖ {[ x ]}).
Proof.
  apply NoDup_Permutation.
  - apply NoDup_filter, NoDup_elements.
  - apply NoDup_elements.
  - intros f. rewrite list_elem_of_filter, !elem_of_elements. set_solver.
Qed.

Lemma rows_labels (data : list record) (fields : list str) :
  map head (map (field_row data) fields) = map (fun field => Some (Some field)) fields.
Proof. induction fields as [|field fields IH]; [done|]. cbn [map head]. by rewrite IH. Qed.

Lemma rows_lengths (data : list record) (fields : list str) :
  Forall (fun row : list (option str) => length row = S (length data))
    (map (field_row data) fields).
Proof.
  apply Forall_map, Forall_forall. intros field _. unfold field_row.
  cbn [length]. by rewrite length_map.
Qed.

Lemma csv_rows_Some (data : list record) rows :
  csv_rows data = Some rows ->
  data <> []
  /\ rows = pay_date_row data
            :: map (field_row data)
                 (filter (fun field => field <> L "Pay Date") (ordered_fields data)).
Proof.
  unfold csv_rows. destruct data as [|record data]; [done|].
  generalize (ordered_fields (record :: data)). intros fields H.
  split; [done|]. by apply (inj Some) in H.
Qed.

(** X29: for a batch that is not empty the rows are the header row, whose
    first cell is [Pay Date], and one row for each key of the records
    other than [Source File] and [Pay Date], whose first cell is the key;
    every row has one more cell than there are records.  For the empty
    batch there are no rows. *)
Theorem csv_rows_shape data :
  match csv_rows data with
  | None => data = []
  | Some rows =>
      data <> []
      /\ Forall (fun row => length row = S (length data)) rows
      /\ exists fields,
           map head rows = map (fun field => Some (Some field)) (L "Pay Date" :: fields)
           /\ fields ≡ₚ elements (all_fields data ∖ {[ L "Pay Date" ]})
  end.
Proof.
  destruct (csv_rows data) as [rows|] eqn:E.
  - apply csv_rows_Some in E as [Hne ->]. split; [done|]. split.
    + constructor; [|apply rows_lengths]. unfold pay_date_row.
      cbn [length]. by rewrite length_map.
    + exists (filter (fun field => field <> L "Pay Date") (ordered_fields data)).
      split.
      * rewrite !map_cons. rewrite rows_labels. reflexivity.
      * rewrite ordered_fields_perm. apply filter_elements_difference.
  - unfold csv_rows in E. by destruct data.
Qed.

(** *** The header row of extracted records *)

Lemma paystub_record_date pdf_path pages data key o :
  extract_paystub_data pdf_path pages = Some data ->
  extract_pay_period_dates (page_texts pages) !! key = Some o ->
  data !! key = Some o.
Proof.
  intros Hdata Ho.
  destruct (extract_paystub_data_Some _ _ _ Hdata) as (_ & earnings & He & ->).
  set (text := page_texts pages) in *.
  pose proof (keys_begin_as_record _ _ (earnings_keys_begin _ _ He)) as KE.
  pose proof (keys_begin_as_record _ _ (deductions_keys_begin text)) as KD.
  pose proof (keys_begin_as_record _ _ (wages_keys_begin text)) as KT.
  pose proof (keys_begin_as_record _ _ (benefits_keys_begin text)) as KO.
  assert (Hk : head key = Some "P"%char) by (apply (dates_keys_begin text); by eexists).
  unfold parse_other_section. rewrite as_record_empty.
  assert (Hother : forall d : record, update d ∅ = d).
  { intros d. unfold update. apply (left_id_L ∅ (∪)). }
  rewrite Hother.
  rewrite (update_other "O"), (update_other "T"), (update_other "D"),
    (update_other "E"); try done; try (rewrite Hk; done).
  by apply update_new.
Qed.

(** X30: when every record of the batch has the [Pay Date] of an
    extracted record (as the records that the validator returns have),
    each cell of the header row after the first is empty or a date: the
    fallback [Unknown] is never written. *)
Theorem csv_header_holds_dates data rows :
  (forall r, r ∈ data ->
     exists pdf_path pages r0,
       extract_paystub_data pdf_path pages = Some r0
       /\ r !! L "Pay Date" = r0 !! L "Pay Date") ->
  csv_rows data = Some rows ->
  exists header rest,
    rows = (Some (L "Pay Date") :: header) :: rest /\ Forall date_cell header.
Proof.
  intros Hdata Hrows. apply csv_rows_Some in Hrows as [_ ->].
  eexists _, _. split; [reflexivity|].
  apply Forall_map, Forall_forall. intros r Hr.
  destruct (Hdata r Hr) as (pdf_path & pages & r0 & Hr0 & ->).
  destruct (extract_pay_period_dates_values (page_texts pages)) as (_ & _ & Hdate).
  rewrite (paystub_record_date _ _ _ _ _ Hr0 Hdate).
  change (default (Some (L "Unknown")) (Some ?o)) with o.
  destruct (labelled_date (L "Pay Date:") (page_texts pages)) as [d|] eqn:E; [|by left].
  right. exists d. split; [done|].
  eapply search_group_fullmatch; [apply date_re_dollar_free|exact E].
Qed.

Lemma csv_header_holds_dates_witness :
  exists header rest,
    pay_date_row example_batch
    :: map (field_row example_batch)
         (filter (fun field => field <> L "Pay Date") (ordered_fields example_batch))
    = (Some (L "Pay Date") :: header) :: rest
    /\ Forall date_cell header.
Proof.
  apply (csv_header_holds_dates example_batch).
  - intros r Hr. exists (L "/home/jane/stubs/2024-01-15.pdf"), example_pages, example_record.
    split; [compute_done|].
    apply elem_of_cons in Hr as [-> | Hr]; [done|].
    apply elem_of_cons in Hr as [-> | Hr]; [done|]. by apply elem_of_nil in Hr.
  - reflexivity.
Defined.
